(** * Facebook post extractor: the extraction and merge pipeline of [main.py]

    A shallow embedding of the Python program.  Python values coming out of
    [json.load] are terms of [pyval]; a Python [str] is the list of its code
    points; an exception is the [Err] branch of [result]; the two
    [seen_timestamps] sets are [gset Z]; what the program prints is a list of
    [event]s.  Library behaviour the program relies on but that is not part of
    its source (Unicode lower-casing, [pathlib], the local time zone, the
    content of the files, the answers of the file system) is a Section
    variable; a call that can raise answers in [result]. *)

From Stdlib Require Import ZArith NArith List String Ascii Bool Lia.
From Stdlib Require Import Permutation Sorted.
From stdpp Require Import base gmap sets list.

Set Warnings "-register-all,-clear-no-such-hyp".

Local Open Scope Z_scope.

(** ** Python strings and bytes *)

(** A [str] is a sequence of code points, a [bytes] a sequence of octets. *)
Definition pystr := list N.
Definition pybytes := list N.

(** ** Exceptions and the error monad *)

Inductive exn :=
| AttributeError
| TypeError
| KeyError
| ValueError
| OverflowError
| OSError
| UnicodeEncodeError
| UnicodeDecodeError
| JSONDecodeError (msg : pystr)
| NotAnInt.
(* [NotAnInt]: a "timestamp" that is present and is not an integer.  The
   dataclass declares [timestamp: int]; the behaviour of the program on other
   values (null, booleans, strings) is outside this model and kept apart from
   the Python exceptions. *)

Inductive result (A : Type) :=
| Ok (a : A)
| Err (e : exn).
Arguments Ok {A} a.
Arguments Err {A} e.

#[global] Instance result_ret : MRet result := fun A a => Ok a.
#[global] Instance result_bind : MBind result := fun A B f m =>
  match m with
  | Ok a => f a
  | Err e => Err e
  end.
#[global] Instance result_fmap : FMap result := fun A B f m =>
  match m with
  | Ok a => Ok (f a)
  | Err e => Err e
  end.

Definition is_ok {A} (r : result A) : bool :=
  match r with Ok _ => true | Err _ => false end.

(** ** Codecs: [str.encode('latin-1')] and [bytes.decode('utf-8')] *)

(** latin-1 maps code point [c <= 255] to the octet [c] and raises
    [UnicodeEncodeError] on any other code point. *)
Fixpoint encode_latin1 (s : pystr) : result pybytes :=
  match s with
  | [] => Ok []
  | c :: s' =>
      if (c <=? 255)%N then (b ← encode_latin1 s'; Ok (c :: b))
      else Err UnicodeEncodeError
  end.

Definition is_cont (b : N) : bool := (128 <=? b)%N && (b <=? 191)%N.
Definition cont_bits (b : N) : N := (b - 128)%N.

(** Strict UTF-8: shortest form only, no surrogates, nothing above U+10FFFF;
    any other octet sequence raises [UnicodeDecodeError]. *)
Fixpoint decode_utf8 (b : pybytes) : result pystr :=
  match b with
  | [] => Ok []
  | b1 :: r1 =>
      if (b1 <=? 127)%N then (s ← decode_utf8 r1; Ok (b1 :: s))
      else if (194 <=? b1)%N && (b1 <=? 223)%N then
        match r1 with
        | b2 :: r2 =>
            if is_cont b2
            then (s ← decode_utf8 r2;
                  Ok (((b1 - 192) * 64 + cont_bits b2)%N :: s))
            else Err UnicodeDecodeError
        | _ => Err UnicodeDecodeError
        end
      else if (224 <=? b1)%N && (b1 <=? 239)%N then
        match r1 with
        | b2 :: b3 :: r3 =>
            let c := ((b1 - 224) * 4096 + cont_bits b2 * 64 + cont_bits b3)%N in
            if is_cont b2 && is_cont b3 && (2048 <=? c)%N
               && negb ((55296 <=? c)%N && (c <=? 57343)%N)
            then (s ← decode_utf8 r3; Ok (c :: s))
            else Err UnicodeDecodeError
        | _ => Err UnicodeDecodeError
        end
      else if (240 <=? b1)%N && (b1 <=? 244)%N then
        match r1 with
        | b2 :: b3 :: b4 :: r4 =>
            let c := ((b1 - 240) * 262144 + cont_bits b2 * 4096
                      + cont_bits b3 * 64 + cont_bits b4)%N in
            if is_cont b2 && is_cont b3 && is_cont b4
               && (65536 <=? c)%N && (c <=? 1114111)%N
            then (s ← decode_utf8 r4; Ok (c :: s))
            else Err UnicodeDecodeError
        | _ => Err UnicodeDecodeError
        end
      else Err UnicodeDecodeError
  end.

(** Literals of the source are written as Rocq strings (UTF-8 octets) and
    read back as code points. *)
Definition lit (s : string) : pystr :=
  match decode_utf8 (map N_of_ascii (list_ascii_of_string s)) with
  | Ok r => r
  | Err _ => []
  end.
Arguments lit s%_string.

(** ** Python values, as [json.load] builds them *)

(** JSON numbers are restricted to integers; a dict keeps its items in
    insertion order and [json.load] leaves each key once. *)
Inductive pyval :=
| PNone
| PBool (b : bool)
| PInt (z : Z)
| PStr (s : pystr)
| PList (l : list pyval)
| PDict (kv : list (pystr * pyval)).

(** [bool(v)] *)
Definition py_truthy (v : pyval) : bool :=
  match v with
  | PNone => false
  | PBool b => b
  | PInt z => negb (z =? 0)
  | PStr s => match s with [] => false | _ => true end
  | PList l => match l with [] => false | _ => true end
  | PDict kv => match kv with [] => false | _ => true end
  end.

Fixpoint assoc (k : pystr) (kv : list (pystr * pyval)) : option pyval :=
  match kv with
  | [] => None
  | (k', v) :: kv' => if bool_decide (k' = k) then Some v else assoc k kv'
  end.

(** [o.get(k, default)]: only a dict has the method. *)
Definition py_get (o : pyval) (k : pystr) (default : pyval) : result pyval :=
  match o with
  | PDict kv =>
      match assoc k kv with
      | Some v => Ok v
      | None => Ok default
      end
  | _ => Err AttributeError
  end.

(** [o[k]] on a dict. *)
Definition py_getitem (o : pyval) (k : pystr) : result pyval :=
  match o with
  | PDict kv =>
      match assoc k kv with
      | Some v => Ok v
      | None => Err KeyError
      end
  | _ => Err TypeError
  end.

(** [for x in o]: the elements of a list, the keys of a dict, the characters
    of a string; anything else is not iterable. *)
Definition py_iter (o : pyval) : result (list pyval) :=
  match o with
  | PList l => Ok l
  | PDict kv => Ok (map (fun p => PStr (fst p)) kv)
  | PStr s => Ok (map (fun c => PStr [c]) s)
  | _ => Err TypeError
  end.

(** ** [fix_encoding] *)

Definition py_encode_latin1 (text : pyval) : result pybytes :=
  match text with
  | PStr s => encode_latin1 s
  | _ => Err AttributeError
  end.

(** The repair transform [text.encode('latin-1').decode('utf-8')]. *)
Definition repair (text : pyval) : result pystr :=
  b ← py_encode_latin1 text; decode_utf8 b.

Definition fix_encoding (text : pyval) : result pyval :=
  if negb (py_truthy text) then Ok text
  else
    match repair text with
    | Ok r => Ok (PStr r)
    | Err UnicodeDecodeError | Err UnicodeEncodeError => Ok text
    | Err e => Err e
    end.


(** ** Loops *)

(** [for x in l: body], the body threading the loop's variables and any
    exception ending the loop. *)
Fixpoint for_each {A S} (body : A → S → result S) (l : list A) (s : S)
  : result S :=
  match l with
  | [] => Ok s
  | x :: l' => s' ← body x s; for_each body l' s'
  end.

(** [needle in hay] on strings. *)
Fixpoint starts_with (needle hay : pystr) : bool :=
  match needle, hay with
  | [], _ => true
  | _ :: _, [] => false
  | a :: needle', b :: hay' => bool_decide (a = b) && starts_with needle' hay'
  end.

Fixpoint contains (needle hay : pystr) : bool :=
  starts_with needle hay ||
  match hay with
  | [] => false
  | _ :: hay' => contains needle hay'
  end.

(** ** [list.sort(key=..., reverse=True)] *)

(** Python's sort is stable, also under [reverse=True]: elements with equal
    keys keep the order they had.  Insertion from the right does the same:
    [x] goes in front of the first element whose key is not above its own. *)
Fixpoint insert_desc {A} (key : A → Z) (x : A) (l : list A) : list A :=
  match l with
  | [] => [x]
  | y :: l' => if key y <=? key x then x :: y :: l' else y :: insert_desc key x l'
  end.

Fixpoint sort_desc {A} (key : A → Z) (l : list A) : list A :=
  match l with
  | [] => []
  | x :: l' => insert_desc key x (sort_desc key l')
  end.

(** ** [html.escape] *)

(** [s.replace(old, new)] for a one-character [old]. *)
Definition replace_char (old : N) (new : pystr) (s : pystr) : pystr :=
  flat_map (λ c, if bool_decide (c = old) then new else [c]) s.

(** [html.escape(s)], with [quote=True]: the ampersand first. *)
Definition html_escape (s : pystr) : pystr :=
  let s := replace_char 38 (lit "&amp;") s in
  let s := replace_char 60 (lit "&lt;") s in
  let s := replace_char 62 (lit "&gt;") s in
  let s := replace_char 34 (lit "&quot;") s in
  replace_char 39 (lit "&#x27;") s.

(** What [html.escape] is documented to do, character by character: the
    ampersand, the two angle brackets and the two quotes become character
    references, every other character stays. *)
Definition html_entity (c : N) : pystr :=
  if bool_decide (c = 38%N) then lit "&amp;"
  else if bool_decide (c = 60%N) then lit "&lt;"
  else if bool_decide (c = 62%N) then lit "&gt;"
  else if bool_decide (c = 34%N) then lit "&quot;"
  else if bool_decide (c = 39%N) then lit "&#x27;"
  else [c].

Definition py_html_escape (v : pyval) : result pystr :=
  match v with
  | PStr s => Ok (html_escape s)
  | _ => Err AttributeError
  end.

(** The characters that open or close a tag or an attribute value. *)
Definition is_markup (c : N) : bool :=
  bool_decide (c = 60%N) || bool_decide (c = 62%N)
  || bool_decide (c = 34%N) || bool_decide (c = 39%N).

(** The character references [html.escape] writes. *)
Definition html_references : list pystr :=
  [lit "&amp;"; lit "&lt;"; lit "&gt;"; lit "&quot;"; lit "&#x27;"].

(** Every ampersand of [s] starts one of them. *)
Fixpoint ampersands_escaped (s : pystr) : bool :=
  match s with
  | [] => true
  | c :: s' =>
      (negb (bool_decide (c = 38%N))
       || existsb (λ r, starts_with r (c :: s')) html_references)
      && ampersands_escaped s'
  end.

(** [needle] occurs in [hay] as a substring. *)
Definition occurs (needle hay : pystr) : Prop :=
  ∃ before after, hay = before ++ needle ++ after.

(** A scanner for the opening of a script tag: it is in state 3 from the
    moment it has read the characters [<sc] in a row, and in state 0 when
    the text read so far neither holds them nor ends inside them. *)
Definition tag_step (q : nat) (c : N) : nat :=
  match q with
  | 3%nat => 3%nat
  | _ =>
      if bool_decide (c = 60%N) then 1%nat
      else
        match q with
        | 1%nat => if bool_decide (c = 115%N) then 2%nat else 0%nat
        | 2%nat => if bool_decide (c = 99%N) then 3%nat else 0%nat
        | _ => 0%nat
        end
  end.

Definition tag_scan (q : nat) (s : pystr) : nat := foldl tag_step q s.

Definition clean (s : pystr) : Prop := tag_scan 0 s = 0%nat.

(** [sep.join(l)]: every item has to be a string. *)
Fixpoint py_join (sep : pystr) (l : list pyval) : result pystr :=
  match l with
  | [] => Ok []
  | PStr s :: l' =>
      match l' with
      | [] => Ok s
      | _ => r ← py_join sep l'; Ok (s ++ sep ++ r)
      end
  | _ => Err TypeError
  end.

(** [str(n)] for a length: its decimal digits. *)
Fixpoint uint_codes (d : Decimal.uint) : pystr :=
  match d with
  | Decimal.Nil => []
  | Decimal.D0 d => 48%N :: uint_codes d
  | Decimal.D1 d => 49%N :: uint_codes d
  | Decimal.D2 d => 50%N :: uint_codes d
  | Decimal.D3 d => 51%N :: uint_codes d
  | Decimal.D4 d => 52%N :: uint_codes d
  | Decimal.D5 d => 53%N :: uint_codes d
  | Decimal.D6 d => 54%N :: uint_codes d
  | Decimal.D7 d => 55%N :: uint_codes d
  | Decimal.D8 d => 56%N :: uint_codes d
  | Decimal.D9 d => 57%N :: uint_codes d
  end.

Definition py_str_nat (n : nat) : pystr := uint_codes (Nat.to_uint n).

(** A template literal of the source, its double quotes written as back
    quotes (the templates hold no back quote of their own). *)
Definition tpl (s : string) : pystr := replace_char 96 [34%N] (lit s).
Arguments tpl s%_string.

(** The three literal parts of the page, lines 197-292, around the count of
    posts and the items. *)
Definition page_head : pystr := tpl "<!DOCTYPE html>
<html lang=`sk`>
<head>
    <meta charset=`UTF-8`>
    <meta name=`viewport` content=`width=device-width, initial-scale=1.0`>
    <title>Archív Facebook príspevkov</title>
    <style>
        * {
            box-sizing: border-box;
            margin: 0;
            padding: 0;
        }
        body {
            font-family: -apple-system, BlinkMacSystemFont, `Segoe UI`, Roboto, Helvetica, Arial, sans-serif;
            background-color: #f0f2f5;
            padding: 20px;
            color: #1c1e21;
        }
        .container {
            max-width: 680px;
            margin: 0 auto;
        }
        h1 {
            text-align: center;
            margin-bottom: 20px;
            color: #1877f2;
        }
        .stats {
            text-align: center;
            margin-bottom: 20px;
            color: #65676b;
        }
        .post {
            background: white;
            border-radius: 8px;
            box-shadow: 0 1px 2px rgba(0,0,0,0.1);
            margin-bottom: 15px;
            padding: 15px;
        }
        .post-header {
            margin-bottom: 10px;
        }
        .date {
            color: #65676b;
            font-size: 0.9em;
        }
        .title {
            color: #65676b;
            font-size: 0.85em;
            margin-bottom: 8px;
        }
        .post-text {
            font-size: 15px;
            line-height: 1.5;
            margin-bottom: 10px;
            white-space: pre-wrap;
            word-wrap: break-word;
        }
        .photos {
            display: flex;
            flex-wrap: wrap;
            gap: 8px;
            margin-top: 10px;
        }
        .post-photo {
            max-width: 100%;
            max-height: 500px;
            border-radius: 8px;
            object-fit: contain;
            cursor: pointer;
        }
        .tags {
            margin-top: 10px;
            color: #1877f2;
            font-size: 0.9em;
        }
        .external-link {
            display: inline-block;
            margin-top: 10px;
            color: #1877f2;
            text-decoration: none;
        }
        .external-link:hover {
            text-decoration: underline;
        }
    </style>
</head>
<body>
    <div class=`container`>
        <h1>Archív Facebook príspevkov</h1>
        <p class=`stats`>Celkom príspevkov: ".

Definition page_mid : pystr := tpl "</p>
        ".

Definition page_tail : pystr := tpl "
    </div>
</body>
</html>
".


(** ** The Post entity *)

Record FacebookPost := {
  timestamp : Z;
  post_text : pyval;
  title : pyval;
  photo_paths : list pystr;
  photo_filenames : list pystr;
  date_string : pystr;
  tags : list pyval;
  external_url : pyval
}.

(** The retention filter of line 72, as a property of a post. *)
Definition retained (p : FacebookPost) : Prop :=
  py_truthy (post_text p) = true ∨ photo_paths p ≠ [].

(** Whether an entry of an attachment has an [external_context] with a
    "url" field, as the specification words the condition. *)
Definition has_external_url (att_data : pyval) : bool :=
  match att_data with
  | PDict kv =>
      match assoc (lit "external_context") kv with
      | Some (PDict ctx) => bool_decide (is_Some (assoc (lit "url") ctx))
      | _ => false
      end
  | _ => false
  end.

(** Whether the "external_context" of an entry is truthy: the guard of
    line 69, on an entry that is an object. *)
Definition has_context (att_data : pyval) : bool :=
  match py_get att_data (lit "external_context") PNone with
  | Ok ec => py_truthy ec
  | Err _ => false
  end.

(** The entries of all the attachments of a record, in the order the
    specification has them scanned: attachment by attachment, each one's
    "data" from first to last. *)
Definition attachment_entries (item : pyval) : result (list pyval) :=
  atts ← py_get item (lit "attachments") (PList []) ≫= py_iter;
  lists ← mapM (λ a, py_get a (lit "data") (PList []) ≫= py_iter) atts;
  Ok (concat lists).

(** The timestamp of a record as the integer the dataclass declares.  A list
    or a dict is not hashable and makes the membership test raise.  A time
    stamp that is null, a Boolean, a float or a string is outside the model:
    the program goes on with it, and [NotAnInt] stands for that, not for an
    exception of the program.  What is proved of the posts returned is
    proved of documents whose time stamps are integers. *)
Definition as_int (v : pyval) : result Z :=
  match v with
  | PInt z => Ok z
  | PList _ | PDict _ => Err TypeError
  | _ => Err NotAnInt
  end.

Definition is_empty {A} (l : list A) : bool :=
  match l with [] => true | _ => false end.

(** What the program prints while loading. *)
Inductive event :=
| Processing (json_file : pystr)
| ErrorReading (json_file : pystr) (msg : pystr).

(** ** Text files *)

(** A Unicode scalar value: a code point that is no surrogate. *)
Definition is_scalar (c : N) : bool :=
  (c <? 55296)%N || ((57343 <? c)%N && (c <=? 1114111)%N).

(** [f.write(line)] on a file opened with [encoding='utf-8']: a code point
    that is no scalar value cannot be encoded, and nothing of the line is
    written then. *)
Definition file_write (line written : pystr) : pystr * result unit :=
  if forallb is_scalar line then (written ++ line, Ok tt)
  else (written, Err UnicodeEncodeError).

Section Pipeline.

(** [str.lower], [pathlib.Path(p).name] and
    [datetime.fromtimestamp(t).strftime("%Y-%m-%d %H:%M:%S")], which reads
    the local time zone and raises on a time stamp out of range. *)
Variable str_lower : pystr → pystr.
Variable path_name : pystr → pystr.
Variable local_date_string : Z → result pystr.

(** The dataclass constructor followed by [__post_init__]. *)
Definition new_FacebookPost (timestamp : Z) (post_text title : pyval)
    (photo_paths photo_filenames : list pystr) (tags : list pyval)
    (external_url : pyval) : result FacebookPost :=
  date_string ← (if timestamp =? 0 then Ok [] else local_date_string timestamp);
  Ok {| timestamp := timestamp; post_text := post_text; title := title;
        photo_paths := photo_paths; photo_filenames := photo_filenames;
        date_string := date_string; tags := tags;
        external_url := external_url |}.

(** Lines 48-52: the first entry of "data" with a truthy "post". *)
Fixpoint scan_post_text (entries : list pyval) : result pyval :=
  match entries with
  | [] => Ok (PStr [])
  | d :: entries' =>
      p ← py_get d (lit "post") PNone;
      if py_truthy p then (v ← py_getitem d (lit "post"); fix_encoding v)
      else scan_post_text entries'
  end.

Definition record_text (item : pyval) : result pyval :=
  entries ← py_get item (lit "data") (PList []) ≫= py_iter;
  scan_post_text entries.

(** Line 56. *)
Definition record_tags (item : pyval) : result (list pyval) :=
  ts ← py_get item (lit "tags") (PList []) ≫= py_iter;
  mapM (λ t, py_get t (lit "name") (PStr []) ≫= fix_encoding) ts.

(** Lines 63-67: the media half of the inner loop body. *)
Definition scan_media (att_data : pyval) (photo_paths : list pystr)
  : result (list pystr) :=
  m ← py_get att_data (lit "media") PNone;
  if py_truthy m then
    media ← py_getitem att_data (lit "media");
    uri ← py_get media (lit "uri") (PStr []);
    if py_truthy uri then
      match uri with
      | PStr u =>
          if negb (contains (lit "sticker") (str_lower u))
          then Ok (photo_paths ++ [u])
          else Ok photo_paths
      | _ => Err AttributeError
      end
    else Ok photo_paths
  else Ok photo_paths.

(** Lines 69-70: the external-link half. *)
Definition scan_external (att_data : pyval) (external_url : pyval)
  : result pyval :=
  ec ← py_get att_data (lit "external_context") PNone;
  if py_truthy ec then
    ctx ← py_getitem att_data (lit "external_context");
    py_get ctx (lit "url") (PStr [])
  else Ok external_url.

(** Lines 62-70: one [att_data] of one attachment. *)
Definition scan_att_data (att_data : pyval) (st : list pystr * pyval)
  : result (list pystr * pyval) :=
  photo_paths ← scan_media att_data (fst st);
  external_url ← scan_external att_data (snd st);
  Ok (photo_paths, external_url).

Definition scan_attachment (attachment : pyval) (st : list pystr * pyval)
  : result (list pystr * pyval) :=
  entries ← py_get attachment (lit "data") (PList []) ≫= py_iter;
  for_each scan_att_data entries st.

(** Lines 58-70, from an empty [photo_paths] and an empty [external_url]. *)
Definition record_attachments (item : pyval) : result (list pystr * pyval) :=
  atts ← py_get item (lit "attachments") (PList []) ≫= py_iter;
  for_each scan_attachment atts ([], PStr []).

(** Line 42. *)
Definition record_timestamp (item : pyval) : result Z :=
  py_get item (lit "timestamp") (PInt 0) ≫= as_int.

(** Lines 42-82: the body of the loop over the records, on the loop's
    variables [posts] and [seen_timestamps]. *)
Definition extract_item (item : pyval) (st : list FacebookPost * gset Z)
  : result (list FacebookPost * gset Z) :=
  let '(posts, seen_timestamps) := st in
  timestamp ← record_timestamp item;
  if bool_decide (timestamp ∈ seen_timestamps) then Ok (posts, seen_timestamps)
  else
    let seen_timestamps := {[timestamp]} ∪ seen_timestamps in
    post_text ← record_text item;
    title ← py_get item (lit "title") (PStr []) ≫= fix_encoding;
    tags ← record_tags item;
    att ← record_attachments item;
    let '(photo_paths, external_url) := att in
    if py_truthy post_text || negb (is_empty photo_paths) then
      post ← new_FacebookPost timestamp post_text title photo_paths
               (map path_name photo_paths) tags external_url;
      Ok (posts ++ [post], seen_timestamps)
    else Ok (posts, seen_timestamps).

Definition extract_posts_from_json (data : pyval) : result (list FacebookPost) :=
  items ← py_iter data;
  st ← for_each extract_item items ([], ∅);
  Ok (fst st).

(** ** [load_and_merge_posts] *)

(** [open(json_file)] followed by [json.load(f)]: the parsed document, or
    the exception either of them raises. *)
Variable json_load : pystr → result pyval.

(** The loop's variables [all_posts] and [seen_timestamps]. *)
Definition state : Type := list FacebookPost * gset Z.

(** Lines 115-117. *)
Definition accept (st : state) (post : FacebookPost) : state :=
  if bool_decide (timestamp post ∉ snd st)
  then (fst st ++ [post], {[timestamp post]} ∪ snd st)
  else st.

(** Lines 112-117, the body of [try]. *)
Definition load_body (json_file : pystr) (st : state) : result state :=
  data ← json_load json_file;
  posts ← extract_posts_from_json data;
  Ok (foldl accept st posts).

(** Lines 109-119.  The loop of lines 114-117 cannot raise, so an exception
    caught at line 118 was raised before [all_posts] and [seen_timestamps]
    changed: the handler resumes with the state the file was entered with. *)
Definition load_file (json_file : pystr) (st : state)
  : list event * result state :=
  match load_body json_file st with
  | Err (JSONDecodeError msg) =>
      ([Processing json_file; ErrorReading json_file msg], Ok st)
  | r => ([Processing json_file], r)
  end.

Fixpoint load_files (json_files : list pystr) (st : state)
  : list event * result state :=
  match json_files with
  | [] => ([], Ok st)
  | f :: rest =>
      match load_file f st with
      | (out, Ok st') =>
          let '(out', r) := load_files rest st' in (out ++ out', r)
      | (out, Err e) => (out, Err e)
      end
  end.

(** Lines 105-120: [all_posts] as it stands before line 121. *)
Definition accepted_posts (json_files : list pystr)
  : list event * result (list FacebookPost) :=
  let '(out, r) := load_files json_files ([], ∅) in (out, fst <$> r).

Definition load_and_merge_posts (json_files : list pystr)
  : list event * result (list FacebookPost) :=
  let '(out, r) := accepted_posts json_files in
  (out, sort_desc timestamp <$> r).

(** The Archive Loader as the specification words it: the posts of every
    file that parses, in the order of the files and of the records, each time
    stamp kept at its first occurrence, and no sorting. *)
Fixpoint first_occurrences (seen : gset Z) (posts : list FacebookPost)
  : list FacebookPost :=
  match posts with
  | [] => []
  | p :: posts' =>
      if bool_decide (timestamp p ∈ seen) then first_occurrences seen posts'
      else p :: first_occurrences ({[timestamp p]} ∪ seen) posts'
  end.

Definition file_posts (json_file : pystr) : result (list FacebookPost) :=
  match json_load json_file ≫= extract_posts_from_json with
  | Err (JSONDecodeError _) => Ok []
  | r => r
  end.

Definition encounter_order (json_files : list pystr)
  : result (list FacebookPost) :=
  batches ← mapM file_posts json_files;
  Ok (first_occurrences ∅ (concat batches)).

(** A file the handler of line 118 skips: the body of [try] raises
    [JSONDecodeError] on it. *)
Definition skipped (json_file : pystr) : bool :=
  match json_load json_file ≫= extract_posts_from_json with
  | Err (JSONDecodeError _) => true
  | _ => false
  end.

(** The collection as the specification words it: the posts extracted from
    the files that are not skipped, file by file, each time stamp kept at its
    first occurrence, sorted by descending time stamp. *)
Definition posts_of_parseable_files (json_files : list pystr)
  : result (list FacebookPost) :=
  batches ← mapM (λ f, json_load f ≫= extract_posts_from_json)
                 (List.filter (λ f, negb (skipped f)) json_files);
  Ok (sort_desc timestamp (first_occurrences ∅ (concat batches))).

(** ** [generate_html] *)

(** The file system as [generate_html] meets it, every call of which can
    raise: the two [mkdir] calls of lines 146-148;
    [(extract_dir / photo_path).exists()] and [(extract_dir / photo_path).name];
    [(photos_output_dir / name).exists()] as it answers before the run;
    [shutil.copy2(src, dest)] for a photo path;
    [open(output_path, 'w', encoding='utf-8')]; and the operating system
    taking the encoded text, when it is written or when the file is
    closed. *)
Variable make_output_dirs : result unit.
Variable src_exists : pystr → result bool.
Variable src_name : pystr → pystr.
Variable dest_exists : pystr → result bool.
Variable copy2 : pystr → result unit.
Variable open_index : result unit.
Variable save_index : result unit.

(** Lines 150-157, on [copied], the names of the files the run has copied
    to the photos directory so far: a file copied earlier in the run is
    there. *)
Definition copy_photo (photo_path : pystr) (copied : list pystr)
  : result (pystr * list pystr) :=
  found ← src_exists photo_path;
  if (found : bool) then
    let name := src_name photo_path in
    there ← (if bool_decide (name ∈ copied) then Ok true
             else dest_exists name);
    copied ← (if (there : bool) then Ok copied
              else (_ ← copy2 photo_path; Ok (copied ++ [name])));
    Ok (lit "photos/" ++ name, copied)
  else Ok ([], copied).

(** Lines 165-168. *)
Fixpoint photo_copies (paths : list pystr) (copied : list pystr)
  : result (list pystr * list pystr) :=
  match paths with
  | [] => Ok ([], copied)
  | p :: paths' =>
      r ← copy_photo p copied;
      let '(copied_path, copied) := r in
      r' ← photo_copies paths' copied;
      let '(rest, copied) := r' in
      if is_empty copied_path then Ok (rest, copied)
      else Ok ((tpl "<img src=`" ++ html_escape copied_path
                ++ tpl "` alt=`Photo` class=`post-photo`>") :: rest, copied)
  end.

(** Lines 162-170. *)
Definition photo_html (post : FacebookPost) (copied : list pystr)
  : result (pystr * list pystr) :=
  if is_empty (photo_paths post) then Ok ([], copied)
  else
    r ← photo_copies (photo_paths post) copied;
    let '(copies, copied) := r in
    if is_empty copies then Ok ([], copied)
    else Ok (tpl "<div class=`photos`>" ++ concat copies ++ tpl "</div>",
             copied).

Definition text_html (post : FacebookPost) : result pystr :=
  if py_truthy (post_text post)
  then e ← py_html_escape (post_text post);
       Ok (tpl "<p class=`post-text`>" ++ e ++ tpl "</p>")
  else Ok [].

Definition title_html (post : FacebookPost) : result pystr :=
  if py_truthy (title post)
  then e ← py_html_escape (title post);
       Ok (tpl "<p class=`title`>" ++ e ++ tpl "</p>")
  else Ok [].

Definition date_html (post : FacebookPost) : pystr :=
  if is_empty (date_string post) then []
  else tpl "<span class=`date`>" ++ html_escape (date_string post) ++ tpl "</span>".

Definition tags_html (post : FacebookPost) : result pystr :=
  if is_empty (tags post) then Ok []
  else j ← py_join (lit ", ") (tags post);
       Ok (tpl "<div class=`tags`>Označení: " ++ html_escape j ++ tpl "</div>").

Definition external_html (post : FacebookPost) : result pystr :=
  if py_truthy (external_url post)
  then e ← py_html_escape (external_url post);
       Ok (tpl "<a href=`" ++ e
           ++ tpl "` target=`_blank` rel=`noopener` class=`external-link`>Externý odkaz</a>")
  else Ok [].

(** Lines 162-195: the item of one post, and the names copied. *)
Definition html_item (post : FacebookPost) (copied : list pystr)
  : result (pystr * list pystr) :=
  r ← photo_html post copied;
  let '(photo, copied) := r in
  text ← text_html post;
  title ← title_html post;
  let date := date_html post in
  tags ← tags_html post;
  external ← external_html post;
  Ok (tpl "
        <div class=`post`>
            <div class=`post-header`>
                " ++ date ++ tpl "
            </div>
            " ++ title ++ tpl "
            " ++ text ++ tpl "
            " ++ photo ++ tpl "
            " ++ tags ++ tpl "
            " ++ external ++ tpl "
        </div>
        ", copied).

(** Lines 159-195: the loop over the posts. *)
Fixpoint html_items (posts : list FacebookPost) (copied : list pystr)
  : result (list pystr * list pystr) :=
  match posts with
  | [] => Ok ([], copied)
  | post :: posts' =>
      r ← html_item post copied;
      let '(item, copied) := r in
      r' ← html_items posts' copied;
      let '(rest, copied) := r' in
      Ok (item :: rest, copied)
  end.

(** A photo path whose source file is found. *)
Definition photo_found (photo_path : pystr) : bool :=
  match src_exists photo_path with
  | Ok true => true
  | _ => false
  end.

(** Two posts with the same parts present: the same fields empty, and as
    many photos found. *)
Definition same_shape (p p' : FacebookPost) : Prop :=
  is_empty (date_string p) = is_empty (date_string p')
  ∧ py_truthy (title p) = py_truthy (title p')
  ∧ py_truthy (post_text p) = py_truthy (post_text p')
  ∧ length (List.filter photo_found (photo_paths p))
    = length (List.filter photo_found (photo_paths p'))
  ∧ is_empty (tags p) = is_empty (tags p')
  ∧ py_truthy (external_url p) = py_truthy (external_url p').

(** Lines 145-296, when the function returns: the text it has written to
    [index.html] and the names of the files it has copied to the photos
    directory.  The two lines printed at the end are left out. *)
Definition generate_html (posts : list FacebookPost)
  : result (pystr * list pystr) :=
  _ ← make_output_dirs;
  r ← html_items posts [];
  let '(items, copied) := r in
  let html_content :=
    page_head ++ py_str_nat (length posts) ++ page_mid
    ++ concat items ++ page_tail in
  _ ← open_index;
  _ ← snd (file_write html_content []);
  _ ← save_index;
  Ok (html_content, copied).

End Pipeline.

Arguments extract_item : simpl never.
Arguments extract_posts_from_json : simpl never.

(** ** A concrete host, for running the program *)

(** [str.lower] on ASCII letters. *)
Definition ascii_lower (s : pystr) : pystr :=
  map (λ c, if (65 <=? c)%N && (c <=? 90)%N then (c + 32)%N else c) s.

Fixpoint split_on (sep : N) (s : pystr) : list pystr :=
  match s with
  | [] => [[]]
  | c :: s' =>
      if bool_decide (c = sep) then [] :: split_on sep s'
      else match split_on sep s' with
           | [] => [[c]]
           | w :: ws => (c :: w) :: ws
           end
  end.

(** [PurePosixPath(p).name]: the last component that is neither empty nor
    a single dot. *)
Definition posix_name (p : pystr) : pystr :=
  List.last
    (List.filter (λ w, negb (is_empty w) && negb (bool_decide (w = [46%N])))
                 (split_on 47 p))
    [].

Definition zero_pad (w : nat) (n : Z) : pystr :=
  let s := py_str_nat (Z.to_nat n) in
  replicate (w - length s) 48%N ++ s.

(** The date string of a host whose time zone is UTC, for the years with
    four digits. *)
Definition utc_date_string (t : Z) : result pystr :=
  let secs := t mod 86400 in
  let z := t / 86400 + 719468 in
  let era := z / 146097 in
  let doe := z - era * 146097 in
  let yoe := (doe - doe / 1460 + doe / 36524 - doe / 146096) / 365 in
  let doy := doe - (365 * yoe + yoe / 4 - yoe / 100) in
  let mp := (5 * doy + 2) / 153 in
  let d := doy - (153 * mp + 2) / 5 + 1 in
  let m := if mp <? 10 then mp + 3 else mp - 9 in
  let y := yoe + era * 400 + (if m <=? 2 then 1 else 0) in
  if (1000 <=? y) && (y <=? 9999) then
    Ok (zero_pad 4 y ++ lit "-" ++ zero_pad 2 m ++ lit "-" ++ zero_pad 2 d
        ++ lit " " ++ zero_pad 2 (secs / 3600) ++ lit ":"
        ++ zero_pad 2 (secs mod 3600 / 60) ++ lit ":" ++ zero_pad 2 (secs mod 60))
  else Err ValueError.

(** A record with a time stamp and a text, and one with a time stamp only. *)
Definition text_record (t : Z) (text : string) : pyval :=
  PDict [(lit "timestamp", PInt t);
         (lit "data", PList [PDict [(lit "post", PStr (lit text))]])].

Definition bare_record (t : Z) : pyval :=
  PDict [(lit "timestamp", PInt t); (lit "title", PStr (lit "x"))].

(** A record with a text and no time stamp. *)
Definition untimed_record (text : string) : pyval :=
  PDict [(lit "data", PList [PDict [(lit "post", PStr (lit text))]])].

(** An entry of an attachment with a link, and one whose external context
    has no "url". *)
Definition link_entry (url : string) : pyval :=
  PDict [(lit "external_context", PDict [(lit "url", PStr (lit url))])].

Definition context_entry : pyval :=
  PDict [(lit "external_context", PDict [(lit "name", PStr (lit "x"))])].

(** A record with two attachments: a link, then another link and a context
    without "url". *)
Definition links_record : pyval :=
  PDict [(lit "attachments",
          PList [PDict [(lit "data", PList [link_entry "http://a"])];
                 PDict [(lit "data",
                         PList [link_entry "http://b"; context_entry])]])].

(** The files of the scenario of the specification, a file that is not
    JSON, and files for the orderings under test. *)
Definition sample_files (json_file : pystr) : result pyval :=
  if bool_decide (json_file = lit "A.json") then
    Ok (PList [text_record 10 "hi"])
  else if bool_decide (json_file = lit "B.json") then
    Ok (PList [text_record 10 "dup"; text_record 20 "bye"])
  else if bool_decide (json_file = lit "bad.json") then
    Err (JSONDecodeError (lit "Expecting value: line 1 column 1 (char 0)"))
  else if bool_decide (json_file = lit "C.json") then
    Ok (PList [text_record 100 "a"; text_record 300 "b"; text_record 200 "c"])
  else if bool_decide (json_file = lit "D.json") then
    Ok (PList [bare_record 10; text_record 10 "hi"])
  else if bool_decide (json_file = lit "E.json") then
    Ok (PList [bare_record 10])
  else Err OSError.

(** A post whose text carries a script tag, a title with a quote, a photo
    that exists and one that does not. *)
Definition script_post : FacebookPost :=
  {| timestamp := 10;
     post_text := PStr (lit "see " ++ lit "<script>alert(1)</script>" ++ lit " & more");
     title := PStr (lit "it's <b>");
     photo_paths := [lit "posts/media/a<b>.jpg"; lit "posts/media/gone.jpg"];
     photo_filenames := [lit "a<b>.jpg"; lit "gone.jpg"];
     date_string := lit "1970-01-01 00:00:10";
     tags := [PStr (lit "<i>"); PStr (lit "b")];
     external_url := PStr (lit "http://x/?a=1&b=<script>") |}.

(** The same parts with harmless content. *)
Definition plain_post : FacebookPost :=
  {| timestamp := 20;
     post_text := PStr (lit "hello");
     title := PStr (lit "title");
     photo_paths := [lit "posts/media/a<b>.jpg"];
     photo_filenames := [lit "a<b>.jpg"];
     date_string := lit "1970-01-01 00:00:20";
     tags := [PStr (lit "a")];
     external_url := PStr (lit "http://x/") |}.

Definition sample_exists (photo_path : pystr) : result bool :=
  Ok (bool_decide (photo_path = lit "posts/media/a<b>.jpg")).

(** A host whose photos directory is empty before the run and where every
    call succeeds. *)
Definition run_item (post : FacebookPost) (copied : list pystr)
  : result (pystr * list pystr) :=
  html_item sample_exists posix_name (λ _, Ok false) (λ _, Ok tt) post copied.

Definition run_html (posts : list FacebookPost)
  : result (pystr * list pystr) :=
  generate_html (Ok tt) sample_exists posix_name (λ _, Ok false) (λ _, Ok tt)
    (Ok tt) (Ok tt) posts.

Definition run_load (json_files : list pystr) :=
  load_and_merge_posts ascii_lower posix_name utc_date_string sample_files json_files.


(** * Further definitions, for the properties beyond the claims *)

(** ** How mojibake arises: UTF-8 octets read back as latin-1 *)

Definition is_str (v : pyval) : bool :=
  match v with PStr _ => true | _ => false end.

(** [str.encode('utf-8')] on one scalar value. *)
Definition encode_utf8_char (c : N) : pybytes :=
  if (c <=? 127)%N then [c]
  else if (c <=? 2047)%N then [(192 + c / 64)%N; (128 + c mod 64)%N]
  else if (c <=? 65535)%N then
    [(224 + c / 4096)%N; (128 + (c / 64) mod 64)%N; (128 + c mod 64)%N]
  else
    [(240 + c / 262144)%N; (128 + (c / 4096) mod 64)%N;
     (128 + (c / 64) mod 64)%N; (128 + c mod 64)%N].

Definition encode_utf8 (s : pystr) : pybytes := flat_map encode_utf8_char s.

(** [s.encode('utf-8').decode('latin-1')]: latin-1 reads the octet [b] as
    the code point [b]. *)
Definition mojibake (s : pystr) : pystr := encode_utf8 s.

(** ** A photo path the scan of line 66 lets through *)

Definition good_path (str_lower : pystr → pystr) (u : pystr) : Prop :=
  u ≠ [] ∧ contains (lit "sticker") (str_lower u) = false.

(** ** A post with its photos taken away *)

Definition without_photos (p : FacebookPost) : FacebookPost :=
  {| timestamp := timestamp p; post_text := post_text p; title := title p;
     photo_paths := []; photo_filenames := [];
     date_string := date_string p; tags := tags p;
     external_url := external_url p |}.

(** A value [generate_html] can print: a string, or a falsy value, which it
    skips. *)
Definition str_or_falsy (v : pyval) : Prop :=
  is_str v = true ∨ py_truthy v = false.

(** A value that can be written to a UTF-8 file if it is a string: no code
    point of it is a surrogate. *)
Definition encodable (v : pyval) : bool :=
  match v with
  | PStr s => forallb is_scalar s
  | _ => true
  end.

(** A post all of whose strings can be written, the names of its photos
    included. *)
Definition encodable_post (src_name : pystr → pystr) (p : FacebookPost)
  : bool :=
  encodable (post_text p) && encodable (title p)
  && forallb is_scalar (date_string p) && forallb encodable (tags p)
  && encodable (external_url p)
  && forallb (λ path, forallb is_scalar (src_name path)) (photo_paths p).

(** ** [posts_to_csv] *)

(** [sep.join(l)] on a list of strings. *)
Fixpoint str_join (sep : pystr) (l : list pystr) : pystr :=
  match l with
  | [] => []
  | s :: l' =>
      match l' with
      | [] => s
      | _ => s ++ sep ++ str_join sep l'
      end
  end.

(** [str(z)] on an integer. *)
Definition py_str_int (z : Z) : pystr :=
  if z <? 0 then 45%N :: py_str_nat (Z.to_nat (- z))
  else py_str_nat (Z.to_nat z).

(** What [csv.writer] of the default dialect puts for one field: the field
    between double quotes, its own double quotes doubled, when it holds a
    comma, a double quote, a carriage return or a line feed; the field as it
    is otherwise. *)
Definition csv_special (c : N) : bool :=
  bool_decide (c = 44%N) || bool_decide (c = 34%N)
  || bool_decide (c = 13%N) || bool_decide (c = 10%N).

Definition csv_field (s : pystr) : pystr :=
  if existsb csv_special s
  then [34%N] ++ replace_char 34 [34%N; 34%N] s ++ [34%N]
  else s.

(** [writer.writerow(fields)]: the fields with commas between them and
    CR LF at the end; a row of one empty field is written as two double
    quotes. *)
Definition csv_writerow (fields : list pystr) : pystr :=
  match fields with
  | [[]] => [34%N; 34%N]
  | _ => str_join [44%N] (map csv_field fields)
  end ++ [13%N; 10%N].

Definition csv_header : list pystr :=
  [lit "timestamp"; lit "date"; lit "post_text"; lit "title";
   lit "photo_paths"; lit "photo_filenames"; lit "tags"; lit "external_url"].

Section Csv.

(** [str(v)] for a list or a dict, which [csv.writer] calls on a field that
    is neither a string nor [None]. *)
Variable py_repr : pyval → pystr.

(** The text [csv.writer] takes for a field. *)
Definition csv_text (v : pyval) : pystr :=
  match v with
  | PStr s => s
  | PNone => []
  | PInt z => py_str_int z
  | PBool b => if b then lit "True" else lit "False"
  | _ => py_repr v
  end.

(** Lines 131-140: the list handed to [writerow]; joining the tags raises
    when one of them is no string. *)
Definition csv_row (post : FacebookPost) : result (list pystr) :=
  joined_tags ← py_join (lit "|") (tags post);
  Ok [py_str_int (timestamp post); date_string post;
      csv_text (post_text post); csv_text (title post);
      str_join (lit "|") (photo_paths post);
      str_join (lit "|") (photo_filenames post);
      joined_tags; csv_text (external_url post)].

(** Lines 130-140, on the text written so far. *)
Fixpoint write_rows (posts : list FacebookPost) (written : pystr)
  : pystr * result unit :=
  match posts with
  | [] => (written, Ok tt)
  | post :: posts' =>
      match csv_row post with
      | Ok fields =>
          match file_write (csv_writerow fields) written with
          | (written', Ok _) => write_rows posts' written'
          | (written', Err e) => (written', Err e)
          end
      | Err e => (written, Err e)
      end
  end.

(** Lines 126-140, for a file that [open] could create: the text of the
    file when the function returns or raises, and which of the two it does.
    The message printed at the end is left out. *)
Definition posts_to_csv (posts : list FacebookPost) : pystr * result unit :=
  match file_write (csv_writerow csv_header) [] with
  | (written, Ok _) => write_rows posts written
  | (written, Err e) => (written, Err e)
  end.

End Csv.

(** Reading the format back, strictly: fields separated by commas, rows
    ended by CR LF, a quoted field running to its closing quote with a doubled
    quote standing for one. *)
Inductive csv_state := FieldStart | InPlain | InQuoted | QuoteInQuoted.

Fixpoint csv_parse (st : csv_state) (field : pystr) (row : list pystr)
    (s : pystr) : option (list (list pystr)) :=
  match s with
  | [] =>
      match st with
      | FieldStart => if is_empty row then Some [] else None
      | _ => None
      end
  | c :: s' =>
      match st with
      | FieldStart =>
          if bool_decide (c = 34%N) then csv_parse InQuoted [] row s'
          else if bool_decide (c = 44%N)
          then csv_parse FieldStart [] (row ++ [[]]) s'
          else if bool_decide (c = 13%N) then
            match s' with
            | 10%N :: s'' =>
                cons (if is_empty row then [] else row ++ [[]])
                  <$> csv_parse FieldStart [] [] s''
            | _ => None
            end
          else if bool_decide (c = 10%N) then None
          else csv_parse InPlain [c] row s'
      | InPlain =>
          if bool_decide (c = 44%N)
          then csv_parse FieldStart [] (row ++ [field]) s'
          else if bool_decide (c = 13%N) then
            match s' with
            | 10%N :: s'' =>
                cons (row ++ [field]) <$> csv_parse FieldStart [] [] s''
            | _ => None
            end
          else if bool_decide (c = 10%N) || bool_decide (c = 34%N) then None
          else csv_parse InPlain (field ++ [c]) row s'
      | InQuoted =>
          if bool_decide (c = 34%N) then csv_parse QuoteInQuoted field row s'
          else csv_parse InQuoted (field ++ [c]) row s'
      | QuoteInQuoted =>
          if bool_decide (c = 34%N)
          then csv_parse InQuoted (field ++ [34%N]) row s'
          else if bool_decide (c = 44%N)
          then csv_parse FieldStart [] (row ++ [field]) s'
          else if bool_decide (c = 13%N) then
            match s' with
            | 10%N :: s'' =>
                cons (row ++ [field]) <$> csv_parse FieldStart [] [] s''
            | _ => None
            end
          else None
      end
  end.

(** ** [extract_all_zips] *)

(** [a <= b] on strings: by code point, the shorter first on a tie. *)
Fixpoint str_leb (a b : pystr) : bool :=
  match a, b with
  | [], _ => true
  | _ :: _, [] => false
  | x :: a', y :: b' => (x <? y)%N || ((x =? y)%N && str_leb a' b')
  end.

(** [sorted(l)]: ascending and stable. *)
Fixpoint insert_by {A} (leb : A → A → bool) (x : A) (l : list A) : list A :=
  match l with
  | [] => [x]
  | y :: l' => if leb x y then x :: y :: l' else y :: insert_by leb x l'
  end.

Fixpoint sort_by {A} (leb : A → A → bool) (l : list A) : list A :=
  match l with
  | [] => []
  | x :: l' => insert_by leb x (sort_by leb l')
  end.

(** [s.endswith(suffix)] *)
Definition ends_with (suffix s : pystr) : bool :=
  starts_with (rev suffix) (rev s).

(** Line 95 and line 98. *)
Definition is_posts_json (name : pystr) : bool :=
  ends_with (lit ".json") name && contains (lit "posts") name
  && contains (lit "your_posts") name.

Definition is_media (name : pystr) : bool :=
  contains (lit "/posts/media/") name.

(** What [extract_all_zips] does on the way: the line it prints for an
    archive, and the members it extracts from it. *)
Inductive zip_event :=
| Extracting (zip_name : pystr)
| Extracted (zip_name member : pystr).

Section Zips.

(** [extract_dir.mkdir(parents=True, exist_ok=True)];
    [zipfile.ZipFile(zip_path).namelist()] for the archive of a given name;
    [zf.extract(name, extract_dir)]; and the path [extract_dir / name]. *)
Variable make_extract_dir : result unit.
Variable zip_namelist : pystr → result (list pystr).
Variable zip_extract : pystr → pystr → result unit.
Variable extracted_path : pystr → pystr.

(** Lines 95-99, on [json_files] and on what was printed and extracted so
    far. *)
Definition extract_member (zip_name name : pystr)
    (st : list pystr * list zip_event) : result (list pystr * list zip_event) :=
  let '(json_files, log) := st in
  if is_posts_json name then
    _ ← zip_extract zip_name name;
    Ok (json_files ++ [extracted_path name], log ++ [Extracted zip_name name])
  else if is_media name then
    _ ← zip_extract zip_name name;
    Ok (json_files, log ++ [Extracted zip_name name])
  else Ok (json_files, log).

(** Lines 92-99. *)
Definition extract_zip (zip_name : pystr) (st : list pystr * list zip_event)
  : result (list pystr * list zip_event) :=
  let '(json_files, log) := st in
  let log := log ++ [Extracting zip_name] in
  names ← zip_namelist zip_name;
  for_each (extract_member zip_name) names (json_files, log).

(** Lines 88-101, on the names of the archives that [glob] yields, in the
    order it yields them: paths of one directory compare as their names do.
    When the function returns: the list it returns, and what it has printed
    and extracted. *)
Definition extract_all_zips (zip_names : list pystr)
  : result (list pystr * list zip_event) :=
  _ ← make_extract_dir;
  for_each extract_zip (sort_by str_leb zip_names) ([], []).

End Zips.

(** What one archive adds to the log. *)
Definition archive_log (zip_name : pystr) (names : list pystr)
  : list zip_event :=
  Extracting zip_name
  :: map (Extracted zip_name)
       (List.filter (λ name, is_posts_json name || is_media name) names).

(** ** More sample data *)

(** A record with a photo, a sticker, a tag and a link. *)
Definition photo_record : pyval :=
  PDict [(lit "timestamp", PInt 1700000000);
         (lit "title", PStr (lit "Ann added a photo"));
         (lit "data", PList [PDict [(lit "post", PStr (lit "trip"))]]);
         (lit "tags", PList [PDict [(lit "name", PStr (lit "Ann"))]]);
         (lit "attachments",
          PList [PDict [(lit "data",
            PList [PDict [(lit "media",
                           PDict [(lit "uri", PStr (lit "photos_and_videos/pic.jpg"))])];
                   PDict [(lit "media",
                           PDict [(lit "uri", PStr (lit "stickers/Sticker_1.png"))])];
                   link_entry "http://a"])]])].

Definition sample_document : pyval :=
  PList [text_record 20 "a"; bare_record 5; photo_record;
         text_record 10 "b"; text_record 20 "c"].

(** A post with a tag that is [None], as a tag entry with a null name
    gives. *)
Definition null_tag_post : FacebookPost :=
  {| timestamp := 30; post_text := PStr (lit "x"); title := PStr [];
     photo_paths := []; photo_filenames := []; date_string := [];
     tags := [PNone]; external_url := PStr [] |}.

(** [str] of a container, for samples that hold none. *)
Definition sample_repr (v : pyval) : pystr := lit "[]".

(** Two archives of an export. *)
Definition sample_namelist (zip_name : pystr) : result (list pystr) :=
  if bool_decide (zip_name = lit "facebook-1.zip") then
    Ok [lit "your_facebook_activity/posts/your_posts__check_ins__photos_and_videos_1.json";
        lit "your_facebook_activity/posts/media/your_posts/pic.jpg";
        lit "your_facebook_activity/posts/your_uncategorized_photos.json"]
  else if bool_decide (zip_name = lit "facebook-2.zip") then
    Ok [lit "your_facebook_activity/posts/your_posts__check_ins__photos_and_videos_2.json";
        lit "your_facebook_activity/comments/your_posts_comments.txt"]
  else Err OSError.

Definition run_zips (zip_names : list pystr)
  : result (list pystr * list zip_event) :=
  extract_all_zips (Ok tt) sample_namelist (λ _ _, Ok tt)
    (λ name, lit "extracted_data/" ++ name) zip_names.

(** A post whose text holds quotes, a comma and a line break. *)
Definition comma_post : FacebookPost :=
  {| timestamp := 40;
     post_text := PStr (tpl "say `hi`, then
bye");
     title := PNone; photo_paths := [lit "a.jpg"; lit "b.jpg"];
     photo_filenames := [lit "a.jpg"; lit "b.jpg"];
     date_string := lit "1970-01-01 00:00:40";
     tags := [PStr (lit "x"); PStr (lit "y")];
     external_url := PStr [] |}.

(** * Properties *)

(** ** The error monad *)

Lemma bind_Ok {A B} (f : A → result B) (a : A) : (Ok a ≫= f) = f a.
Proof. reflexivity. Qed.

Lemma bind_Err {A B} (f : A → result B) (e : exn) : (Err e ≫= f) = Err e.
Proof. reflexivity. Qed.

Lemma bind_Ok_inv {A B} (f : A → result B) (m : result A) (b : B) :
  (m ≫= f) = Ok b → ∃ a, m = Ok a ∧ f a = Ok b.
Proof. destruct m as [a|e]; [eauto | discriminate]. Qed.

Lemma bind_assoc {A B C} (m : result A) (f : A → result B) (g : B → result C) :
  ((m ≫= f) ≫= g) = (m ≫= λ a, f a ≫= g).
Proof. by destruct m. Qed.

Tactic Notation "inv_bind" hyp(H) "as" ident(a) ident(Ha) :=
  apply bind_Ok_inv in H; destruct H as (a & Ha & H).

Lemma mapM_result_cons {A B} (f : A → result B) x l :
  mapM f (x :: l) = (y ← f x; k ← mapM f l; Ok (y :: k)).
Proof. reflexivity. Qed.

Lemma for_each_app {A S} (body : A → S → result S) (l1 l2 : list A) (s : S) :
  for_each body (l1 ++ l2) s = (for_each body l1 s ≫= for_each body l2).
Proof.
  revert s; induction l1 as [|x l1 IH]; intros s; [done|].
  simpl. destruct (body x s) as [s'|e]; simpl; [apply IH | done].
Qed.

(** ** [fix_encoding] *)

Lemma encode_latin1_raises (s : pystr) (e : exn) :
  encode_latin1 s = Err e → e = UnicodeEncodeError.
Proof.
  induction s as [|c s IH]; simpl; [discriminate|].
  destruct (c <=? 255)%N; [|congruence].
  destruct (encode_latin1 s); simpl; [discriminate|].
  intros [= <-]. by apply IH.
Qed.

Lemma decode_utf8_raises_bounded (n : nat) (b : pybytes) (e : exn) :
  (length b ≤ n)%nat → decode_utf8 b = Err e → e = UnicodeDecodeError.
Proof.
  revert b; induction n as [|n IH]; intros b Hn.
  { destruct b; simpl in *; [discriminate | lia]. }
  destruct b as [|b1 r1]; [discriminate|].
  simpl in Hn. cbn [decode_utf8].
  repeat match goal with
  | |- (if ?c then _ else _) = _ → _ => destruct c
  | |- match ?l with [] => _ | _ :: _ => _ end = _ → _ =>
      destruct l; simpl in Hn
  | |- Err _ = Err _ → _ => by intros [= <-]
  | |- (decode_utf8 ?r ≫= _) = _ → _ =>
      let H := fresh in
      assert (H : (length r ≤ n)%nat) by lia;
      pose proof (IH r H); destruct (decode_utf8 r); simpl;
      [discriminate | intros [= <-]; auto]
  end.
Qed.

Lemma decode_utf8_raises (b : pybytes) (e : exn) :
  decode_utf8 b = Err e → e = UnicodeDecodeError.
Proof. by apply (decode_utf8_raises_bounded (length b)). Qed.

Lemma repair_raises (s : pystr) (e : exn) :
  repair (PStr s) = Err e → e = UnicodeEncodeError ∨ e = UnicodeDecodeError.
Proof.
  unfold repair; simpl. destruct (encode_latin1 s) as [b|e'] eqn:He; simpl.
  - intros H; right; by apply decode_utf8_raises in H.
  - intros [= <-]; left; by apply encode_latin1_raises in He.
Qed.

(** C8: on a string [fix_encoding] always returns a string and never raises;
    the empty string is returned as it is; and when the repair transform
    (encode as latin-1, decode as UTF-8) raises, the input comes back
    unchanged. *)
Theorem fix_encoding_total :
  (∀ s : pystr, ∃ r : pystr, fix_encoding (PStr s) = Ok (PStr r)) ∧
  fix_encoding (PStr []) = Ok (PStr []) ∧
  (∀ (s : pystr) (e : exn),
     repair (PStr s) = Err e → fix_encoding (PStr s) = Ok (PStr s)).
Proof.
  split; [|split].
  - intros s. unfold fix_encoding.
    destruct (negb (py_truthy (PStr s))); [by eexists|].
    destruct (repair (PStr s)) as [r|e] eqn:Hr; [by eexists|].
    destruct (repair_raises _ _ Hr) as [-> | ->]; by eexists.
  - reflexivity.
  - intros s e Hr. unfold fix_encoding.
    destruct (negb (py_truthy (PStr s))); [done|].
    rewrite Hr. by destruct (repair_raises _ _ Hr) as [-> | ->].
Qed.

(** The euro sign has no latin-1 octet: the transform raises and the text
    is kept. *)
Lemma fix_encoding_total_witness :
  repair (PStr [8364%N]) = Err UnicodeEncodeError ∧
  fix_encoding (PStr [8364%N]) = Ok (PStr [8364%N]).
Proof.
  split; [reflexivity|].
  destruct fix_encoding_total as (_ & _ & H).
  apply (H [8364%N] UnicodeEncodeError). reflexivity.
Defined.

Example fix_encoding_mojibake :
  fix_encoding (PStr (lit "Ã©")) = Ok (PStr [233%N]).
Proof. vm_compute. reflexivity. Qed.

Example fix_encoding_truncated :
  fix_encoding (PStr [195%N]) = Ok (PStr [195%N]).
Proof. vm_compute. reflexivity. Qed.

Example utc_date_string_sample :
  utc_date_string 1700000000 = Ok (lit "2023-11-14 22:13:20").
Proof. vm_compute. reflexivity. Qed.

(** ** [extract_posts_from_json] *)

Section ExtractionFacts.

Variable str_lower : pystr → pystr.
Variable path_name : pystr → pystr.
Variable local_date_string : Z → result pystr.

Lemma new_FacebookPost_fields t text ti ph fn tg url post :
  new_FacebookPost local_date_string t text ti ph fn tg url = Ok post →
  timestamp post = t ∧ post_text post = text ∧ photo_paths post = ph
  ∧ title post = ti ∧ tags post = tg ∧ external_url post = url.
Proof.
  unfold new_FacebookPost. intros H. inv_bind H as d Hd. by injection H as <-.
Qed.

(** What one turn of the loop over the records does to [posts] and
    [seen_timestamps]. *)
Lemma extract_item_Ok item posts seen posts' seen' :
  extract_item str_lower path_name local_date_string item (posts, seen)
    = Ok (posts', seen') →
  ∃ t, record_timestamp item = Ok t ∧
    ((t ∈ seen ∧ posts' = posts ∧ seen' = seen) ∨
     ((t ∉ seen) ∧ seen' = {[t]} ∪ seen ∧
      (posts' = posts ∨
       ∃ post, posts' = posts ++ [post] ∧ timestamp post = t ∧ retained post))).
Proof.
  unfold extract_item. intros H. inv_bind H as t Ht. exists t. split; [done|].
  case_bool_decide as Hin.
  { left. by injection H as <- <-. }
  right. split; [done|].
  inv_bind H as text Htext. inv_bind H as ti Hti. inv_bind H as tg Htg.
  inv_bind H as att Hatt. destruct att as [ph url].
  destruct (py_truthy text || negb (is_empty ph)) eqn:Hkeep.
  - inv_bind H as post Hpost. injection H as <- <-. split; [done|]. right.
    exists post. apply new_FacebookPost_fields in Hpost as (Hts & Htx & Hph & _).
    split; [done|]. split; [done|]. unfold retained. rewrite Htx, Hph.
    apply orb_true_iff in Hkeep as [?|Hne]; [by left|right].
    by destruct ph.
  - injection H as <- <-. split; [done|]. by left.
Qed.

Lemma for_each_extract_inv items : ∀ posts seen posts' seen',
  for_each (extract_item str_lower path_name local_date_string) items
    (posts, seen) = Ok (posts', seen') →
  seen ⊆ seen' ∧
  ∃ new, posts' = posts ++ new ∧ NoDup (map timestamp new)
    ∧ Forall (λ p, (timestamp p ∉ seen) ∧ timestamp p ∈ seen' ∧ retained p) new.
Proof.
  induction items as [|item items IH]; intros posts seen posts' seen' H.
  { injection H as <- <-. split; [done|]. exists []. rewrite app_nil_r.
    repeat split; constructor. }
  simpl in H. inv_bind H as st1 Hst1. destruct st1 as [posts1 seen1].
  apply extract_item_Ok in Hst1 as (t & _ & Hcase).
  apply IH in H as (Hsub & new & -> & Hnd & Hall).
  destruct Hcase as [(_ & -> & ->) | (Hnin & -> & [-> | (post & -> & Ht & Hret)])].
  - split; [done|]. by exists new.
  - split; [set_solver|]. exists new. repeat split; [done|].
    eapply Forall_impl; [exact Hall|]. simpl. intros p (? & ? & ?).
    repeat split; [set_solver | done | done].
  - split; [set_solver|]. exists (post :: new).
    rewrite <- app_assoc. split; [done|]. split.
    + simpl. constructor; [|done]. rewrite Ht. intros Hin.
      apply list_elem_of_fmap in Hin as (p & -> & Hp).
      rewrite Forall_forall in Hall. apply Hall in Hp. set_solver.
    + constructor.
      * rewrite Ht. repeat split; [done | set_solver | done].
      * eapply Forall_impl; [exact Hall|]. simpl. intros p (? & ? & ?).
        repeat split; [set_solver | done | done].
Qed.

Lemma extract_posts_from_json_inv data posts :
  extract_posts_from_json str_lower path_name local_date_string data = Ok posts →
  NoDup (map timestamp posts) ∧ Forall retained posts.
Proof.
  unfold extract_posts_from_json. intros H.
  inv_bind H as items Hitems. inv_bind H as st Hst.
  injection H as <-. destruct st as [posts' seen'].
  apply for_each_extract_inv in Hst as (_ & new & Heq & Hnd & Hall).
  simpl in *. subst posts'. split; [done|].
  eapply Forall_impl; [exact Hall|]. by intros p (_ & _ & ?).
Qed.

(** C2: a record whose extracted text is empty and whose extracted photo
    list is empty adds no Post, whatever its time stamp, title, tags and
    external link are; and every Post that [extract_posts_from_json] returns
    has a text or a photo. *)
Theorem empty_record_yields_no_post :
  (∀ item posts seen text url,
     record_text item = Ok text → py_truthy text = false →
     record_attachments str_lower item = Ok ([], url) →
     match extract_item str_lower path_name local_date_string item
             (posts, seen) with
     | Ok (posts', _) => posts' = posts
     | Err _ => True
     end) ∧
  (∀ data posts,
     extract_posts_from_json str_lower path_name local_date_string data
       = Ok posts →
     ∀ p, p ∈ posts → retained p).
Proof.
  split.
  - intros item posts seen text url Htext Hempty Hatt.
    unfold extract_item.
    destruct (record_timestamp item) as [t|e]; simpl; [|done].
    case_bool_decide; [done|].
    rewrite Htext; simpl.
    destruct (py_get item (lit "title") (PStr []) ≫= fix_encoding); simpl; [|done].
    destruct (record_tags item); simpl; [|done].
    rewrite Hatt; simpl. by rewrite Hempty.
  - intros data posts H p Hp.
    apply extract_posts_from_json_inv in H as [_ Hall].
    rewrite Forall_forall in Hall. by apply Hall.
Qed.

Lemma py_getitem_get o k v d : py_getitem o k = Ok v → py_get o k d = Ok v.
Proof.
  destruct o; simpl; try discriminate. by destruct (assoc k kv).
Qed.

Lemma scan_att_data_external att_data photos url photos' url' :
  scan_att_data str_lower att_data (photos, url) = Ok (photos', url') →
  ∃ ec, py_get att_data (lit "external_context") PNone = Ok ec ∧
    if py_truthy ec then py_get ec (lit "url") (PStr []) = Ok url'
    else url' = url.
Proof.
  unfold scan_att_data, scan_external. simpl. intros H.
  inv_bind H as ph Hph. inv_bind H as u Hu. injection H as <- <-.
  inv_bind Hu as ec Hec. exists ec. split; [done|].
  destruct (py_truthy ec) eqn:Htruthy.
  - inv_bind Hu as ctx Hctx.
    apply (py_getitem_get _ _ _ PNone) in Hctx.
    rewrite Hec in Hctx. by injection Hctx as ->.
  - by injection Hu as <-.
Qed.

(** Entries without a context leave the link as the scan found it. *)
Lemma scan_entries_without_context entries : ∀ st st',
  for_each (scan_att_data str_lower) entries st = Ok st' →
  Forall (λ e, has_context e = false) entries →
  snd st' = snd st.
Proof.
  induction entries as [|e entries IH]; intros st st' H Hall.
  { by injection H as <-. }
  simpl in H. inv_bind H as st1 Hst1.
  apply Forall_cons in Hall as [He Hall].
  rewrite (IH _ _ H Hall).
  destruct st as [ph u], st1 as [ph1 u1].
  apply scan_att_data_external in Hst1 as (ec & Hec & Hurl).
  unfold has_context in He. rewrite Hec in He. by rewrite He in Hurl.
Qed.

(** The last entry with a context decides the link. *)
Lemma scan_entries_last_context before e after ec st st' :
  for_each (scan_att_data str_lower) (before ++ e :: after) st = Ok st' →
  py_get e (lit "external_context") PNone = Ok ec →
  py_truthy ec = true →
  Forall (λ e', has_context e' = false) after →
  py_get ec (lit "url") (PStr []) = Ok (snd st').
Proof.
  intros H Hec Htruthy Hafter.
  rewrite for_each_app in H. inv_bind H as st0 Hst0.
  simpl in H. inv_bind H as st1 Hst1.
  rewrite (scan_entries_without_context _ _ _ H Hafter).
  destruct st0 as [ph0 u0], st1 as [ph1 u1].
  apply scan_att_data_external in Hst1 as (ec' & Hec' & Hurl).
  rewrite Hec in Hec'. injection Hec' as <-. by rewrite Htruthy in Hurl.
Qed.

(** The two nested loops are one loop over the entries of all
    attachments. *)
Lemma scan_attachments_entries atts : ∀ st st',
  for_each (scan_attachment str_lower) atts st = Ok st' →
  ∃ lists,
    mapM (λ a, py_get a (lit "data") (PList []) ≫= py_iter) atts = Ok lists
    ∧ for_each (scan_att_data str_lower) (concat lists) st = Ok st'.
Proof.
  induction atts as [|a atts IH]; intros st st' H.
  { exists []. by split. }
  simpl in H. inv_bind H as st1 Hst1. unfold scan_attachment in Hst1.
  inv_bind Hst1 as entries Hentries.
  destruct (IH _ _ H) as (lists & Hlists & Hscan).
  exists (entries :: lists). split.
  - rewrite mapM_result_cons. cbv beta. by rewrite Hentries, Hlists.
  - simpl. rewrite for_each_app, Hst1. exact Hscan.
Qed.

(** C7, as the code has it: over the entries of all the attachments of a
    record, in scan order, the external link the scan ends with is decided by
    the last entry whose "external_context" is truthy: it is that context's
    "url" when it has one and the empty string when it has none, whatever
    earlier entries wrote; when no entry has a truthy context the link is
    the empty string the scan starts with.  Entry by entry: an entry rewrites
    the link exactly when its context is truthy, and leaves it as it was
    otherwise. *)
Theorem external_url_follows_external_context item photos url :
  record_attachments str_lower item = Ok (photos, url) →
  ∃ entries,
    attachment_entries item = Ok entries
    ∧ (Forall (λ e, has_context e = false) entries → url = PStr [])
    ∧ (∀ before e after ec,
         entries = before ++ e :: after →
         py_get e (lit "external_context") PNone = Ok ec →
         py_truthy ec = true →
         Forall (λ e', has_context e' = false) after →
         py_get ec (lit "url") (PStr []) = Ok url)
    ∧ (∀ att_data photos0 url0 photos1 url1,
         scan_att_data str_lower att_data (photos0, url0)
           = Ok (photos1, url1) →
         ∃ ec, py_get att_data (lit "external_context") PNone = Ok ec ∧
           if py_truthy ec then py_get ec (lit "url") (PStr []) = Ok url1
           else url1 = url0).
Proof.
  unfold record_attachments, attachment_entries. intros H.
  inv_bind H as atts Hatts. rewrite Hatts. simpl.
  apply scan_attachments_entries in H as (lists & -> & Hscan). simpl.
  exists (concat lists). split; [done|]. split; [|split].
  - intros Hnone.
    exact (scan_entries_without_context _ _ _ Hscan Hnone).
  - intros before e after ec Heq Hec Htruthy Hafter. rewrite Heq in Hscan.
    exact (scan_entries_last_context _ _ _ _ _ _ Hscan Hec Htruthy Hafter).
  - intros att_data photos0 url0 photos1 url1.
    apply scan_att_data_external.
Qed.

Lemma record_timestamp_absent kv :
  assoc (lit "timestamp") kv = None → record_timestamp (PDict kv) = Ok 0.
Proof. unfold record_timestamp. simpl. by intros ->. Qed.

Lemma extract_item_seen item posts seen t :
  record_timestamp item = Ok t → t ∈ seen →
  extract_item str_lower path_name local_date_string item (posts, seen)
    = Ok (posts, seen).
Proof.
  intros Ht Hin. unfold extract_item. rewrite Ht. simpl.
  by rewrite bool_decide_eq_true_2.
Qed.

Lemma extract_item_marks item posts seen posts' seen' t :
  record_timestamp item = Ok t →
  extract_item str_lower path_name local_date_string item (posts, seen)
    = Ok (posts', seen') →
  t ∈ seen'.
Proof.
  intros Ht H. apply extract_item_Ok in H as (t' & Ht' & Hcase).
  rewrite Ht in Ht'. injection Ht' as <-.
  destruct Hcase as [(? & _ & ->) | (_ & -> & _)]; set_solver.
Qed.

Lemma NoDup_fmap_filter_le_1 {A} (f : A → Z) (k : Z) (l : list A) :
  NoDup (map f l) → (length (filter (λ x, f x = k) l) ≤ 1)%nat.
Proof.
  induction l as [|x l IH]; simpl; [lia|].
  intros Hnd. apply NoDup_cons in Hnd as [Hx Hnd].
  rewrite filter_cons. case_decide as Hk; [|by apply IH].
  simpl. destruct (filter (λ x, f x = k) l) as [|y l'] eqn:Hf; [simpl; lia|].
  exfalso. apply Hx.
  assert (Hy : y ∈ filter (λ x, f x = k) l) by (rewrite Hf; left).
  apply list_elem_of_filter in Hy as [Hy1 Hy2].
  apply list_elem_of_fmap. exists y. split; [congruence | done].
Qed.

(** C10: a record without a "timestamp" gets the key 0; a batch yields at
    most one Post with time stamp 0; and once a record without a time stamp
    has been met, a later one changes nothing in the result, valid or not. *)
Theorem records_without_timestamp_share_key_zero :
  (∀ kv, assoc (lit "timestamp") kv = None →
     record_timestamp (PDict kv) = Ok 0) ∧
  (∀ data posts,
     extract_posts_from_json str_lower path_name local_date_string data
       = Ok posts →
     (length (filter (λ p, timestamp p = 0%Z) posts) ≤ 1)%nat) ∧
  (∀ pre kv1 mid kv2 suf,
     assoc (lit "timestamp") kv1 = None →
     assoc (lit "timestamp") kv2 = None →
     extract_posts_from_json str_lower path_name local_date_string
       (PList (pre ++ PDict kv1 :: mid ++ PDict kv2 :: suf))
     = extract_posts_from_json str_lower path_name local_date_string
         (PList (pre ++ PDict kv1 :: mid ++ suf))).
Proof.
  split; [exact record_timestamp_absent|]. split.
  - intros data posts H. apply extract_posts_from_json_inv in H as [Hnd _].
    by apply NoDup_fmap_filter_le_1.
  - intros pre kv1 mid kv2 suf H1 H2.
    apply record_timestamp_absent in H1, H2.
    unfold extract_posts_from_json. simpl. f_equal.
    rewrite !for_each_app.
    destruct (for_each _ pre _) as [[posts0 seen0]|]; simpl; [|done].
    destruct (extract_item str_lower path_name local_date_string (PDict kv1)
                (posts0, seen0)) as [[posts1 seen1]|] eqn:E1; simpl; [|done].
    apply (extract_item_marks _ _ _ _ _ _ H1) in E1.
    rewrite !for_each_app.
    destruct (for_each _ mid (posts1, seen1)) as [[posts2 seen2]|] eqn:E2;
      simpl; [|done].
    apply for_each_extract_inv in E2 as [Hsub _].
    rewrite (extract_item_seen _ _ _ 0); [done | done | set_solver].
Qed.

(** Line 46 runs before the filter of line 72: once a record has been met,
    retained or not, a later record with its time stamp is skipped. *)
Lemma later_twin_is_skipped item item' t posts seen posts1 seen1 :
  record_timestamp item = Ok t →
  record_timestamp item' = Ok t →
  extract_item str_lower path_name local_date_string item (posts, seen)
    = Ok (posts1, seen1) →
  extract_item str_lower path_name local_date_string item' (posts1, seen1)
    = Ok (posts1, seen1).
Proof.
  intros Ht Ht' H. apply (extract_item_seen _ _ _ t); [done|].
  by apply (extract_item_marks item posts seen posts1 seen1).
Qed.

End ExtractionFacts.

(** A record with a time stamp and a title only: nothing is produced. *)
Lemma empty_record_yields_no_post_witness :
  match extract_item ascii_lower posix_name utc_date_string (bare_record 10)
          ([], ∅) with
  | Ok (posts', _) => posts' = []
  | Err _ => True
  end.
Proof.
  apply (proj1 (empty_record_yields_no_post ascii_lower posix_name
                  utc_date_string)
           (bare_record 10) [] ∅ (PStr []) (PStr []));
    vm_compute; reflexivity.
Defined.

(** The second record has a text of its own and is dropped all the same. *)
Lemma records_without_timestamp_share_key_zero_witness :
  extract_posts_from_json ascii_lower posix_name utc_date_string
    (PList ([] ++ untimed_record "first" :: [] ++ untimed_record "second" :: []))
  = extract_posts_from_json ascii_lower posix_name utc_date_string
      (PList ([] ++ untimed_record "first" :: [] ++ [])).
Proof.
  apply (proj2 (proj2 (records_without_timestamp_share_key_zero ascii_lower
                         posix_name utc_date_string)));
    vm_compute; reflexivity.
Defined.

Example two_untimed_records_one_post :
  (map (λ p, (timestamp p, post_text p, date_string p))) <$>
    extract_posts_from_json ascii_lower posix_name utc_date_string
      (PList [untimed_record "first"; untimed_record "second"])
  = Ok [(0, PStr (lit "first"), [])].
Proof. vm_compute. reflexivity. Qed.

(** Two links and then a context without "url", in two attachments: the
    link the scan ends with is the one the last context gives, the empty
    string. *)
Lemma external_url_follows_external_context_witness :
  record_attachments ascii_lower links_record
  = Ok ([], PStr []).
Proof.
  destruct (record_attachments ascii_lower links_record)
    as [[photos url]|e] eqn:E; [|vm_compute in E; discriminate].
  destruct (external_url_follows_external_context ascii_lower links_record
              photos url E) as (entries & Hentries & _ & Hlast & _).
  vm_compute in Hentries. injection Hentries as <-.
  specialize (Hlast [link_entry "http://a"; link_entry "http://b"]
                context_entry [] (PDict [(lit "name", PStr (lit "x"))])).
  assert (Hurl : Ok (PStr []) = Ok url).
  { apply Hlast; [vm_compute; reflexivity .. | constructor]. }
  injection Hurl as <-.
  vm_compute in E. injection E as <-. reflexivity.
Defined.

Example last_link_wins :
  record_attachments ascii_lower
    (PDict [(lit "attachments",
             PList [PDict [(lit "data", PList [link_entry "http://a"])];
                    PDict [(lit "data",
                            PList [link_entry "http://b";
                                   PDict [(lit "media", PNone)]])]])])
  = Ok ([], PStr (lit "http://b")).
Proof. vm_compute. reflexivity. Qed.

(** C7 as stated fails: the entry has no "url" and still changes
    [external_url]. *)
Lemma external_url_unchanged_counterexample :
  ¬ (∀ att_data st st',
       scan_att_data ascii_lower att_data st = Ok st' →
       has_external_url att_data = false → snd st' = snd st).
Proof.
  intros H.
  specialize (H context_entry ([], PStr (lit "http://a")) ([], PStr [])).
  discriminate H; vm_compute; reflexivity.
Qed.

Example external_url_reset_in_record :
  record_attachments ascii_lower
    (PDict [(lit "attachments",
             PList [PDict [(lit "data",
                            PList [link_entry "http://a"; context_entry])]])])
  = Ok ([], PStr []).
Proof. vm_compute. reflexivity. Qed.

(** ** Sorting *)

Section SortFacts.

Context {A : Type} (key : A → Z).

Lemma insert_desc_perm x l : insert_desc key x l ≡ₚ x :: l.
Proof.
  induction l as [|y l IH]; simpl; [done|].
  destruct (key y <=? key x); [done|].
  rewrite IH. apply perm_swap.
Qed.

Lemma sort_desc_perm l : sort_desc key l ≡ₚ l.
Proof.
  induction l as [|x l IH]; simpl; [done|].
  by rewrite insert_desc_perm, IH.
Qed.

Lemma insert_desc_sorted x l :
  StronglySorted (λ a b, key b ≤ key a) l →
  StronglySorted (λ a b, key b ≤ key a) (insert_desc key x l).
Proof.
  induction 1 as [|y l Hs IH Hy]; simpl.
  { repeat constructor. }
  destruct (Z.leb_spec (key y) (key x)) as [Hle|Hlt].
  - constructor; [by constructor|].
    constructor; [done|].
    eapply Forall_impl; [exact Hy|]. simpl. intros; lia.
  - constructor; [done|].
    rewrite insert_desc_perm. constructor; [lia | done].
Qed.

Lemma sort_desc_sorted l :
  StronglySorted (λ a b, key b ≤ key a) (sort_desc key l).
Proof.
  induction l; simpl; [constructor | by apply insert_desc_sorted].
Qed.

Lemma insert_desc_stable k x l :
  filter (λ a, key a = k) (insert_desc key x l)
  = filter (λ a, key a = k) (x :: l).
Proof.
  induction l as [|y l IH]; simpl; [done|].
  destruct (Z.leb_spec (key y) (key x)) as [Hle|Hlt]; [done|].
  rewrite (filter_cons _ y), IH, !filter_cons.
  repeat case_decide; try done; lia.
Qed.

Lemma sort_desc_stable k l :
  filter (λ a, key a = k) (sort_desc key l) = filter (λ a, key a = k) l.
Proof.
  induction l as [|x l IH]; simpl; [done|].
  by rewrite insert_desc_stable, !filter_cons, IH.
Qed.

End SortFacts.

(** ** [load_and_merge_posts] *)

Section LoaderFacts.

Variable str_lower : pystr → pystr.
Variable path_name : pystr → pystr.
Variable local_date_string : Z → result pystr.
Variable json_load : pystr → result pyval.

Lemma foldl_accept posts : ∀ all seen,
  fst (foldl accept (all, seen) posts) = all ++ first_occurrences seen posts.
Proof.
  induction posts as [|p posts IH]; intros all seen; simpl.
  { by rewrite app_nil_r. }
  unfold accept at 2. simpl.
  destruct (decide (timestamp p ∈ seen)) as [Hin|Hnin].
  - rewrite bool_decide_eq_false_2 by (by intros ?).
    rewrite bool_decide_eq_true_2 by done. apply IH.
  - rewrite bool_decide_eq_true_2 by done.
    rewrite bool_decide_eq_false_2 by done.
    rewrite IH. by rewrite <- app_assoc.
Qed.

Lemma first_occurrences_NoDup posts : ∀ seen,
  NoDup (map timestamp (first_occurrences seen posts))
  ∧ Forall (λ p, timestamp p ∉ seen) (first_occurrences seen posts).
Proof.
  induction posts as [|p posts IH]; intros seen; simpl.
  { split; constructor. }
  case_bool_decide as Hin; [apply IH|].
  destruct (IH ({[timestamp p]} ∪ seen)) as [Hnd Hall].
  split.
  - simpl. constructor; [|done]. intros Hp.
    apply list_elem_of_fmap in Hp as (q & Hq & Hqin).
    rewrite Forall_forall in Hall. apply Hall in Hqin. set_solver.
  - constructor; [done|].
    eapply Forall_impl; [exact Hall|]. simpl. set_solver.
Qed.

Lemma load_file_posts f st :
  snd (load_file str_lower path_name local_date_string json_load f st)
  = (posts ← file_posts str_lower path_name local_date_string json_load f;
     Ok (foldl accept st posts)).
Proof.
  unfold load_file, load_body, file_posts.
  rewrite <- bind_assoc.
  destruct (json_load f ≫= _) as [posts|e]; simpl; [done|].
  by destruct e.
Qed.

Lemma load_file_malformed f msg st :
  json_load f = Err (JSONDecodeError msg) →
  load_file str_lower path_name local_date_string json_load f st
  = ([Processing f; ErrorReading f msg], Ok st).
Proof. intros H. unfold load_file, load_body. by rewrite H. Qed.

Lemma load_file_log f st :
  Processing f ∈ fst (load_file str_lower path_name local_date_string
                        json_load f st).
Proof.
  unfold load_file. destruct (load_body _ _ _ _ _ _) as [?|[]]; simpl; by left.
Qed.

Lemma load_files_cons f rest st :
  load_files str_lower path_name local_date_string json_load (f :: rest) st
  = match load_file str_lower path_name local_date_string json_load f st with
    | (out, Ok st') =>
        (out ++ fst (load_files str_lower path_name local_date_string
                       json_load rest st'),
         snd (load_files str_lower path_name local_date_string
                json_load rest st'))
    | (out, Err e) => (out, Err e)
    end.
Proof.
  simpl. destruct (load_file _ _ _ _ _ _) as [out [st'|e]]; [|done].
  by destruct (load_files _ _ _ _ _ _).
Qed.

Lemma load_files_app l1 : ∀ l2 st,
  load_files str_lower path_name local_date_string json_load (l1 ++ l2) st
  = match load_files str_lower path_name local_date_string json_load l1 st with
    | (out, Ok st') =>
        (out ++ fst (load_files str_lower path_name local_date_string
                       json_load l2 st'),
         snd (load_files str_lower path_name local_date_string
                json_load l2 st'))
    | (out, Err e) => (out, Err e)
    end.
Proof.
  induction l1 as [|f l1 IH]; intros l2 st.
  { simpl. by destruct (load_files _ _ _ _ _ _). }
  rewrite <- app_comm_cons, !load_files_cons.
  destruct (load_file _ _ _ _ _ _) as [out [st'|e]]; [|done].
  rewrite IH. destruct (load_files _ _ _ _ l1 st') as [out' [st''|e]]; simpl.
  - by rewrite app_assoc.
  - done.
Qed.

(** The posts the loop of lines 108-119 leaves in [all_posts]. *)
Lemma load_files_posts files : ∀ st,
  snd (load_files str_lower path_name local_date_string json_load files st)
  = (batches ← mapM (file_posts str_lower path_name local_date_string
                       json_load) files;
     Ok (foldl accept st (concat batches))).
Proof.
  induction files as [|f files IH]; intros st; [done|].
  rewrite load_files_cons.
  pose proof (load_file_posts f st) as Hf.
  destruct (load_file _ _ _ _ _ _) as [out [st'|e]]; simpl in *.
  - rewrite IH.
    destruct (file_posts _ _ _ _ f) as [posts|]; simpl in *; [|done].
    injection Hf as ->.
    destruct (mapM _ files) as [batches|]; simpl; [|done].
    by rewrite foldl_app.
  - by destruct (file_posts _ _ _ _ f).
Qed.

Lemma load_files_log files : ∀ st g,
  is_ok (snd (load_files str_lower path_name local_date_string json_load
                files st)) = true →
  g ∈ files →
  Processing g ∈ fst (load_files str_lower path_name local_date_string
                        json_load files st).
Proof.
  induction files as [|f files IH]; intros st g Hok Hg.
  { by apply elem_of_nil in Hg. }
  rewrite load_files_cons in *.
  pose proof (load_file_log f st) as Hf.
  destruct (load_file _ _ _ _ _ _) as [out [st'|e]]; simpl in *; [|done].
  apply elem_of_app. apply elem_of_cons in Hg as [->|Hg]; [by left|].
  right. by apply IH.
Qed.

Lemma accepted_posts_fst files :
  fst (accepted_posts str_lower path_name local_date_string json_load files)
  = fst (load_files str_lower path_name local_date_string json_load files
           ([], ∅)).
Proof. unfold accepted_posts. by destruct (load_files _ _ _ _ _ _). Qed.

Lemma accepted_posts_snd files :
  snd (accepted_posts str_lower path_name local_date_string json_load files)
  = fst <$> snd (load_files str_lower path_name local_date_string json_load
                   files ([], ∅)).
Proof. unfold accepted_posts. by destruct (load_files _ _ _ _ _ _). Qed.

Lemma load_and_merge_posts_fst files :
  fst (load_and_merge_posts str_lower path_name local_date_string json_load
         files)
  = fst (load_files str_lower path_name local_date_string json_load files
           ([], ∅)).
Proof.
  unfold load_and_merge_posts. rewrite <- accepted_posts_fst.
  by destruct (accepted_posts _ _ _ _ _).
Qed.

Lemma load_and_merge_posts_snd files :
  snd (load_and_merge_posts str_lower path_name local_date_string json_load
         files)
  = sort_desc timestamp <$>
      snd (accepted_posts str_lower path_name local_date_string json_load
             files).
Proof.
  unfold load_and_merge_posts. by destruct (accepted_posts _ _ _ _ _).
Qed.

Lemma accepted_posts_encounter_order files :
  snd (accepted_posts str_lower path_name local_date_string json_load files)
  = encounter_order str_lower path_name local_date_string json_load files.
Proof.
  rewrite accepted_posts_snd, load_files_posts. unfold encounter_order.
  destruct (mapM _ files) as [batches|]; simpl; [|done].
  by rewrite foldl_accept.
Qed.

(** C6, as the code has it: [load_and_merge_posts] returns the accepted
    posts (those of every file that parses, in encounter order, each time
    stamp at its first occurrence) sorted by descending time stamp; the sort
    is the last step of the function itself and the encounter order is only
    the order of [all_posts] before it. *)
Theorem load_and_merge_posts_sorts_encounter_order json_files :
  snd (load_and_merge_posts str_lower path_name local_date_string json_load
         json_files)
  = sort_desc timestamp <$>
      encounter_order str_lower path_name local_date_string json_load
        json_files.
Proof.
  by rewrite load_and_merge_posts_snd, accepted_posts_encounter_order.
Qed.

(** C4: the time stamps of the collection [load_and_merge_posts] returns are
    pairwise distinct. *)
Theorem load_and_merge_posts_timestamps_distinct json_files posts :
  snd (load_and_merge_posts str_lower path_name local_date_string json_load
         json_files) = Ok posts →
  NoDup (map timestamp posts).
Proof.
  rewrite load_and_merge_posts_snd, accepted_posts_encounter_order.
  unfold encounter_order.
  destruct (mapM _ json_files) as [batches|]; simpl; [|done].
  intros [= <-].
  rewrite (Permutation_map timestamp (sort_desc_perm timestamp _)).
  apply first_occurrences_NoDup.
Qed.

(** C3: the collection [load_and_merge_posts] returns is in descending order
    of time stamp, and the sort that puts it in that order is stable: the
    posts of any one time stamp come out in the order they went in. *)
Theorem load_and_merge_posts_sorted_stable :
  (∀ json_files posts,
     snd (load_and_merge_posts str_lower path_name local_date_string
            json_load json_files) = Ok posts →
     StronglySorted (λ p q, timestamp q ≤ timestamp p) posts) ∧
  (∀ (all_posts : list FacebookPost) (t : Z),
     filter (λ p, timestamp p = t) (sort_desc timestamp all_posts)
     = filter (λ p, timestamp p = t) all_posts).
Proof.
  split.
  - intros json_files posts. rewrite load_and_merge_posts_snd.
    destruct (snd (accepted_posts _ _ _ _ _)) as [all_posts|]; simpl; [|done].
    intros [= <-]. apply sort_desc_sorted.
  - intros all_posts t. apply sort_desc_stable.
Qed.

Lemma file_posts_skipped f :
  file_posts str_lower path_name local_date_string json_load f
  = if skipped str_lower path_name local_date_string json_load f then Ok []
    else json_load f
         ≫= extract_posts_from_json str_lower path_name local_date_string.
Proof.
  unfold file_posts, skipped. by destruct (json_load f ≫= _) as [?|[]].
Qed.

Lemma concat_file_posts files :
  (λ batches, concat batches) <$>
    mapM (file_posts str_lower path_name local_date_string json_load) files
  = (λ batches, concat batches) <$>
      mapM (λ f, json_load f
                 ≫= extract_posts_from_json str_lower path_name
                      local_date_string)
           (List.filter
              (λ f, negb (skipped str_lower path_name local_date_string
                            json_load f))
              files).
Proof.
  induction files as [|f files IH]; [done|].
  cbn [List.filter]. rewrite mapM_result_cons, file_posts_skipped.
  destruct (skipped _ _ _ _ f); cbn [negb].
  - rewrite <- IH. simpl.
    by destruct (mapM (file_posts _ _ _ _) files).
  - rewrite mapM_result_cons.
    destruct (json_load f ≫= _) as [batch|e]; [|done]. simpl.
    destruct (mapM (file_posts _ _ _ _) files) as [batches|e];
      destruct (mapM _ (List.filter _ files)) as [batches'|e'];
      simpl in *; congruence.
Qed.

Lemma load_and_merge_posts_parseable files :
  snd (load_and_merge_posts str_lower path_name local_date_string json_load
         files)
  = posts_of_parseable_files str_lower path_name local_date_string json_load
      files.
Proof.
  rewrite load_and_merge_posts_snd, accepted_posts_encounter_order.
  unfold encounter_order, posts_of_parseable_files.
  pose proof (concat_file_posts files) as H.
  destruct (mapM (file_posts _ _ _ _) files) as [batches|e];
    destruct (mapM _ (List.filter _ files)) as [batches'|e'];
    simpl in *; congruence.
Qed.

(** C9: a file on which [json.load] raises [JSONDecodeError] changes nothing
    in the collection returned, which is the collection of the posts
    extracted from the other files that parse (each time stamp at its first
    occurrence, sorted); the failure is printed with the name of the file
    when the run reaches it; and the run goes on: it ends normally whenever it
    does without that file, having processed every later file. *)
Theorem malformed_file_is_skipped pre f msg suf :
  json_load f = Err (JSONDecodeError msg) →
  snd (load_and_merge_posts str_lower path_name local_date_string json_load
         (pre ++ f :: suf))
  = snd (load_and_merge_posts str_lower path_name local_date_string json_load
           (pre ++ suf))
  ∧ snd (load_and_merge_posts str_lower path_name local_date_string json_load
           (pre ++ f :: suf))
    = posts_of_parseable_files str_lower path_name local_date_string
        json_load (pre ++ suf)
  ∧ (is_ok (snd (load_and_merge_posts str_lower path_name local_date_string
                   json_load pre)) = true →
     ErrorReading f msg
       ∈ fst (load_and_merge_posts str_lower path_name local_date_string
                json_load (pre ++ f :: suf)))
  ∧ (is_ok (snd (load_and_merge_posts str_lower path_name local_date_string
                   json_load (pre ++ suf))) = true →
     is_ok (snd (load_and_merge_posts str_lower path_name local_date_string
                   json_load (pre ++ f :: suf))) = true
     ∧ ∀ g, g ∈ suf →
         Processing g
           ∈ fst (load_and_merge_posts str_lower path_name local_date_string
                    json_load (pre ++ f :: suf))).
Proof.
  intros Hf.
  assert (Hposts : ∀ st,
    snd (load_files str_lower path_name local_date_string json_load
           (pre ++ f :: suf) st)
    = snd (load_files str_lower path_name local_date_string json_load
             (pre ++ suf) st)).
  { intros st. rewrite !load_files_app.
    destruct (load_files _ _ _ _ pre st) as [out [st'|e]]; [|done].
    by rewrite load_files_cons, (load_file_malformed _ _ _ Hf). }
  assert (Heq :
    snd (load_and_merge_posts str_lower path_name local_date_string json_load
           (pre ++ f :: suf))
    = snd (load_and_merge_posts str_lower path_name local_date_string
             json_load (pre ++ suf))).
  { by rewrite !load_and_merge_posts_snd, !accepted_posts_snd, Hposts. }
  split; [exact Heq|]. split.
  { rewrite Heq. apply load_and_merge_posts_parseable. }
  split.
  - rewrite load_and_merge_posts_snd, accepted_posts_snd,
      load_and_merge_posts_fst, load_files_app.
    destruct (load_files _ _ _ _ pre _) as [out [st'|e]]; [|done].
    intros _. rewrite load_files_cons, (load_file_malformed _ _ _ Hf).
    cbn [fst]. apply elem_of_app. right. right. by left.
  - intros Hok. split; [by rewrite Heq|].
    intros g Hg. rewrite load_and_merge_posts_fst.
    apply load_files_log; [|set_solver].
    rewrite <- Heq, load_and_merge_posts_snd, accepted_posts_snd in Hok.
    by destruct (snd (load_files _ _ _ _ _ _)).
Qed.

End LoaderFacts.

(** The three time stamps of the specification's sort scenario. *)
Lemma load_and_merge_posts_sorted_stable_witness :
  ∃ posts,
    snd (run_load [lit "C.json"]) = Ok posts
    ∧ map timestamp posts = [300; 200; 100]
    ∧ StronglySorted (λ p q, timestamp q ≤ timestamp p) posts.
Proof.
  destruct (snd (run_load [lit "C.json"])) as [posts|e] eqn:E;
    [|vm_compute in E; discriminate].
  exists posts. split; [reflexivity|]. split.
  - vm_compute in E. injection E as <-. reflexivity.
  - exact (proj1 (load_and_merge_posts_sorted_stable ascii_lower posix_name
                    utc_date_string sample_files) [lit "C.json"] posts E).
Defined.

(** The scenario of the specification: 10 comes from both files. *)
Lemma load_and_merge_posts_timestamps_distinct_witness :
  ∃ posts,
    snd (run_load [lit "A.json"; lit "B.json"]) = Ok posts
    ∧ NoDup (map timestamp posts).
Proof.
  destruct (snd (run_load [lit "A.json"; lit "B.json"])) as [posts|e] eqn:E;
    [|vm_compute in E; discriminate].
  exists posts. split; [reflexivity|].
  exact (load_and_merge_posts_timestamps_distinct ascii_lower posix_name
           utc_date_string sample_files _ posts E).
Defined.

Example scenario_of_the_specification :
  (map (λ p, (timestamp p, post_text p))) <$>
    snd (run_load [lit "A.json"; lit "B.json"])
  = Ok [(20, PStr (lit "bye")); (10, PStr (lit "hi"))].
Proof. vm_compute. reflexivity. Qed.

(** A file that is not JSON between the two files of the scenario: the
    collection is the one of the two files, the failure is printed and the
    run ends normally. *)
Lemma malformed_file_is_skipped_witness :
  (map (λ p, (timestamp p, post_text p))) <$>
    snd (run_load ([lit "A.json"] ++ lit "bad.json" :: [lit "B.json"]))
  = Ok [(20, PStr (lit "bye")); (10, PStr (lit "hi"))]
  ∧ ErrorReading (lit "bad.json")
      (lit "Expecting value: line 1 column 1 (char 0)")
    ∈ fst (run_load ([lit "A.json"] ++ lit "bad.json" :: [lit "B.json"]))
  ∧ Processing (lit "B.json")
    ∈ fst (run_load ([lit "A.json"] ++ lit "bad.json" :: [lit "B.json"]))
  ∧ is_ok (snd (run_load ([lit "A.json"] ++ lit "bad.json" :: [lit "B.json"])))
    = true.
Proof.
  destruct (malformed_file_is_skipped ascii_lower posix_name utc_date_string
              sample_files [lit "A.json"] (lit "bad.json")
              (lit "Expecting value: line 1 column 1 (char 0)")
              [lit "B.json"]) as (_ & Hposts & Hlog & Hok).
  { vm_compute. reflexivity. }
  split.
  { unfold run_load. rewrite Hposts. vm_compute. reflexivity. }
  split; [apply Hlog; vm_compute; reflexivity|].
  destruct Hok as [Hok Hall]; [vm_compute; reflexivity|].
  split; [apply Hall; by left | exact Hok].
Defined.

Example malformed_file_log :
  fst (run_load [lit "A.json"; lit "bad.json"; lit "B.json"])
  = [Processing (lit "A.json"); Processing (lit "bad.json");
     ErrorReading (lit "bad.json")
       (lit "Expecting value: line 1 column 1 (char 0)");
     Processing (lit "B.json")].
Proof. vm_compute. reflexivity. Qed.

(** C6 as stated fails: the collection returned is not in encounter order. *)
Lemma load_and_merge_posts_unsorted_counterexample :
  snd (run_load [lit "C.json"])
  ≠ encounter_order ascii_lower posix_name utc_date_string sample_files
      [lit "C.json"].
Proof. vm_compute. intros H. discriminate H. Qed.

Example encounter_order_sample :
  map timestamp <$>
    encounter_order ascii_lower posix_name utc_date_string sample_files
      [lit "C.json"]
  = Ok [100; 300; 200].
Proof. vm_compute. reflexivity. Qed.

(** C1 on the code: in one file, an empty record ahead of a valid record with
    the same time stamp makes the valid one a duplicate and nothing with that
    time stamp is left; in two files the valid one is kept. *)
Lemma empty_twin_first_drops_the_valid_post :
  sample_files (lit "D.json") = Ok (PList [bare_record 10; text_record 10 "hi"])
  ∧ snd (run_load [lit "D.json"]) = Ok []
  ∧ (map (λ p, (timestamp p, post_text p))) <$>
      snd (run_load [lit "E.json"; lit "A.json"])
    = Ok [(10, PStr (lit "hi"))].
Proof. vm_compute. repeat split; reflexivity. Qed.

(** ** [html.escape] and [generate_html] *)

Lemma replace_char_app old new a b :
  replace_char old new (a ++ b)
  = replace_char old new a ++ replace_char old new b.
Proof. unfold replace_char. apply flat_map_app. Qed.

Lemma html_escape_app a b :
  html_escape (a ++ b) = html_escape a ++ html_escape b.
Proof. unfold html_escape. cbv zeta. by rewrite !replace_char_app. Qed.

Lemma elem_of_replace_char old new s c :
  c ∈ replace_char old new s → c ∈ new ∨ (c ∈ s ∧ c ≠ old).
Proof.
  induction s as [|x s IH]; simpl.
  { intros H. by apply elem_of_nil in H. }
  rewrite elem_of_app. intros [H|H].
  - case_bool_decide as Hx; [by left|].
    apply list_elem_of_singleton in H as ->. right. split; [by left | done].
  - destruct (IH H) as [?|[? ?]]; [by left|]. right. split; [by right | done].
Qed.

Ltac in_literal H :=
  vm_compute in H;
  repeat (apply elem_of_cons in H as [->|H]; [reflexivity|]);
  by apply elem_of_nil in H.

Lemma html_escape_no_markup s c : c ∈ html_escape s → is_markup c = false.
Proof.
  unfold html_escape. cbv zeta. intros H.
  apply elem_of_replace_char in H as [H|[H H39]]; [in_literal H|].
  apply elem_of_replace_char in H as [H|[H H34]]; [in_literal H|].
  apply elem_of_replace_char in H as [H|[H H62]]; [in_literal H|].
  apply elem_of_replace_char in H as [H|[H H60]]; [in_literal H|].
  unfold is_markup. by rewrite !bool_decide_eq_false_2.
Qed.

Lemma filter_none {A} (f : A → bool) (l : list A) :
  (∀ x, x ∈ l → f x = false) → List.filter f l = [].
Proof.
  induction l as [|x l IH]; intros H; simpl; [done|].
  rewrite (H x) by left. apply IH. intros y Hy. apply H. by right.
Qed.

Lemma markup_html_escape s : List.filter is_markup (html_escape s) = [].
Proof. apply filter_none, html_escape_no_markup. Qed.

(** Substrings *)

Lemma starts_with_prefix needle : ∀ hay,
  starts_with needle hay = true ↔ ∃ after, hay = needle ++ after.
Proof.
  induction needle as [|a needle IH]; intros hay; simpl.
  { split; [by exists hay | done]. }
  destruct hay as [|b hay].
  { split; [done | by intros (? & ?)]. }
  rewrite andb_true_iff, bool_decide_eq_true, IH. split.
  - intros (-> & after & ->). by exists after.
  - intros (after & [= -> ->]). split; [done | by exists after].
Qed.

Lemma contains_occurs needle hay :
  contains needle hay = true ↔ occurs needle hay.
Proof.
  unfold occurs. induction hay as [|b hay IH]; simpl.
  - rewrite orb_false_r, starts_with_prefix. split.
    + intros (after & ->). by exists [], after.
    + intros (before & after & H). destruct before; [by exists after|done].
  - rewrite orb_true_iff, starts_with_prefix, IH. split.
    + intros [(after & ->) | (before & after & ->)].
      * by exists [], after.
      * by exists (b :: before), after.
    + intros (before & after & H). destruct before as [|c before].
      * left. by exists after.
      * right. injection H as -> ->. by exists before, after.
Qed.

Lemma occurs_here needle before after : occurs needle (before ++ needle ++ after).
Proof. by exists before, after. Qed.

Lemma occurs_trans a b c : occurs a b → occurs b c → occurs a c.
Proof.
  intros (x & y & ->) (x' & y' & ->). exists (x' ++ x), (y ++ y').
  by rewrite <- !app_assoc.
Qed.

Lemma occurs_app_l a b c : occurs a b → occurs a (b ++ c).
Proof. intros H. eapply occurs_trans; [exact H|]. by exists [], c. Qed.

Lemma occurs_app_r a b c : occurs a c → occurs a (b ++ c).
Proof.
  intros H. eapply occurs_trans; [exact H|]. exists b, []. by rewrite app_nil_r.
Qed.

Lemma occurs_concat (x : pystr) (l : list pystr) : x ∈ l → occurs x (concat l).
Proof.
  induction 1 as [x l | x y l _ IH]; simpl.
  - exists [], (concat l). done.
  - by apply occurs_app_r.
Qed.

(** The scanner *)

Lemma tag_scan_app q a b : tag_scan q (a ++ b) = tag_scan (tag_scan q a) b.
Proof. apply foldl_app. Qed.

Lemma tag_scan_3 s : tag_scan 3 s = 3%nat.
Proof. induction s; [done | assumption]. Qed.

Lemma tag_scan_script q after :
  tag_scan q (lit "<script>" ++ after) = 3%nat.
Proof.
  change (lit "<script>") with [60; 115; 99; 114; 105; 112; 116; 62]%N.
  destruct q as [|[|[|[|q]]]]; apply tag_scan_3.
Qed.

Lemma tag_scan_no_lt s : (∀ c, c ∈ s → c ≠ 60%N) → clean s.
Proof.
  unfold clean. induction s as [|c s IH]; intros H; [done|].
  simpl. rewrite bool_decide_eq_false_2 by (apply H; left).
  apply IH. intros x Hx. apply H. by right.
Qed.

Lemma clean_nil : clean [].
Proof. done. Qed.

Lemma clean_app a b : clean a → clean b → clean (a ++ b).
Proof. unfold clean. intros Ha Hb. by rewrite tag_scan_app, Ha. Qed.

Lemma clean_concat l : Forall clean l → clean (concat l).
Proof. induction 1; simpl; [done | by apply clean_app]. Qed.

Lemma clean_html_escape s : clean (html_escape s).
Proof.
  apply tag_scan_no_lt. intros c Hc ->.
  by apply html_escape_no_markup in Hc.
Qed.

Lemma clean_py_str_nat n : clean (py_str_nat n).
Proof.
  apply tag_scan_no_lt. unfold py_str_nat.
  induction (Nat.to_uint n) as [|d IH|d IH|d IH|d IH|d IH|d IH|d IH|d IH|d IH|d IH];
    simpl; intros c Hc;
    [by apply elem_of_nil in Hc
    | apply elem_of_cons in Hc as [->|Hc]; [done | by apply IH] ..].
Qed.

Lemma clean_not_script s : clean s → contains (lit "<script>") s = false.
Proof.
  unfold clean. intros Hs.
  destruct (contains (lit "<script>") s) eqn:E; [|done].
  apply contains_occurs in E as (before & after & ->).
  by rewrite tag_scan_app, tag_scan_script in Hs.
Qed.

Create HintDb clean.
#[local] Hint Resolve clean_nil clean_html_escape clean_py_str_nat : clean.
#[local] Hint Extern 1 (clean (tpl _)) => vm_compute; reflexivity : clean.

(** Splits a concatenation that is written as one and closes the parts. *)
Ltac clean_parts :=
  repeat match goal with
         | |- clean (_ ++ _) => apply clean_app
         end;
  auto with clean.

Lemma py_html_escape_Ok v e :
  py_html_escape v = Ok e → ∃ s, v = PStr s ∧ e = html_escape s.
Proof.
  destruct v; simpl; try discriminate. intros [= <-]. by eexists.
Qed.

(** [html.escape] is the table of [html_entity], character by character. *)
Lemma html_escape_char c : html_escape [c] = html_entity c.
Proof.
  assert (Hne : ∀ old new, c ≠ old → replace_char old new [c] = [c]).
  { intros old new H. unfold replace_char. simpl.
    by rewrite bool_decide_eq_false_2. }
  unfold html_entity.
  destruct (decide (c = 38%N)) as [->|H38]; [vm_compute; reflexivity|].
  destruct (decide (c = 60%N)) as [->|H60]; [vm_compute; reflexivity|].
  destruct (decide (c = 62%N)) as [->|H62]; [vm_compute; reflexivity|].
  destruct (decide (c = 34%N)) as [->|H34]; [vm_compute; reflexivity|].
  destruct (decide (c = 39%N)) as [->|H39]; [vm_compute; reflexivity|].
  rewrite !bool_decide_eq_false_2 by done.
  unfold html_escape. cbv zeta. by rewrite !Hne.
Qed.

Lemma html_escape_table s : html_escape s = flat_map html_entity s.
Proof.
  induction s as [|c s IH]; [done|].
  change (c :: s) with ([c] ++ s).
  rewrite html_escape_app, html_escape_char, IH. done.
Qed.

(** Ampersands *)

Lemma starts_with_app needle : ∀ hay after,
  starts_with needle hay = true → starts_with needle (hay ++ after) = true.
Proof.
  induction needle as [|a needle IH]; intros [|b hay] after; simpl; try done.
  rewrite !andb_true_iff. intros [? ?]. split; [done | by apply IH].
Qed.

Lemma ampersands_escaped_app a b :
  ampersands_escaped a = true → ampersands_escaped b = true →
  ampersands_escaped (a ++ b) = true.
Proof.
  intros Ha Hb. induction a as [|c a IH]; [done|].
  cbn [ampersands_escaped app] in *.
  apply andb_true_iff in Ha as [Hc Ha]. apply andb_true_iff. split; [|auto].
  apply orb_true_iff in Hc as [Hc|Hc]; apply orb_true_iff; [by left|right].
  apply existsb_exists in Hc as (r & Hr & Hs). apply existsb_exists.
  exists r. split; [done|]. exact (starts_with_app r (c :: a) b Hs).
Qed.

Lemma ampersands_escaped_concat l :
  Forall (λ s, ampersands_escaped s = true) l →
  ampersands_escaped (concat l) = true.
Proof.
  induction 1; simpl; [done | by apply ampersands_escaped_app].
Qed.

Lemma ampersands_escaped_none s :
  (∀ c, c ∈ s → c ≠ 38%N) → ampersands_escaped s = true.
Proof.
  induction s as [|c s IH]; intros H; [done|].
  cbn [ampersands_escaped]. rewrite bool_decide_eq_false_2 by (apply H; left).
  apply IH. intros x Hx. apply H. by right.
Qed.

Lemma ampersands_escaped_entity c : ampersands_escaped (html_entity c) = true.
Proof.
  unfold html_entity.
  repeat (case_bool_decide; [vm_compute; reflexivity|]).
  apply ampersands_escaped_none. by intros x ->%list_elem_of_singleton.
Qed.

Lemma ampersands_escaped_html_escape s :
  ampersands_escaped (html_escape s) = true.
Proof.
  rewrite html_escape_table. induction s as [|c s IH]; [done|].
  simpl. apply ampersands_escaped_app; [apply ampersands_escaped_entity | done].
Qed.

Lemma ampersands_escaped_py_str_nat n :
  ampersands_escaped (py_str_nat n) = true.
Proof.
  apply ampersands_escaped_none. unfold py_str_nat.
  induction (Nat.to_uint n) as [|d IH|d IH|d IH|d IH|d IH|d IH|d IH|d IH|d IH|d IH];
    simpl; intros c Hc;
    [by apply elem_of_nil in Hc
    | apply elem_of_cons in Hc as [->|Hc]; [done | by apply IH] ..].
Qed.

Create HintDb amp.
#[local] Hint Resolve ampersands_escaped_html_escape
  ampersands_escaped_py_str_nat : amp.
#[local] Hint Extern 1 (ampersands_escaped (tpl _) = true) =>
  vm_compute; reflexivity : amp.
#[local] Hint Extern 1 (ampersands_escaped [] = true) => reflexivity : amp.

Ltac amp_parts :=
  repeat match goal with
         | |- ampersands_escaped (_ ++ _) = true =>
             apply ampersands_escaped_app
         end;
  auto with amp.

Lemma photos_prefix_not_empty (name : pystr) :
  is_empty (lit "photos/" ++ name) = false.
Proof. reflexivity. Qed.

Section RenderFacts.

Variable make_output_dirs : result unit.
Variable src_exists : pystr → result bool.
Variable src_name : pystr → pystr.
Variable dest_exists : pystr → result bool.
Variable copy2 : pystr → result unit.
Variable open_index : result unit.
Variable save_index : result unit.

#[local] Opaque tpl lit.

(** What [copy_photo] returns, when it returns. *)
Lemma copy_photo_Ok p copied r copied' :
  copy_photo src_exists src_name dest_exists copy2 p copied = Ok (r, copied') →
  r = if photo_found src_exists p then lit "photos/" ++ src_name p else [].
Proof.
  unfold copy_photo, photo_found. intros H. inv_bind H as found Hfound.
  rewrite Hfound. destruct found; [|by injection H as <- _].
  cbv zeta in H. inv_bind H as there Hthere. inv_bind H as c Hc.
  by injection H as <- _.
Qed.

(** The image elements of a list of photo paths: one for each path that is
    found, in the order of the paths. *)
Lemma photo_copies_Ok paths : ∀ copied copies copied',
  photo_copies src_exists src_name dest_exists copy2 paths copied
    = Ok (copies, copied') →
  copies
  = map (λ p, tpl "<img src=`" ++ html_escape (lit "photos/" ++ src_name p)
              ++ tpl "` alt=`Photo` class=`post-photo`>")
        (List.filter (photo_found src_exists) paths).
Proof.
  induction paths as [|p paths IH]; intros copied copies copied' H.
  { by injection H as <- _. }
  cbn [photo_copies] in H. inv_bind H as r Hr. destruct r as [ref c1].
  inv_bind H as r' Hr'. destruct r' as [rest c2].
  apply copy_photo_Ok in Hr as ->. apply IH in Hr' as ->.
  cbn [List.filter]. destruct (photo_found src_exists p).
  - rewrite photos_prefix_not_empty in H. by injection H as <- _.
  - by injection H as <- _.
Qed.

Lemma photo_html_Ok post copied photo copied' :
  photo_html src_exists src_name dest_exists copy2 post copied
    = Ok (photo, copied') →
  photo
  = match List.filter (photo_found src_exists) (photo_paths post) with
    | [] => []
    | found =>
        tpl "<div class=`photos`>"
        ++ concat
             (map (λ p, tpl "<img src=`"
                        ++ html_escape (lit "photos/" ++ src_name p)
                        ++ tpl "` alt=`Photo` class=`post-photo`>") found)
        ++ tpl "</div>"
    end.
Proof.
  unfold photo_html. destruct (photo_paths post) as [|x paths] eqn:Hp.
  { by intros [= <- _]. }
  cbn [is_empty]. intros H. inv_bind H as r Hr. destruct r as [copies c1].
  apply photo_copies_Ok in Hr as ->.
  destruct (List.filter _ (x :: paths)) as [|y found]; by injection H as <- _.
Qed.

(** The parts of an item. *)
Lemma html_item_Ok_inv post copied item copied' :
  html_item src_exists src_name dest_exists copy2 post copied
    = Ok (item, copied') →
  ∃ photo text title tags external,
    photo_html src_exists src_name dest_exists copy2 post copied
      = Ok (photo, copied')
    ∧ text_html post = Ok text ∧ title_html post = Ok title
    ∧ tags_html post = Ok tags ∧ external_html post = Ok external
    ∧ item = tpl "
        <div class=`post`>
            <div class=`post-header`>
                " ++ date_html post ++ tpl "
            </div>
            " ++ title ++ tpl "
            " ++ text ++ tpl "
            " ++ photo ++ tpl "
            " ++ tags ++ tpl "
            " ++ external ++ tpl "
        </div>
        ".
Proof.
  unfold html_item. intros H. inv_bind H as r Hr. destruct r as [photo c1].
  inv_bind H as text Htext. inv_bind H as ti Hti. cbv zeta in H.
  inv_bind H as tg Htg. inv_bind H as ext Hext. injection H as <- <-.
  by exists photo, text, ti, tg, ext.
Qed.

Lemma html_items_Ok posts : ∀ copied items copied',
  html_items src_exists src_name dest_exists copy2 posts copied
    = Ok (items, copied') →
  Forall2 (λ p item, ∃ c c',
             html_item src_exists src_name dest_exists copy2 p c
               = Ok (item, c'))
          posts items.
Proof.
  induction posts as [|p posts IH]; intros copied items copied' H.
  { injection H as <- _. constructor. }
  cbn [html_items] in H. inv_bind H as r Hr. destruct r as [item c1].
  inv_bind H as r' Hr'. destruct r' as [rest c2]. injection H as <- _.
  constructor; [by exists copied, c1 | by eapply IH].
Qed.

Lemma generate_html_Ok_inv posts doc copied :
  generate_html make_output_dirs src_exists src_name dest_exists copy2
    open_index save_index posts = Ok (doc, copied) →
  ∃ items,
    html_items src_exists src_name dest_exists copy2 posts [] = Ok (items, copied)
    ∧ doc = page_head ++ py_str_nat (length posts) ++ page_mid
            ++ concat items ++ page_tail
    ∧ forallb is_scalar doc = true.
Proof.
  unfold generate_html. intros H. inv_bind H as u Hu.
  inv_bind H as r Hr. destruct r as [items c1]. cbv zeta in H.
  inv_bind H as u' Hu'. inv_bind H as u2 Hw. inv_bind H as u3 Hs.
  injection H as <- <-.
  exists items. split; [done|]. split; [done|].
  unfold file_write in Hw. by destruct (forallb is_scalar _).
Qed.

(** The markup of the photos block, whatever the paths. *)
Lemma markup_images (found : list pystr) :
  List.filter is_markup
    (concat (map (λ p, tpl "<img src=`"
                       ++ html_escape (lit "photos/" ++ src_name p)
                       ++ tpl "` alt=`Photo` class=`post-photo`>") found))
  = concat (replicate (length found)
              (List.filter is_markup
                 (tpl "<img src=`" ++ tpl "` alt=`Photo` class=`post-photo`>"))).
Proof.
  induction found as [|y l IH]; [done|].
  cbn [map concat length replicate].
  rewrite !List.filter_app, markup_html_escape, IH.
  by rewrite <- !app_assoc.
Qed.

Lemma markup_photo_html post copied photo copied' :
  photo_html src_exists src_name dest_exists copy2 post copied
    = Ok (photo, copied') →
  List.filter is_markup photo
  = match length (List.filter (photo_found src_exists) (photo_paths post)) with
    | O => []
    | n =>
        List.filter is_markup (tpl "<div class=`photos`>")
        ++ concat (replicate n
             (List.filter is_markup
                (tpl "<img src=`" ++ tpl "` alt=`Photo` class=`post-photo`>")))
        ++ List.filter is_markup (tpl "</div>")
    end.
Proof.
  intros ->%photo_html_Ok.
  destruct (List.filter _ (photo_paths post)) as [|x found]; [done|].
  rewrite !List.filter_app, markup_images. done.
Qed.

Lemma markup_date_html p :
  List.filter is_markup (date_html p)
  = if is_empty (date_string p) then []
    else List.filter is_markup (tpl "<span class=`date`>")
         ++ List.filter is_markup (tpl "</span>").
Proof.
  unfold date_html. destruct (is_empty (date_string p)); [done|].
  by rewrite !List.filter_app, markup_html_escape.
Qed.

Lemma markup_text_html p t :
  text_html p = Ok t →
  List.filter is_markup t
  = if py_truthy (post_text p)
    then List.filter is_markup (tpl "<p class=`post-text`>")
         ++ List.filter is_markup (tpl "</p>")
    else [].
Proof.
  unfold text_html. destruct (py_truthy (post_text p)); [|by intros [= <-]].
  intros H. inv_bind H as e He. injection H as <-.
  apply py_html_escape_Ok in He as (s & _ & ->).
  by rewrite !List.filter_app, markup_html_escape.
Qed.

Lemma markup_title_html p t :
  title_html p = Ok t →
  List.filter is_markup t
  = if py_truthy (title p)
    then List.filter is_markup (tpl "<p class=`title`>")
         ++ List.filter is_markup (tpl "</p>")
    else [].
Proof.
  unfold title_html. destruct (py_truthy (title p)); [|by intros [= <-]].
  intros H. inv_bind H as e He. injection H as <-.
  apply py_html_escape_Ok in He as (s & _ & ->).
  by rewrite !List.filter_app, markup_html_escape.
Qed.

Lemma markup_tags_html p t :
  tags_html p = Ok t →
  List.filter is_markup t
  = if is_empty (tags p) then []
    else List.filter is_markup (tpl "<div class=`tags`>Označení: ")
         ++ List.filter is_markup (tpl "</div>").
Proof.
  unfold tags_html. destruct (is_empty (tags p)); [by intros [= <-]|].
  intros H. inv_bind H as j Hj. injection H as <-.
  by rewrite !List.filter_app, markup_html_escape.
Qed.

Lemma markup_external_html p t :
  external_html p = Ok t →
  List.filter is_markup t
  = if py_truthy (external_url p)
    then List.filter is_markup (tpl "<a href=`")
         ++ List.filter is_markup
              (tpl "` target=`_blank` rel=`noopener` class=`external-link`>Externý odkaz</a>")
    else [].
Proof.
  unfold external_html. destruct (py_truthy (external_url p)); [|by intros [= <-]].
  intros H. inv_bind H as e He. injection H as <-.
  apply py_html_escape_Ok in He as (s & _ & ->).
  by rewrite !List.filter_app, markup_html_escape.
Qed.

(** Every part of an item is clean, and its ampersands are escaped. *)

Lemma checked_photo_html post copied photo copied' :
  photo_html src_exists src_name dest_exists copy2 post copied
    = Ok (photo, copied') →
  clean photo ∧ ampersands_escaped photo = true.
Proof.
  intros ->%photo_html_Ok.
  destruct (List.filter _ (photo_paths post)) as [|x found]; [done|].
  generalize (x :: found). intros l. split.
  - clean_parts. apply clean_concat.
    induction l; constructor; [clean_parts | done].
  - amp_parts. apply ampersands_escaped_concat.
    induction l; constructor; [amp_parts | done].
Qed.

Lemma checked_date_html p :
  clean (date_html p) ∧ ampersands_escaped (date_html p) = true.
Proof.
  unfold date_html. destruct (is_empty _); split; clean_parts; amp_parts.
Qed.

Lemma checked_text_html p t :
  text_html p = Ok t → clean t ∧ ampersands_escaped t = true.
Proof.
  unfold text_html. destruct (py_truthy _); [|by intros [= <-]].
  intros H. inv_bind H as e He. injection H as <-.
  apply py_html_escape_Ok in He as (s & _ & ->).
  split; [clean_parts | amp_parts].
Qed.

Lemma checked_title_html p t :
  title_html p = Ok t → clean t ∧ ampersands_escaped t = true.
Proof.
  unfold title_html. destruct (py_truthy _); [|by intros [= <-]].
  intros H. inv_bind H as e He. injection H as <-.
  apply py_html_escape_Ok in He as (s & _ & ->).
  split; [clean_parts | amp_parts].
Qed.

Lemma checked_tags_html p t :
  tags_html p = Ok t → clean t ∧ ampersands_escaped t = true.
Proof.
  unfold tags_html. destruct (is_empty _); [by intros [= <-]|].
  intros H. inv_bind H as j Hj. injection H as <-.
  split; [clean_parts | amp_parts].
Qed.

Lemma checked_external_html p t :
  external_html p = Ok t → clean t ∧ ampersands_escaped t = true.
Proof.
  unfold external_html. destruct (py_truthy _); [|by intros [= <-]].
  intros H. inv_bind H as e He. injection H as <-.
  apply py_html_escape_Ok in He as (s & _ & ->).
  split; [clean_parts | amp_parts].
Qed.

Lemma checked_html_item p copied item copied' :
  html_item src_exists src_name dest_exists copy2 p copied
    = Ok (item, copied') →
  clean item ∧ ampersands_escaped item = true.
Proof.
  intros (photo & text & ti & tg & ext & Hphoto & Htext & Hti & Htg & Hext
          & ->)%html_item_Ok_inv.
  destruct (checked_date_html p).
  apply checked_photo_html in Hphoto as [? ?].
  apply checked_text_html in Htext as [? ?].
  apply checked_title_html in Hti as [? ?].
  apply checked_tags_html in Htg as [? ?].
  apply checked_external_html in Hext as [? ?].
  split; [clean_parts | amp_parts].
Qed.

Lemma checked_generate_html posts doc copied :
  generate_html make_output_dirs src_exists src_name dest_exists copy2
    open_index save_index posts = Ok (doc, copied) →
  clean doc ∧ ampersands_escaped doc = true.
Proof.
  intros (items & Hitems & -> & _)%generate_html_Ok_inv.
  apply html_items_Ok in Hitems.
  assert (Forall (λ item, clean item ∧ ampersands_escaped item = true) items)
    as Hall.
  { induction Hitems as [|p item ? ? (c & c' & Hp) _ IH]; constructor; [|done].
    by apply checked_html_item in Hp. }
  split.
  - apply clean_app; [vm_compute; reflexivity|].
    apply clean_app; [auto with clean|].
    apply clean_app; [vm_compute; reflexivity|].
    apply clean_app; [|vm_compute; reflexivity].
    apply clean_concat. eapply Forall_impl; [exact Hall|]. by intros ? [? ?].
  - apply ampersands_escaped_app; [vm_compute; reflexivity|].
    apply ampersands_escaped_app; [auto with amp|].
    apply ampersands_escaped_app; [vm_compute; reflexivity|].
    apply ampersands_escaped_app; [|vm_compute; reflexivity].
    apply ampersands_escaped_concat.
    eapply Forall_impl; [exact Hall|]. by intros ? [? ?].
Qed.

Lemma generate_html_item posts doc copied p :
  generate_html make_output_dirs src_exists src_name dest_exists copy2
    open_index save_index posts = Ok (doc, copied) →
  p ∈ posts →
  ∃ item c c',
    html_item src_exists src_name dest_exists copy2 p c = Ok (item, c')
    ∧ occurs item doc.
Proof.
  intros (items & Hitems & -> & _)%generate_html_Ok_inv Hp.
  apply html_items_Ok in Hitems.
  assert (∃ item c c',
            html_item src_exists src_name dest_exists copy2 p c = Ok (item, c')
            ∧ item ∈ items)
    as (item & c & c' & Hitem & Hin).
  { induction Hitems as [|q item ? ? (c & c' & Hq) _ IH];
      [by apply elem_of_nil in Hp|].
    apply elem_of_cons in Hp as [->|Hp].
    - exists item, c, c'. split; [done | by left].
    - destruct (IH Hp) as (item' & c0 & c1 & ? & ?).
      exists item', c0, c1. split; [done | by right]. }
  exists item, c, c'. split; [done|].
  do 3 apply occurs_app_r. by apply occurs_app_l, occurs_concat.
Qed.

(** Where each field of a post is in its item. *)

Lemma occurs_self (a : pystr) : occurs a a.
Proof. exists [], []. by rewrite app_nil_r. Qed.

Ltac find_part :=
  solve [ apply occurs_self
        | apply occurs_app_l; apply occurs_self
        | apply occurs_app_r; find_part ].

Lemma html_item_date p copied item copied' :
  html_item src_exists src_name dest_exists copy2 p copied
    = Ok (item, copied') →
  date_string p ≠ [] →
  occurs (tpl "<span class=`date`>" ++ html_escape (date_string p)
          ++ tpl "</span>") item.
Proof.
  intros (photo & text & ti & tg & ext & _ & _ & _ & _ & _ & ->)%html_item_Ok_inv
    Hne.
  unfold date_html. destruct (date_string p) as [|c s] eqn:Hd; [done|].
  cbn [is_empty]. find_part.
Qed.

Lemma html_item_title p copied item copied' s :
  html_item src_exists src_name dest_exists copy2 p copied
    = Ok (item, copied') →
  title p = PStr s → s ≠ [] →
  occurs (tpl "<p class=`title`>" ++ html_escape s ++ tpl "</p>") item.
Proof.
  intros (photo & text & ti & tg & ext & _ & _ & Hti & _ & _ & ->)%html_item_Ok_inv
    Hs Hne.
  unfold title_html in Hti. rewrite Hs in Hti.
  destruct s as [|c s]; [done|]. injection Hti as <-. find_part.
Qed.

Lemma html_item_text p copied item copied' s :
  html_item src_exists src_name dest_exists copy2 p copied
    = Ok (item, copied') →
  post_text p = PStr s → s ≠ [] →
  occurs (tpl "<p class=`post-text`>" ++ html_escape s ++ tpl "</p>") item.
Proof.
  intros (photo & text & ti & tg & ext & _ & Htext & _ & _ & _ & ->)%html_item_Ok_inv
    Hs Hne.
  unfold text_html in Htext. rewrite Hs in Htext.
  destruct s as [|c s]; [done|]. injection Htext as <-. find_part.
Qed.

Lemma html_item_tags p copied item copied' :
  html_item src_exists src_name dest_exists copy2 p copied
    = Ok (item, copied') →
  tags p ≠ [] →
  ∃ joined,
    py_join (lit ", ") (tags p) = Ok joined
    ∧ occurs (tpl "<div class=`tags`>Označení: " ++ html_escape joined
              ++ tpl "</div>") item.
Proof.
  intros (photo & text & ti & tg & ext & _ & _ & _ & Htg & _ & ->)%html_item_Ok_inv
    Hne.
  unfold tags_html in Htg. destruct (tags p) as [|t l]; [done|].
  cbn [is_empty] in Htg. inv_bind Htg as joined Hj. injection Htg as <-.
  exists joined. split; [done|]. find_part.
Qed.

Lemma html_item_external p copied item copied' s :
  html_item src_exists src_name dest_exists copy2 p copied
    = Ok (item, copied') →
  external_url p = PStr s → s ≠ [] →
  occurs (tpl "<a href=`" ++ html_escape s
          ++ tpl "` target=`_blank` rel=`noopener` class=`external-link`>Externý odkaz</a>")
         item.
Proof.
  intros (photo & text & ti & tg & ext & _ & _ & _ & _ & Hext & ->)%html_item_Ok_inv
    Hs Hne.
  unfold external_html in Hext. rewrite Hs in Hext.
  destruct s as [|c s]; [done|]. injection Hext as <-. find_part.
Qed.

Lemma html_item_photo p copied item copied' path :
  html_item src_exists src_name dest_exists copy2 p copied
    = Ok (item, copied') →
  path ∈ photo_paths p → src_exists path = Ok true →
  occurs (tpl "<img src=`" ++ html_escape (lit "photos/" ++ src_name path)
          ++ tpl "` alt=`Photo` class=`post-photo`>") item.
Proof.
  intros (photo & text & ti & tg & ext & Hphoto & _ & _ & _ & _ & ->)%html_item_Ok_inv
    Hin Hfound.
  apply photo_html_Ok in Hphoto.
  assert (Hpath : path ∈ List.filter (photo_found src_exists) (photo_paths p)).
  { apply list_elem_of_In, filter_In. split; [by apply list_elem_of_In|].
    unfold photo_found. by rewrite Hfound. }
  destruct (List.filter _ (photo_paths p)) as [|x found];
    [by apply elem_of_nil in Hpath|].
  apply (occurs_trans _ photo); [|find_part].
  rewrite Hphoto. apply occurs_app_r, occurs_app_l, occurs_concat.
  apply (list_elem_of_fmap_2
           (λ p, tpl "<img src=`" ++ html_escape (lit "photos/" ++ src_name p)
                 ++ tpl "` alt=`Photo` class=`post-photo`>")).
  exact Hpath.
Qed.

(** C5: [html.escape] turns the ampersand, the angle brackets and the two
    quotes into character references and leaves every other character, so
    that what it returns holds none of the characters that open or close a
    tag or an attribute value.  In the item of a post, each of the six fields
    is there escaped: the date string, the title, the text, the joined
    tags, the external link and the path of every photo copied, each between
    the markup of its element.  The markup characters of an item depend only
    on which parts the post has, never on their content.  In the document,
    every ampersand starts one of the five character references, there is no
    script tag at all, the item of every post is there, and a post whose text
    holds [<script>alert(1)</script>] shows with that text escaped. *)
Theorem generate_html_escapes_post_content :
  (∀ s, html_escape s = flat_map html_entity s) ∧
  (∀ s c, c ∈ html_escape s → is_markup c = false) ∧
  (∀ p copied item copied',
     html_item src_exists src_name dest_exists copy2 p copied
       = Ok (item, copied') →
     (date_string p ≠ [] →
      occurs (tpl "<span class=`date`>" ++ html_escape (date_string p)
              ++ tpl "</span>") item)
     ∧ (∀ s, title p = PStr s → s ≠ [] →
        occurs (tpl "<p class=`title`>" ++ html_escape s ++ tpl "</p>") item)
     ∧ (∀ s, post_text p = PStr s → s ≠ [] →
        occurs (tpl "<p class=`post-text`>" ++ html_escape s ++ tpl "</p>")
               item)
     ∧ (tags p ≠ [] →
        ∃ joined,
          py_join (lit ", ") (tags p) = Ok joined
          ∧ occurs (tpl "<div class=`tags`>Označení: " ++ html_escape joined
                    ++ tpl "</div>") item)
     ∧ (∀ s, external_url p = PStr s → s ≠ [] →
        occurs (tpl "<a href=`" ++ html_escape s
                ++ tpl "` target=`_blank` rel=`noopener` class=`external-link`>Externý odkaz</a>")
               item)
     ∧ (∀ path, path ∈ photo_paths p → src_exists path = Ok true →
        occurs (tpl "<img src=`"
                ++ html_escape (lit "photos/" ++ src_name path)
                ++ tpl "` alt=`Photo` class=`post-photo`>") item)) ∧
  (∀ p p' copied copied' item item' copied1 copied1',
     html_item src_exists src_name dest_exists copy2 p copied
       = Ok (item, copied1) →
     html_item src_exists src_name dest_exists copy2 p' copied'
       = Ok (item', copied1') →
     same_shape src_exists p p' →
     List.filter is_markup item = List.filter is_markup item') ∧
  (∀ posts doc copied,
     generate_html make_output_dirs src_exists src_name dest_exists copy2
       open_index save_index posts = Ok (doc, copied) →
     ampersands_escaped doc = true
     ∧ contains (lit "<script>") doc = false
     ∧ (∀ p, p ∈ posts →
        ∃ item c c',
          html_item src_exists src_name dest_exists copy2 p c = Ok (item, c')
          ∧ occurs item doc)
     ∧ ∀ p before after,
         p ∈ posts →
         post_text p
           = PStr (before ++ lit "<script>alert(1)</script>" ++ after) →
         contains (lit "&lt;script&gt;alert(1)&lt;/script&gt;") doc = true).
Proof.
  split; [exact html_escape_table|].
  split; [exact html_escape_no_markup|]. split; [|split].
  - intros p copied item copied' H. repeat split.
    + by eapply html_item_date.
    + intros s. by eapply html_item_title.
    + intros s. by eapply html_item_text.
    + by eapply html_item_tags.
    + intros s. by eapply html_item_external.
    + intros path. by eapply html_item_photo.
  - intros p p' copied copied' item item' copied1 copied1' H H'
      (Hd & Hti & Htx & Hph & Htg & Hex).
    apply html_item_Ok_inv in H
      as (photo & text & ti & tg & ext & Hphoto & Htext & Htitle & Htags
          & Hext & ->).
    apply html_item_Ok_inv in H'
      as (photo' & text' & ti' & tg' & ext' & Hphoto' & Htext' & Htitle'
          & Htags' & Hext' & ->).
    rewrite !List.filter_app.
    rewrite !markup_date_html.
    rewrite (markup_photo_html _ _ _ _ Hphoto),
      (markup_photo_html _ _ _ _ Hphoto').
    rewrite (markup_text_html _ _ Htext), (markup_text_html _ _ Htext').
    rewrite (markup_title_html _ _ Htitle), (markup_title_html _ _ Htitle').
    rewrite (markup_tags_html _ _ Htags), (markup_tags_html _ _ Htags').
    rewrite (markup_external_html _ _ Hext), (markup_external_html _ _ Hext').
    by rewrite Hd, Hti, Htx, Hph, Htg, Hex.
  - intros posts doc copied Hdoc.
    destruct (checked_generate_html _ _ _ Hdoc) as [Hclean Hamp].
    split; [done|]. split; [by apply clean_not_script|]. split.
    { intros p Hp. by eapply generate_html_item. }
    intros p before after Hp Htext.
    apply contains_occurs.
    destruct (generate_html_item _ _ _ _ Hdoc Hp) as (item & c & c' & Hitem & Hocc).
    eapply occurs_trans; [|exact Hocc].
    eapply occurs_trans;
      [|eapply html_item_text; [exact Hitem | exact Htext |]].
    + apply occurs_app_r, occurs_app_l.
      rewrite !html_escape_app. apply occurs_here.
    + by destruct before.
Qed.

End RenderFacts.

#[local] Transparent tpl lit.

(** The post with the script tag, rendered on a host where every call
    succeeds: the document has the text escaped and no script tag, every
    ampersand of it starts a character reference, the link is there with its
    ampersand and its angle brackets escaped, and the one photo that is found
    is copied once. *)
Lemma generate_html_escapes_post_content_witness :
  ∃ doc,
    run_html [script_post; plain_post] = Ok (doc, [lit "a<b>.jpg"])
    ∧ ampersands_escaped doc = true
    ∧ contains (lit "<script>") doc = false
    ∧ contains (lit "&lt;script&gt;alert(1)&lt;/script&gt;") doc = true
    ∧ contains (tpl "<a href=`http://x/?a=1&amp;b=&lt;script&gt;` target=")
        doc = true
    ∧ contains (tpl "<img src=`photos/a&lt;b&gt;.jpg` alt=") doc = true.
Proof.
  destruct (run_html [script_post; plain_post]) as [[doc copied]|e] eqn:E;
    [|vm_compute in E; discriminate].
  exists doc.
  destruct (generate_html_escapes_post_content (Ok tt) sample_exists
              posix_name (λ _, Ok false) (λ _, Ok tt) (Ok tt) (Ok tt))
    as (_ & _ & Hfields & _ & Hdoc).
  destruct (Hdoc _ doc copied E) as (Hamp & Hno & Hitems & Hesc).
  destruct (Hitems script_post) as (item & c & c' & Hitem & Hocc); [by left|].
  destruct (Hfields _ _ _ _ Hitem) as (_ & _ & _ & _ & Hlink & Hphoto).
  split.
  { assert (copied = [lit "a<b>.jpg"]) as ->; [|reflexivity].
    vm_compute in E. injection E as _ <-. vm_compute. reflexivity. }
  split; [exact Hamp|]. split; [exact Hno|]. split; [|split].
  - apply (Hesc script_post (lit "see ") (lit " & more"));
      [by left | reflexivity].
  - apply contains_occurs. eapply occurs_trans; [|exact Hocc].
    eapply occurs_trans;
      [|apply (Hlink (lit "http://x/?a=1&b=<script>"));
        [reflexivity | discriminate]].
    vm_compute. eexists [], _. reflexivity.
  - apply contains_occurs. eapply occurs_trans; [|exact Hocc].
    eapply occurs_trans;
      [|apply (Hphoto (lit "posts/media/a<b>.jpg"));
        [by left | reflexivity]].
    vm_compute. eexists [], _. reflexivity.
Defined.

Example same_markup_for_script_and_plain_post :
  (λ r, List.filter is_markup (fst r)) <$> run_item script_post []
  = (λ r, List.filter is_markup (fst r)) <$> run_item plain_post [].
Proof. vm_compute. reflexivity. Qed.

Example html_escape_script :
  html_escape (lit "<script>alert(1)</script>")
  = lit "&lt;script&gt;alert(1)&lt;/script&gt;".
Proof. vm_compute. reflexivity. Qed.

Example html_escape_ampersand_first :
  html_escape (lit "a < b && c") = lit "a &lt; b &amp;&amp; c".
Proof. vm_compute. reflexivity. Qed.

(** A photo that is a directory: the copy raises and no document is
    written. *)
Example copy_failure_aborts :
  generate_html (Ok tt) sample_exists posix_name (λ _, Ok false)
    (λ _, Err OSError) (Ok tt) (Ok tt) [script_post]
  = Err OSError.
Proof. vm_compute. reflexivity. Qed.

(** * Properties beyond the claims *)

(** ** [fix_encoding]: what it repairs, what it leaves, when it raises *)

Lemma encode_latin1_id (s : pystr) :
  Forall (λ c, (c ≤ 255)%N) s → encode_latin1 s = Ok s.
Proof.
  induction 1 as [|c s Hc _ IH]; [done|].
  simpl. rewrite (proj2 (N.leb_le c 255) Hc), IH. done.
Qed.

Lemma encode_latin1_Ok (s : pystr) (b : pybytes) :
  encode_latin1 s = Ok b → b = s ∧ Forall (λ c, (c ≤ 255)%N) s.
Proof.
  revert b; induction s as [|c s IH]; intros b; simpl.
  { by intros [= <-]. }
  destruct (N.leb_spec c 255); [|discriminate].
  destruct (encode_latin1 s) as [b'|]; simpl; [|discriminate].
  intros [= <-]. destruct (IH b' eq_refl) as [-> ?]. by split; [|constructor].
Qed.

Lemma decode_utf8_ascii (b : pybytes) :
  Forall (λ c, (c ≤ 127)%N) b → decode_utf8 b = Ok b.
Proof.
  induction 1 as [|c b Hc _ IH]; [done|].
  cbn [decode_utf8]. rewrite (proj2 (N.leb_le c 127) Hc), IH. done.
Qed.

(** X1: a string of ASCII characters comes back from [fix_encoding]
    unchanged. *)
Theorem fix_encoding_keeps_ascii (s : pystr) :
  Forall (λ c, (c ≤ 127)%N) s → fix_encoding (PStr s) = Ok (PStr s).
Proof.
  intros Hs. unfold fix_encoding, repair. simpl.
  rewrite encode_latin1_id by (eapply Forall_impl; [exact Hs | simpl; lia]).
  simpl. rewrite decode_utf8_ascii by done. by destruct s.
Qed.

Lemma decode_utf8_1 b1 r :
  (b1 <=? 127)%N = true →
  decode_utf8 (b1 :: r) = (s ← decode_utf8 r; Ok (b1 :: s)).
Proof. intros H1. cbn [decode_utf8]. by rewrite H1. Qed.

Lemma decode_utf8_2 b1 b2 r :
  (b1 <=? 127)%N = false →
  (194 <=? b1)%N && (b1 <=? 223)%N = true →
  is_cont b2 = true →
  decode_utf8 (b1 :: b2 :: r)
  = (s ← decode_utf8 r; Ok (((b1 - 192) * 64 + cont_bits b2)%N :: s)).
Proof.
  intros H1 H2 H3. remember (b2 :: r) as t. cbn [decode_utf8].
  rewrite H1, H2. subst t. by rewrite H3.
Qed.

Lemma decode_utf8_3 b1 b2 b3 r :
  (b1 <=? 127)%N = false →
  (194 <=? b1)%N && (b1 <=? 223)%N = false →
  (224 <=? b1)%N && (b1 <=? 239)%N = true →
  is_cont b2 && is_cont b3
    && (2048 <=? (b1 - 224) * 4096 + cont_bits b2 * 64 + cont_bits b3)%N
    && negb ((55296 <=? (b1 - 224) * 4096 + cont_bits b2 * 64 + cont_bits b3)%N
             && ((b1 - 224) * 4096 + cont_bits b2 * 64 + cont_bits b3 <=? 57343)%N)
    = true →
  decode_utf8 (b1 :: b2 :: b3 :: r)
  = (s ← decode_utf8 r;
     Ok (((b1 - 224) * 4096 + cont_bits b2 * 64 + cont_bits b3)%N :: s)).
Proof.
  intros H1 H2 H3 H4. remember (b2 :: b3 :: r) as t. cbn [decode_utf8].
  rewrite H1, H2, H3. subst t. cbv zeta. by rewrite H4.
Qed.

Lemma decode_utf8_4 b1 b2 b3 b4 r :
  (b1 <=? 127)%N = false →
  (194 <=? b1)%N && (b1 <=? 223)%N = false →
  (224 <=? b1)%N && (b1 <=? 239)%N = false →
  (240 <=? b1)%N && (b1 <=? 244)%N = true →
  is_cont b2 && is_cont b3 && is_cont b4
    && (65536 <=? (b1 - 240) * 262144 + cont_bits b2 * 4096
                  + cont_bits b3 * 64 + cont_bits b4)%N
    && ((b1 - 240) * 262144 + cont_bits b2 * 4096
        + cont_bits b3 * 64 + cont_bits b4 <=? 1114111)%N
    = true →
  decode_utf8 (b1 :: b2 :: b3 :: b4 :: r)
  = (s ← decode_utf8 r;
     Ok (((b1 - 240) * 262144 + cont_bits b2 * 4096
          + cont_bits b3 * 64 + cont_bits b4)%N :: s)).
Proof.
  intros H1 H2 H3 H4 H5. remember (b2 :: b3 :: b4 :: r) as t.
  cbn [decode_utf8]. rewrite H1, H2, H3, H4. subst t. cbv zeta. by rewrite H5.
Qed.

(** Names the base-64 digits of [c], leaving linear facts only. *)
Ltac digits64 c :=
  replace (c / 262144)%N with (c / 64 / 64 / 64)%N
    by (rewrite !N.Div0.div_div; reflexivity);
  replace (c / 4096)%N with (c / 64 / 64)%N
    by (rewrite !N.Div0.div_div; reflexivity);
  pose proof (N.div_mod c 64 ltac:(lia));
  pose proof (N.mod_lt c 64 ltac:(lia));
  pose proof (N.div_mod (c / 64) 64 ltac:(lia));
  pose proof (N.mod_lt (c / 64) 64 ltac:(lia));
  pose proof (N.div_mod (c / 64 / 64) 64 ltac:(lia));
  pose proof (N.mod_lt (c / 64 / 64) 64 ltac:(lia));
  generalize dependent ((c / 64 / 64) mod 64)%N; intros;
  generalize dependent (c / 64 / 64 / 64)%N; intros;
  generalize dependent ((c / 64) mod 64)%N; intros;
  generalize dependent (c / 64 / 64)%N; intros;
  generalize dependent (c mod 64)%N; intros;
  generalize dependent (c / 64)%N; intros.

(** Decides a Boolean combination of comparisons on the octets of [c]. *)
Ltac octet_tests c :=
  unfold is_cont, cont_bits;
  lazymatch goal with
  | |- _ && _ = true => apply andb_true_intro; split; octet_tests c
  | |- _ && _ = false =>
      first [ solve [apply andb_false_intro1; octet_tests c]
            | solve [apply andb_false_intro2; octet_tests c] ]
  | |- negb _ = true => apply negb_true_iff; octet_tests c
  | |- (_ <=? _)%N = true => apply N.leb_le; digits64 c; lia
  | |- (_ <=? _)%N = false => apply N.leb_gt; digits64 c; lia
  end.

Lemma decode_utf8_encode_char (c : N) (rest : pybytes) :
  is_scalar c = true →
  decode_utf8 (encode_utf8_char c ++ rest)
  = (r ← decode_utf8 rest; Ok (c :: r)).
Proof.
  unfold is_scalar, encode_utf8_char. intros Hc.
  assert (Hs : (c < 55296 ∨ 57343 < c ≤ 1114111)%N).
  { apply orb_true_iff in Hc as [Hc|Hc]; [left; by apply N.ltb_lt|right].
    apply andb_true_iff in Hc as [Ha Hb].
    apply N.ltb_lt in Ha. apply N.leb_le in Hb. lia. }
  clear Hc.
  destruct (N.leb_spec c 127) as [H1|H1]; [|destruct (N.leb_spec c 2047) as [H2|H2];
    [|destruct (N.leb_spec c 65535) as [H3|H3]]]; cbn [app].
  - apply decode_utf8_1. by apply N.leb_le.
  - rewrite decode_utf8_2; [|octet_tests c ..].
    replace ((192 + c / 64 - 192) * 64 + cont_bits (128 + c mod 64))%N with c
      by (unfold cont_bits; digits64 c; lia).
    done.
  - rewrite decode_utf8_3; [|destruct Hs; octet_tests c ..].
    replace ((224 + c / 4096 - 224) * 4096
             + cont_bits (128 + (c / 64) mod 64) * 64
             + cont_bits (128 + c mod 64))%N with c
      by (unfold cont_bits; digits64 c; lia).
    done.
  - rewrite decode_utf8_4; [|octet_tests c ..].
    replace ((240 + c / 262144 - 240) * 262144
             + cont_bits (128 + (c / 4096) mod 64) * 4096
             + cont_bits (128 + (c / 64) mod 64) * 64
             + cont_bits (128 + c mod 64))%N with c
      by (unfold cont_bits; digits64 c; lia).
    done.
Qed.

Lemma encode_utf8_char_octets (c : N) :
  is_scalar c = true → Forall (λ b, (b ≤ 255)%N) (encode_utf8_char c).
Proof.
  unfold is_scalar, encode_utf8_char. intros Hc.
  assert (Hs : (c ≤ 1114111)%N).
  { apply orb_true_iff in Hc as [Hc|Hc].
    - apply N.ltb_lt in Hc. lia.
    - apply andb_true_iff in Hc as [_ Hb]. by apply N.leb_le in Hb. }
  destruct (N.leb_spec c 127); [|destruct (N.leb_spec c 2047);
    [|destruct (N.leb_spec c 65535)]];
    repeat constructor; digits64 c; lia.
Qed.

Lemma encode_utf8_octets (t : pystr) :
  Forall (λ c, is_scalar c = true) t →
  Forall (λ b, (b ≤ 255)%N) (encode_utf8 t).
Proof.
  induction 1 as [|c t Hc _ IH]; [constructor|].
  unfold encode_utf8. simpl. apply Forall_app. split; [|exact IH].
  by apply encode_utf8_char_octets.
Qed.

Lemma decode_utf8_encode_utf8 (t : pystr) :
  Forall (λ c, is_scalar c = true) t → decode_utf8 (encode_utf8 t) = Ok t.
Proof.
  induction 1 as [|c t Hc _ IH]; [done|].
  unfold encode_utf8. simpl. rewrite decode_utf8_encode_char by done.
  fold (encode_utf8 t). by rewrite IH.
Qed.

(** X2: text whose UTF-8 octets were read as latin-1 is put right: for
    every string [t] of Unicode scalar values, [fix_encoding] maps the
    mojibake of [t] back to [t]. *)
Theorem fix_encoding_repairs_mojibake (t : pystr) :
  Forall (λ c, is_scalar c = true) t →
  fix_encoding (PStr (mojibake t)) = Ok (PStr t).
Proof.
  intros Ht. unfold fix_encoding, repair, mojibake. simpl.
  rewrite encode_latin1_id by (by apply encode_utf8_octets).
  simpl. rewrite decode_utf8_encode_utf8 by done.
  destruct (encode_utf8 t) eqn:E; [|done].
  destruct t as [|c t]; [done|].
  unfold encode_utf8 in E. simpl in E. apply app_eq_nil in E as [E _].
  unfold encode_utf8_char in E.
  by repeat match type of E with (if ?b then _ else _) = _ => destruct b end.
Qed.

Lemma fix_encoding_repairs_mojibake_witness :
  mojibake (lit "café") = lit "cafÃ©"
  ∧ fix_encoding (PStr (mojibake (lit "café"))) = Ok (PStr (lit "café")).
Proof.
  split; [vm_compute; reflexivity|].
  apply (fix_encoding_repairs_mojibake (lit "café")).
  compute_done.
Defined.

(** X3: [fix_encoding] raises only on a truthy value that is not a string,
    and then it is [AttributeError]: the handler of line 17 does not cover
    the missing [encode] method. *)
Theorem fix_encoding_raises_iff (v : pyval) (e : exn) :
  fix_encoding v = Err e
  ↔ e = AttributeError ∧ py_truthy v = true ∧ is_str v = false.
Proof.
  unfold fix_encoding. destruct (py_truthy v) eqn:Hv; simpl.
  - destruct v as [| | |s| |]; simpl;
      try (split; [by intros [= <-] | by intros (-> & _ & _)]).
    destruct (repair (PStr s)) as [r|e'] eqn:Hr.
    { split; [done | by intros (_ & _ & ?)]. }
    destruct (repair_raises _ _ Hr) as [-> | ->];
      (split; [done | by intros (_ & _ & ?)]).
  - split; [done | by intros (_ & ? & _)].
Qed.

Lemma decode_utf8_length_bounded (n : nat) (b : pybytes) (r : pystr) :
  (length b ≤ n)%nat → decode_utf8 b = Ok r →
  (length r ≤ length b)%nat ∧ (length r = length b → r = b).
Proof.
  revert b r; induction n as [|n IH]; intros b r Hn.
  { destruct b; simpl in *; [|lia]. by intros [= <-]. }
  destruct b as [|b1 r1]; [by intros [= <-]|].
  simpl in Hn. cbn [decode_utf8].
  repeat match goal with
  | |- (if ?c then _ else _) = _ → _ => destruct c
  | |- match ?l with [] => _ | _ :: _ => _ end = _ → _ =>
      destruct l; simpl in Hn
  | |- Err _ = Ok _ → _ => discriminate
  | |- (decode_utf8 ?t ≫= _) = _ → _ =>
      let H := fresh in
      assert (H : (length t ≤ n)%nat) by lia;
      pose proof (IH t) as IHt; destruct (decode_utf8 t) as [s|]; simpl;
      [specialize (IHt s H eq_refl); destruct IHt as [IH1 IH2];
       intros [= <-]; simpl; split; [lia|];
       intros Hlen; first [lia | f_equal; apply IH2; lia]
      | discriminate]
  end.
Qed.

(** X4: when [fix_encoding] changes a string, the result is strictly
    shorter. *)
Theorem fix_encoding_changes_shorten (s r : pystr) :
  fix_encoding (PStr s) = Ok (PStr r) →
  r = s ∨ (length r < length s)%nat.
Proof.
  unfold fix_encoding, repair. simpl.
  destruct s as [|c s]; [intros [= <-]; by left|]. cbn [negb].
  destruct (encode_latin1 (c :: s)) as [b|e] eqn:He; simpl.
  - apply encode_latin1_Ok in He as [-> _].
    destruct (decode_utf8 (c :: s)) as [r'|e] eqn:Hd.
    + intros [= <-].
      apply (decode_utf8_length_bounded (length (c :: s))) in Hd as [H1 H2];
        [|done].
      destruct (decide (length r' = length (c :: s))) as [Heq|Hne].
      * left. by apply H2.
      * right. simpl in *. lia.
    + apply decode_utf8_raises in Hd as ->. intros [= <-]. by left.
  - apply encode_latin1_raises in He as ->. intros [= <-]. by left.
Qed.

Lemma fix_encoding_changes_shorten_witness :
  lit "é" = lit "Ã©" ∨ (length (lit "é") < length (lit "Ã©"))%nat.
Proof.
  apply (fix_encoding_changes_shorten (lit "Ã©") (lit "é")).
  vm_compute. reflexivity.
Defined.

Lemma fix_encoding_keeps_ascii_witness :
  fix_encoding (PStr (lit "hello, world")) = Ok (PStr (lit "hello, world")).
Proof.
  apply (fix_encoding_keeps_ascii (lit "hello, world")).
  compute_done.
Defined.

Lemma fix_encoding_raises_iff_witness :
  fix_encoding (PInt 5) = Err AttributeError.
Proof. by apply (fix_encoding_raises_iff (PInt 5) AttributeError). Defined.

(** ** [extract_posts_from_json]: what every returned Post satisfies *)

Section ExtractionInvariants.

Variable str_lower : pystr → pystr.
Variable path_name : pystr → pystr.
Variable local_date_string : Z → result pystr.

(** Where a Post that the loop appends comes from. *)
Lemma extract_item_post item posts seen posts' seen' :
  extract_item str_lower path_name local_date_string item (posts, seen)
    = Ok (posts', seen') →
  posts' = posts ∨
  ∃ t text ti tg ph url post,
    record_timestamp item = Ok t
    ∧ record_text item = Ok text
    ∧ (py_get item (lit "title") (PStr []) ≫= fix_encoding) = Ok ti
    ∧ record_tags item = Ok tg
    ∧ record_attachments str_lower item = Ok (ph, url)
    ∧ new_FacebookPost local_date_string t text ti ph (map path_name ph)
        tg url = Ok post
    ∧ posts' = posts ++ [post].
Proof.
  unfold extract_item. intros H. inv_bind H as t Ht.
  case_bool_decide as Hin.
  { left. by injection H as <- <-. }
  inv_bind H as text Htext. inv_bind H as ti Hti. inv_bind H as tg Htg.
  inv_bind H as att Hatt. destruct att as [ph url].
  destruct (py_truthy text || negb (is_empty ph)).
  - inv_bind H as post Hpost. injection H as <- <-. right.
    by exists t, text, ti, tg, ph, url, post.
  - injection H as <- <-. by left.
Qed.

Lemma extract_posts_Forall (P : FacebookPost → Prop) :
  (∀ item t text ti tg ph url post,
     record_timestamp item = Ok t →
     record_text item = Ok text →
     (py_get item (lit "title") (PStr []) ≫= fix_encoding) = Ok ti →
     record_tags item = Ok tg →
     record_attachments str_lower item = Ok (ph, url) →
     new_FacebookPost local_date_string t text ti ph (map path_name ph)
       tg url = Ok post →
     P post) →
  ∀ data posts,
    extract_posts_from_json str_lower path_name local_date_string data
      = Ok posts →
    Forall P posts.
Proof.
  intros HP data posts. unfold extract_posts_from_json. intros H.
  inv_bind H as items Hitems. inv_bind H as st Hst. injection H as <-.
  assert (Hgen : ∀ items posts0 seen0 st',
    for_each (extract_item str_lower path_name local_date_string) items
      (posts0, seen0) = Ok st' →
    Forall P posts0 → Forall P (fst st')).
  { clear -HP. induction items as [|item items IH]; intros posts0 seen0 st' H H0.
    { by injection H as <-. }
    simpl in H. inv_bind H as st1 Hst1. destruct st1 as [posts1 seen1].
    apply (IH _ _ _ H).
    apply extract_item_post in Hst1
      as [-> | (t & text & ti & tg & ph & url & post & ? & ? & ? & ? & ? & ? & ->)];
      [done|].
    apply Forall_app. split; [done|]. constructor; [|constructor]. eauto. }
  eapply Hgen; [exact Hst | constructor].
Qed.

Lemma fix_encoding_Ok_str v r :
  fix_encoding v = Ok r → py_truthy v = true → is_str r = true.
Proof.
  unfold fix_encoding. intros H Hv. rewrite Hv in H. simpl in H.
  destruct v as [| | |s| |]; simpl in *;
    try (unfold repair in H; simpl in H; discriminate).
  destruct (repair (PStr s)) as [r'|e] eqn:Hr.
  - by injection H as <-.
  - destruct (repair_raises _ _ Hr) as [-> | ->]; by injection H as <-.
Qed.

Lemma fix_encoding_Ok_str_or_falsy v r :
  fix_encoding v = Ok r → is_str r = true ∨ py_truthy r = false.
Proof.
  intros H. destruct (py_truthy v) eqn:Hv.
  - left. by apply (fix_encoding_Ok_str v).
  - right. unfold fix_encoding in H. rewrite Hv in H. by injection H as <-.
Qed.

Lemma scan_post_text_str entries text :
  scan_post_text entries = Ok text → is_str text = true.
Proof.
  induction entries as [|d entries IH]; simpl.
  { by intros [= <-]. }
  intros H. inv_bind H as p Hp. destruct (py_truthy p) eqn:Htr; [|by apply IH].
  inv_bind H as v Hv. apply (py_getitem_get _ _ _ PNone) in Hv.
  rewrite Hp in Hv. injection Hv as <-. by apply (fix_encoding_Ok_str p).
Qed.

Lemma record_text_str item text :
  record_text item = Ok text → is_str text = true.
Proof.
  unfold record_text. intros H. inv_bind H as entries He.
  by apply scan_post_text_str in H.
Qed.

Lemma mapM_result_Forall2 {A B} (f : A → result B) l : ∀ k,
  mapM f l = Ok k → Forall2 (λ x y, f x = Ok y) l k.
Proof.
  induction l as [|x l IH]; intros k H.
  { injection H as <-. constructor. }
  simpl in H. inv_bind H as y Hy. inv_bind H as k' Hk'.
  injection H as <-. constructor; [done | by apply IH].
Qed.

Lemma record_tags_str_or_falsy item tg :
  record_tags item = Ok tg →
  Forall (λ t, is_str t = true ∨ py_truthy t = false) tg.
Proof.
  unfold record_tags. intros H. inv_bind H as ts Hts.
  apply mapM_result_Forall2 in H. clear Hts.
  induction H as [|t r ? ? Hr _ IH]; [constructor|].
  constructor; [|done]. inv_bind Hr as n Hn. by apply fix_encoding_Ok_str_or_falsy in Hr.
Qed.

Lemma scan_media_good att_data ph ph' :
  scan_media str_lower att_data ph = Ok ph' →
  Forall (good_path str_lower) ph → Forall (good_path str_lower) ph'.
Proof.
  unfold scan_media. intros H Hph. inv_bind H as m Hm.
  destruct (py_truthy m); [|by injection H as <-].
  inv_bind H as media Hmedia. inv_bind H as uri Huri.
  destruct (py_truthy uri) eqn:Htr; [|by injection H as <-].
  destruct uri as [| | |u| |]; try discriminate.
  destruct (contains (lit "sticker") (str_lower u)) eqn:Hst; simpl in H;
    injection H as <-; [done|].
  apply Forall_app. split; [done|]. constructor; [|constructor].
  split; [|done]. by destruct u.
Qed.

Lemma for_each_invariant {A S} (body : A → S → result S) (I : S → Prop) :
  (∀ x s s', body x s = Ok s' → I s → I s') →
  ∀ l s s', for_each body l s = Ok s' → I s → I s'.
Proof.
  intros Hb. induction l as [|x l IH]; intros s s' H Hs.
  { by injection H as <-. }
  simpl in H. inv_bind H as s1 Hs1. eauto.
Qed.

Lemma record_attachments_good item ph url :
  record_attachments str_lower item = Ok (ph, url) → Forall (good_path str_lower) ph.
Proof.
  unfold record_attachments. intros H. inv_bind H as atts Hatts.
  apply (for_each_invariant _ (λ st, Forall (good_path str_lower) (fst st)))
    in H; [done| |constructor].
  intros att st st' Hstep Hst. unfold scan_attachment in Hstep.
  inv_bind Hstep as entries He.
  apply (for_each_invariant _ (λ st, Forall (good_path str_lower) (fst st)))
    in Hstep; [done| |done].
  intros e [ph0 u0] st1 Hs Hph0. unfold scan_att_data in Hs.
  inv_bind Hs as ph1 Hph1. inv_bind Hs as u1 Hu1. injection Hs as <-.
  simpl in *. by apply (scan_media_good _ _ _ Hph1).
Qed.

(** X5: the file names of every Post that [extract_posts_from_json] returns are
    the [Path(p).name] of its photo paths, one for one and in the same order. *)
Theorem extracted_filenames_follow_paths data posts :
  extract_posts_from_json str_lower path_name local_date_string data
    = Ok posts →
  Forall (λ p, photo_filenames p = map path_name (photo_paths p)
               ∧ length (photo_filenames p) = length (photo_paths p)) posts.
Proof.
  apply extract_posts_Forall.
  intros item t text ti tg ph url post _ _ _ _ _ H.
  unfold new_FacebookPost in H. inv_bind H as d Hd. injection H as <-.
  simpl. split; [done | apply length_map].
Qed.

(** X6: no photo path of a returned Post is empty, and none holds "sticker" once
    put in lower case. *)
Theorem extracted_photo_paths_are_no_stickers data posts :
  extract_posts_from_json str_lower path_name local_date_string data
    = Ok posts →
  Forall (λ p, Forall (λ u, u ≠ []
                 ∧ contains (lit "sticker") (str_lower u) = false)
                (photo_paths p)) posts.
Proof.
  apply extract_posts_Forall.
  intros item t text ti tg ph url post _ _ _ _ Hatt H.
  apply new_FacebookPost_fields in H as (_ & _ & -> & _).
  by apply record_attachments_good in Hatt.
Qed.

(** X7: in every returned Post the text is a string, and the title and each tag
    are either a string or a falsy value that [fix_encoding] passed through. *)
Theorem extracted_fields_are_strings data posts :
  extract_posts_from_json str_lower path_name local_date_string data
    = Ok posts →
  Forall (λ p, is_str (post_text p) = true
               ∧ (is_str (title p) = true ∨ py_truthy (title p) = false)
               ∧ Forall (λ t, is_str t = true ∨ py_truthy t = false) (tags p))
         posts.
Proof.
  apply extract_posts_Forall.
  intros item t text ti tg ph url post _ Htext Hti Htg _ H.
  apply new_FacebookPost_fields in H as (_ & -> & _ & -> & -> & _).
  split; [by apply record_text_str in Htext|]. split.
  - inv_bind Hti as v Hv. by apply fix_encoding_Ok_str_or_falsy in Hti.
  - by apply record_tags_str_or_falsy in Htg.
Qed.

(** X8: for a document whose records have an integer for time stamp, or
    none, the date string of a returned Post is empty when its time stamp is
    0 and is the formatted local time of the time stamp otherwise. *)
Theorem extracted_date_string items posts :
  Forall (λ item, ∃ t : Z,
            py_get item (lit "timestamp") (PInt 0) = Ok (PInt t)) items →
  extract_posts_from_json str_lower path_name local_date_string (PList items)
    = Ok posts →
  Forall (λ p, if timestamp p =? 0 then date_string p = []
               else local_date_string (timestamp p) = Ok (date_string p))
         posts.
Proof.
  intros _. apply extract_posts_Forall.
  intros item t text ti tg ph url post _ _ _ _ _ H.
  unfold new_FacebookPost in H. inv_bind H as d Hd. injection H as <-.
  simpl. destruct (t =? 0); [by injection Hd as <- | done].
Qed.

End ExtractionInvariants.

Section ExtractionOrder.

Variable str_lower : pystr → pystr.
Variable path_name : pystr → pystr.
Variable local_date_string : Z → result pystr.

Lemma for_each_extract_sublist items : ∀ posts seen st',
  for_each (extract_item str_lower path_name local_date_string) items
    (posts, seen) = Ok st' →
  ∃ ts new,
    mapM record_timestamp items = Ok ts
    ∧ fst st' = posts ++ new
    ∧ sublist (map timestamp new) ts.
Proof.
  induction items as [|item items IH]; intros posts seen st' H.
  { injection H as <-. exists [], []. by rewrite app_nil_r. }
  simpl in H. inv_bind H as st1 Hst1. destruct st1 as [posts1 seen1].
  apply IH in H as (ts & new & Hts & Hnew & Hsub).
  apply extract_item_Ok in Hst1 as (t & Ht & Hcase).
  exists (t :: ts). simpl. rewrite Ht, Hts. simpl.
  destruct Hcase as [(_ & -> & _) | (_ & _ & [-> | (post & -> & Hpt & _)])].
  - exists new. split; [done|]. split; [done|]. by apply sublist_cons.
  - exists new. split; [done|]. split; [done|]. by apply sublist_cons.
  - exists (post :: new). split; [done|]. split.
    + by rewrite Hnew, <- app_assoc.
    + simpl. rewrite Hpt. by apply sublist_skip.
Qed.

(** X9: the Posts come out in the order of their records: their time stamps are a
    subsequence of the time stamps of the records. *)
Theorem extracted_posts_keep_record_order items posts :
  extract_posts_from_json str_lower path_name local_date_string (PList items)
    = Ok posts →
  ∃ ts, mapM record_timestamp items = Ok ts
        ∧ sublist (map timestamp posts) ts.
Proof.
  unfold extract_posts_from_json. simpl. intros H. inv_bind H as st Hst.
  injection H as <-. destruct st as [posts' seen'].
  apply for_each_extract_sublist in Hst as (ts & new & Hts & Hnew & Hsub).
  simpl in Hnew. subst posts'. by exists ts.
Qed.

End ExtractionOrder.

(** X10: the text of a record is taken from the first entry of "data" with a truthy
    "post"; the entries after it are not looked at, whatever they are. *)
Theorem first_post_entry_wins (skipped later : list pyval) (d p : pyval) :
  Forall (λ e, ∃ v, py_get e (lit "post") PNone = Ok v ∧ py_truthy v = false)
         skipped →
  py_getitem d (lit "post") = Ok p →
  py_truthy p = true →
  scan_post_text (skipped ++ d :: later) = fix_encoding p.
Proof.
  intros Hsk Hd Hp. induction Hsk as [|e skipped (v & Hv & Hfalse) _ IH].
  - simpl. rewrite (py_getitem_get _ _ _ PNone Hd). simpl.
    by rewrite Hp, Hd.
  - simpl. rewrite Hv. simpl. by rewrite Hfalse.
Qed.

Section WrongShape.

Variable str_lower : pystr → pystr.
Variable path_name : pystr → pystr.
Variable local_date_string : Z → result pystr.

(** X11: a document that parses but is no list of objects raises: a JSON object
    with a member and a non-empty string raise [AttributeError], null, a
    Boolean and a number raise [TypeError], a list whose first element is no
    object raises [AttributeError]; an empty object and an empty string are
    taken as no records. *)
Theorem document_of_wrong_shape_raises :
  (∀ kv, kv ≠ [] →
     extract_posts_from_json str_lower path_name local_date_string (PDict kv)
     = Err AttributeError) ∧
  (∀ s, s ≠ [] →
     extract_posts_from_json str_lower path_name local_date_string (PStr s)
     = Err AttributeError) ∧
  extract_posts_from_json str_lower path_name local_date_string PNone
    = Err TypeError ∧
  (∀ b, extract_posts_from_json str_lower path_name local_date_string
          (PBool b) = Err TypeError) ∧
  (∀ z, extract_posts_from_json str_lower path_name local_date_string
          (PInt z) = Err TypeError) ∧
  (∀ items item,
     (∀ kv, item ≠ PDict kv) →
     extract_posts_from_json str_lower path_name local_date_string
       (PList (item :: items)) = Err AttributeError) ∧
  extract_posts_from_json str_lower path_name local_date_string (PDict [])
    = Ok [] ∧
  extract_posts_from_json str_lower path_name local_date_string (PStr [])
    = Ok [].
Proof.
  unfold extract_posts_from_json. repeat split.
  - intros [|[k v] kv] Hne; [done|]. reflexivity.
  - intros [|c s] Hne; [done|]. reflexivity.
  - intros items item Hitem. simpl. unfold extract_item, record_timestamp.
    destruct item; try reflexivity. by destruct (Hitem kv).
Qed.

End WrongShape.

(** ** [load_and_merge_posts]: which posts come out *)

Lemma elem_of_concat {A} (x : A) (ls : list (list A)) :
  x ∈ concat ls ↔ ∃ l, x ∈ l ∧ l ∈ ls.
Proof.
  induction ls as [|l ls IH]; simpl.
  - split; [by intros ?%elem_of_nil | by intros (? & _ & ?%elem_of_nil)].
  - rewrite elem_of_app, IH. split.
    + intros [?|(l' & ? & ?)]; [exists l | exists l']; split; try done;
        [by left | by right].
    + intros (l' & Hx & [->|?]%elem_of_cons); [by left | right; by exists l'].
Qed.

Lemma elem_of_first_occurrences p posts : ∀ seen,
  p ∈ first_occurrences seen posts → p ∈ posts ∧ timestamp p ∉ seen.
Proof.
  induction posts as [|q posts IH]; intros seen; simpl.
  { by intros ?%elem_of_nil. }
  case_bool_decide as Hq.
  - intros [? ?]%IH. split; [by right | done].
  - intros [->|[? ?]%IH]%elem_of_cons; [split; [by left | done]|].
    split; [by right | set_solver].
Qed.

Lemma first_occurrence_kept p l1 l2 : ∀ seen,
  timestamp p ∉ seen → timestamp p ∉ map timestamp l1 →
  p ∈ first_occurrences seen (l1 ++ p :: l2).
Proof.
  induction l1 as [|q l1 IH]; intros seen Hseen Hl1; simpl.
  { rewrite bool_decide_eq_false_2 by done. by left. }
  simpl in Hl1. apply not_elem_of_cons in Hl1 as [Hne Hl1].
  case_bool_decide; [by apply IH|].
  right. apply IH; [set_solver | done].
Qed.

Lemma first_occurrences_timestamps t posts : ∀ seen,
  t ∈ map timestamp (first_occurrences seen posts)
  ↔ t ∈ map timestamp posts ∧ t ∉ seen.
Proof.
  induction posts as [|q posts IH]; intros seen; simpl.
  { split; [by intros ?%elem_of_nil | by intros [?%elem_of_nil _]]. }
  case_bool_decide as Hq; simpl; rewrite ?elem_of_cons, IH.
  - split; [naive_solver|]. intros [[->|?] ?]; [done | naive_solver].
  - split.
    + intros [->|[? ?]]; [split; [by left | done]|].
      split; [by right | set_solver].
    + intros [[->|?] ?]; [by left|].
      destruct (decide (t = timestamp q)) as [->|?]; [by left|].
      right. split; [done | set_solver].
Qed.

Lemma first_occurrences_all_seen posts : ∀ seen,
  (∀ p, p ∈ posts → timestamp p ∈ seen) → first_occurrences seen posts = [].
Proof.
  induction posts as [|q posts IH]; intros seen H; simpl; [done|].
  rewrite bool_decide_eq_true_2 by (apply H; left).
  apply IH. intros p Hp. apply H. by right.
Qed.

Lemma first_occurrences_app l1 : ∀ seen l2,
  first_occurrences seen (l1 ++ l2)
  = first_occurrences seen l1
    ++ first_occurrences (list_to_set (map timestamp l1) ∪ seen) l2.
Proof.
  induction l1 as [|q l1 IH]; intros seen l2; simpl.
  { f_equal. set_solver. }
  case_bool_decide as Hq.
  - rewrite IH. do 2 f_equal. set_solver.
  - simpl. rewrite IH. do 3 f_equal. set_solver.
Qed.

Lemma mapM_result_app {A B} (f : A → result B) l1 l2 :
  mapM f (l1 ++ l2)
  = (k1 ← mapM f l1; k2 ← mapM f l2; Ok (k1 ++ k2)).
Proof.
  induction l1 as [|x l1 IH]; simpl.
  { by destruct (mapM f l2). }
  destruct (f x) as [y|]; simpl; [|done]. rewrite IH.
  destruct (mapM f l1) as [k1|]; simpl; [|done].
  by destruct (mapM f l2).
Qed.

Lemma strict_of_NoDup (l : list FacebookPost) :
  StronglySorted (λ p q, timestamp q ≤ timestamp p) l →
  NoDup (map timestamp l) →
  StronglySorted (λ p q, timestamp q < timestamp p) l.
Proof.
  induction 1 as [|p l Hs IH Hp]; intros Hnd; [constructor|].
  simpl in Hnd. apply NoDup_cons in Hnd as [Hnin Hnd].
  constructor; [by apply IH|].
  rewrite Forall_forall in Hp |- *. intros q Hq.
  specialize (Hp q Hq).
  assert (timestamp q ≠ timestamp p); [|lia].
  intros Heq. apply Hnin. rewrite <- Heq. apply list_elem_of_fmap.
  by exists q.
Qed.

Section LoaderResults.

Variable str_lower : pystr → pystr.
Variable path_name : pystr → pystr.
Variable local_date_string : Z → result pystr.
Variable json_load : pystr → result pyval.

Lemma load_and_merge_posts_Ok files posts :
  snd (load_and_merge_posts str_lower path_name local_date_string json_load
         files) = Ok posts
  ↔ ∃ batches,
      mapM (file_posts str_lower path_name local_date_string json_load) files
        = Ok batches
      ∧ posts = sort_desc timestamp (first_occurrences ∅ (concat batches)).
Proof.
  rewrite load_and_merge_posts_snd, accepted_posts_encounter_order.
  unfold encounter_order.
  destruct (mapM _ files) as [batches|e]; simpl.
  - split; [intros [= <-]; by exists batches | by intros (? & [= <-] & ->)].
  - split; [done | by intros (? & ? & _)].
Qed.

Lemma file_posts_NoDup f batch :
  file_posts str_lower path_name local_date_string json_load f = Ok batch →
  NoDup (map timestamp batch).
Proof.
  unfold file_posts.
  destruct (json_load f ≫= _) as [posts|e] eqn:E.
  - intros [= <-]. inv_bind E as data Hdata.
    by apply extract_posts_from_json_inv in E as [? _].
  - destruct e; try discriminate. intros [= <-]. constructor.
Qed.

Lemma batches_timestamps files batches t :
  Forall2 (λ f b, file_posts str_lower path_name local_date_string json_load f
                  = Ok b) files batches →
  t ∈ map timestamp (concat batches)
  ↔ ∃ f batch,
      f ∈ files
      ∧ file_posts str_lower path_name local_date_string json_load f
        = Ok batch
      ∧ t ∈ map timestamp batch.
Proof.
  intros Hb. split.
  - intros (p & -> & (batch & Hp & Hbatch)%elem_of_concat)%list_elem_of_fmap.
    apply list_elem_of_lookup in Hbatch as [i Hi].
    destruct (Forall2_lookup_r _ _ _ _ _ Hb Hi) as (f & Hf & Hfb).
    exists f, batch. split; [by eapply list_elem_of_lookup_2|].
    split; [done|]. apply list_elem_of_fmap. by exists p.
  - intros (f & batch & Hf & Hfb & (p & -> & Hp)%list_elem_of_fmap).
    apply list_elem_of_lookup in Hf as [i Hi].
    destruct (Forall2_lookup_l _ _ _ _ _ Hb Hi) as (batch' & Hi' & Hfb').
    rewrite Hfb in Hfb'. injection Hfb' as <-.
    apply list_elem_of_fmap. exists p. split; [done|].
    apply elem_of_concat. exists batch. split; [done|].
    by eapply list_elem_of_lookup_2.
Qed.

(** X12: a time stamp is in the collection [load_and_merge_posts] returns exactly
    when a Post extracted from one of the files has it: merging loses no time
    stamp and invents none. *)
Theorem load_and_merge_posts_timestamps files posts :
  snd (load_and_merge_posts str_lower path_name local_date_string json_load
         files) = Ok posts →
  ∀ t, t ∈ map timestamp posts
       ↔ ∃ f batch,
           f ∈ files
           ∧ file_posts str_lower path_name local_date_string json_load f
             = Ok batch
           ∧ t ∈ map timestamp batch.
Proof.
  intros (batches & Hb & ->)%load_and_merge_posts_Ok t.
  rewrite (Permutation_map timestamp (sort_desc_perm timestamp _)).
  rewrite first_occurrences_timestamps.
  rewrite <- (batches_timestamps files batches t)
    by (by apply mapM_result_Forall2).
  set_solver.
Qed.

(** X13: a Post extracted from a file is in the collection returned whenever no
    earlier file of the list yields a Post with its time stamp. *)
Theorem first_file_wins pre f suf batch q posts :
  snd (load_and_merge_posts str_lower path_name local_date_string json_load
         (pre ++ f :: suf)) = Ok posts →
  file_posts str_lower path_name local_date_string json_load f = Ok batch →
  q ∈ batch →
  (∀ g b, g ∈ pre →
     file_posts str_lower path_name local_date_string json_load g = Ok b →
     timestamp q ∉ map timestamp b) →
  q ∈ posts.
Proof.
  intros (batches & Hb & ->)%load_and_merge_posts_Ok Hf Hq Hpre.
  rewrite sort_desc_perm.
  rewrite mapM_result_app in Hb. inv_bind Hb as k1 Hk1.
  simpl in Hb. rewrite Hf in Hb. simpl in Hb.
  inv_bind Hb as k2 Hk2. injection Hb as <-.
  inv_bind Hk2 as k3 Hk3. injection Hk2 as <-.
  apply list_elem_of_split in Hq as (b1 & b2 & ->).
  rewrite concat_app. simpl. rewrite <- !app_assoc, app_assoc. simpl.
  apply first_occurrence_kept; [set_solver|].
  rewrite map_app. apply not_elem_of_app. split.
  - intros (p & Hpq & (b & Hp & Hbk)%elem_of_concat)%list_elem_of_fmap.
    apply mapM_result_Forall2 in Hk1.
    apply list_elem_of_lookup in Hbk as [i Hi].
    destruct (Forall2_lookup_r _ _ _ _ _ Hk1 Hi) as (g & Hg & Hgb).
    apply (Hpre g b); [by eapply list_elem_of_lookup_2 | done|].
    rewrite Hpq. apply list_elem_of_fmap. by exists p.
  - apply file_posts_NoDup in Hf. rewrite map_app in Hf. simpl in Hf.
    apply NoDup_app in Hf as (_ & Hf & _). intros Hin. apply (Hf _ Hin). by left.
Qed.

(** X14: listing files a second time, after the list, changes nothing in what
    [load_and_merge_posts] returns. *)
Theorem files_listed_again_change_nothing files again :
  (∀ g, g ∈ again → g ∈ files) →
  snd (load_and_merge_posts str_lower path_name local_date_string json_load
         (files ++ again))
  = snd (load_and_merge_posts str_lower path_name local_date_string json_load
           files).
Proof.
  intros Hagain.
  rewrite !load_and_merge_posts_snd, !accepted_posts_encounter_order.
  unfold encounter_order. rewrite mapM_result_app.
  destruct (mapM _ files) as [batches|e] eqn:Hb; simpl; [|done].
  apply mapM_result_Forall2 in Hb.
  assert (∃ more,
    mapM (file_posts str_lower path_name local_date_string json_load) again
      = Ok more
    ∧ ∀ b, b ∈ more → b ∈ batches) as (more & -> & Hmore).
  { clear -Hb Hagain. induction again as [|g again IH].
    { exists []. split; [done|]. by intros b ?%elem_of_nil. }
    destruct IH as (more & Hm & Hmore).
    { intros g' Hg'. apply Hagain. by right. }
    assert (g ∈ files) as [i Hi]%list_elem_of_lookup by (apply Hagain; left).
    destruct (Forall2_lookup_l _ _ _ _ _ Hb Hi) as (b & Hbi & Hgb).
    exists (b :: more). simpl. rewrite Hgb, Hm. split; [done|].
    intros b' [->|?]%elem_of_cons; [by eapply list_elem_of_lookup_2 | eauto]. }
  simpl. rewrite concat_app, first_occurrences_app.
  rewrite (first_occurrences_all_seen (concat more)), app_nil_r; [done|].
  intros p (b & Hp & Hbm)%elem_of_concat.
  apply elem_of_union_l, elem_of_list_to_set, list_elem_of_fmap.
  exists p. split; [done|]. apply elem_of_concat. exists b. eauto.
Qed.

End LoaderResults.

Lemma strictly_descending_unique (l1 : list Z) : ∀ l2,
  StronglySorted (λ a b, b < a) l1 → StronglySorted (λ a b, b < a) l2 →
  (∀ t, t ∈ l1 ↔ t ∈ l2) → l1 = l2.
Proof.
  induction l1 as [|a1 l1 IH]; intros l2 H1 H2 Hel.
  { destruct l2 as [|a2 l2]; [done|].
    assert (a2 ∈ []) as ?%elem_of_nil by (apply Hel; left). done. }
  destruct l2 as [|a2 l2].
  { assert (a1 ∈ []) as ?%elem_of_nil by (apply Hel; left). done. }
  apply StronglySorted_inv in H1 as [H1 Ha1].
  apply StronglySorted_inv in H2 as [H2 Ha2].
  rewrite Forall_forall in Ha1, Ha2.
  assert (a1 = a2) as <-.
  { assert (a1 ∈ a2 :: l2) as [?|Hin1]%elem_of_cons by (apply Hel; left);
      [done|].
    assert (a2 ∈ a1 :: l1) as [?|Hin2]%elem_of_cons by (apply Hel; left);
      [done|].
    apply Ha2 in Hin1. apply Ha1 in Hin2. lia. }
  f_equal. apply IH; [done | done |].
  intros t. split.
  - intros Ht. assert (t ∈ a1 :: l2) as [->|?]%elem_of_cons
      by (apply Hel; by right); [|done].
    apply Ha1 in Ht. lia.
  - intros Ht. assert (t ∈ a1 :: l1) as [->|?]%elem_of_cons
      by (apply Hel; by right); [|done].
    apply Ha2 in Ht. lia.
Qed.

Lemma StronglySorted_map_timestamp (l : list FacebookPost) :
  StronglySorted (λ p q, timestamp q < timestamp p) l →
  StronglySorted (λ a b, b < a) (map timestamp l).
Proof.
  induction 1 as [|p l _ IH Hp]; simpl; constructor; [done|].
  apply Forall_forall. intros t (q & -> & Hq)%list_elem_of_fmap.
  revert q Hq. by apply Forall_forall.
Qed.

Lemma mapM_result_is_Ok {A B} (f : A → result B) l :
  (∃ k, mapM f l = Ok k) ↔ ∀ x, x ∈ l → ∃ y, f x = Ok y.
Proof.
  induction l as [|x l IH]; simpl.
  { split; [by intros _ ? ?%elem_of_nil | by exists []]. }
  split.
  - intros (k & H). inv_bind H as y Hy. inv_bind H as k' Hk'.
    intros x' [->|Hx']%elem_of_cons; [by exists y|].
    apply (proj1 IH); [by exists k' | done].
  - intros H. destruct (H x) as (y & ->); [by left|].
    destruct (proj2 IH) as (k & ->); [intros; apply H; by right|].
    by eexists.
Qed.

Section LoaderOrder.

Variable str_lower : pystr → pystr.
Variable path_name : pystr → pystr.
Variable local_date_string : Z → result pystr.
Variable json_load : pystr → result pyval.

Lemma load_result_strict files posts :
  snd (load_and_merge_posts str_lower path_name local_date_string json_load
         files) = Ok posts →
  StronglySorted (λ p q, timestamp q < timestamp p) posts.
Proof.
  intros (batches & _ & ->)%load_and_merge_posts_Ok.
  apply strict_of_NoDup; [apply sort_desc_sorted|].
  rewrite (Permutation_map timestamp (sort_desc_perm timestamp _)).
  apply first_occurrences_NoDup.
Qed.

(** X15: when a run succeeds, so does the run on the same files in any other
    order, and the two collections carry the same time stamps in the same
    order; the order of the files only decides which Post stands for a time
    stamp. *)
Theorem file_order_keeps_the_timestamps files files' posts :
  snd (load_and_merge_posts str_lower path_name local_date_string json_load
         files) = Ok posts →
  files ≡ₚ files' →
  ∃ posts',
    snd (load_and_merge_posts str_lower path_name local_date_string json_load
           files') = Ok posts'
    ∧ map timestamp posts' = map timestamp posts.
Proof.
  intros Hok Hperm.
  assert (∃ posts',
    snd (load_and_merge_posts str_lower path_name local_date_string json_load
           files') = Ok posts') as (posts' & Hok').
  { apply load_and_merge_posts_Ok in Hok as (batches & Hb & _).
    destruct (proj2 (mapM_result_is_Ok
      (file_posts str_lower path_name local_date_string json_load) files'))
      as (batches' & Hb').
    { intros f Hf. rewrite <- Hperm in Hf.
      by apply (proj1 (mapM_result_is_Ok _ files)); [exists batches|]. }
    eexists. apply load_and_merge_posts_Ok. by exists batches'. }
  exists posts'. split; [done|].
  apply strictly_descending_unique.
  - by apply StronglySorted_map_timestamp, (load_result_strict files').
  - by apply StronglySorted_map_timestamp, (load_result_strict files).
  - intros t.
    apply load_and_merge_posts_Ok in Hok as (batches & Hb & ->).
    apply load_and_merge_posts_Ok in Hok' as (batches' & Hb' & ->).
    rewrite !(Permutation_map timestamp (sort_desc_perm timestamp _)).
    rewrite !first_occurrences_timestamps.
    rewrite (batches_timestamps str_lower path_name local_date_string
               json_load files' batches' t)
      by (by apply mapM_result_Forall2).
    rewrite (batches_timestamps str_lower path_name local_date_string
               json_load files batches t)
      by (by apply mapM_result_Forall2).
    by setoid_rewrite Hperm.
Qed.

(** X16: an exception other than [JSONDecodeError], from opening, reading or
    extracting a file, ends the run with that exception: the failing file is
    the last one announced and no later file is processed. *)
Theorem other_failure_aborts_the_run pre f suf e :
  is_ok (snd (load_and_merge_posts str_lower path_name local_date_string
                json_load pre)) = true →
  (json_load f
     ≫= extract_posts_from_json str_lower path_name local_date_string)
    = Err e →
  (∀ msg, e ≠ JSONDecodeError msg) →
  snd (load_and_merge_posts str_lower path_name local_date_string json_load
         (pre ++ f :: suf)) = Err e
  ∧ fst (load_and_merge_posts str_lower path_name local_date_string json_load
           (pre ++ f :: suf))
    = fst (load_and_merge_posts str_lower path_name local_date_string
             json_load pre) ++ [Processing f].
Proof.
  intros Hpre Hf He.
  rewrite !load_and_merge_posts_snd, !accepted_posts_snd,
    !load_and_merge_posts_fst in *.
  rewrite load_files_app.
  destruct (load_files _ _ _ _ pre _) as [out [st'|e']]; [|done].
  rewrite load_files_cons.
  assert (load_file str_lower path_name local_date_string json_load f st'
          = ([Processing f], Err e)) as ->.
  { unfold load_file, load_body. rewrite <- bind_assoc, Hf. simpl.
    destruct e; try done. by destruct (He msg). }
  done.
Qed.

End LoaderOrder.

(** ** [generate_html]: photos, and when it succeeds *)

Section RenderMore.

Variable make_output_dirs : result unit.
Variable src_exists : pystr → result bool.
Variable src_name : pystr → pystr.
Variable dest_exists : pystr → result bool.
Variable copy2 : pystr → result unit.
Variable open_index : result unit.
Variable save_index : result unit.

#[local] Opaque tpl lit.

(** A photo that is found is in the photos directory when [copy_photo]
    returns, and what was copied before stays copied. *)
Lemma copy_photo_there p copied r copied' :
  copy_photo src_exists src_name dest_exists copy2 p copied = Ok (r, copied') →
  (∀ n, n ∈ copied → n ∈ copied')
  ∧ (src_exists p = Ok true →
     src_name p ∈ copied' ∨ dest_exists (src_name p) = Ok true).
Proof.
  unfold copy_photo. intros H. inv_bind H as found Hfound.
  destruct found; [|injection H as _ <-; split; [done | congruence]].
  cbv zeta in H. inv_bind H as there Hthere. inv_bind H as c Hc.
  injection H as _ <-. destruct there.
  - injection Hc as <-. split; [done|]. intros _.
    destruct (bool_decide (src_name p ∈ copied)) eqn:Hin.
    + left. by apply bool_decide_eq_true in Hin.
    + by right.
  - inv_bind Hc as u Hu. injection Hc as <-. split.
    + intros n Hn. apply elem_of_app. by left.
    + intros _. left. apply elem_of_app. right. by left.
Qed.

Lemma photo_copies_there paths : ∀ copied copies copied',
  photo_copies src_exists src_name dest_exists copy2 paths copied
    = Ok (copies, copied') →
  (∀ n, n ∈ copied → n ∈ copied')
  ∧ ∀ p, p ∈ paths → src_exists p = Ok true →
      src_name p ∈ copied' ∨ dest_exists (src_name p) = Ok true.
Proof.
  induction paths as [|q paths IH]; intros copied copies copied' H.
  { injection H as _ <-. split; [done|]. by intros p ?%elem_of_nil. }
  cbn [photo_copies] in H. inv_bind H as r Hr. destruct r as [ref c1].
  inv_bind H as r' Hr'. destruct r' as [rest c2].
  assert (copied' = c2) as -> by (by destruct (is_empty ref); injection H).
  apply copy_photo_there in Hr as [Hmono1 Hq].
  apply IH in Hr' as [Hmono2 Hrest]. split; [by auto|].
  intros p [->|Hp]%elem_of_cons Hfound; [|by auto].
  destruct (Hq Hfound) as [?|?]; [left; auto | by right].
Qed.

(** X18: when the loop over the photo paths of a post ends, there is one
    image element for each path whose source file is found, and a file of
    the name of each of them is in the photos directory: copied during the
    run, or there before it. *)
Theorem one_image_per_existing_photo paths copied copies copied' :
  photo_copies src_exists src_name dest_exists copy2 paths copied
    = Ok (copies, copied') →
  length copies = length (List.filter (photo_found src_exists) paths)
  ∧ ∀ p, p ∈ paths → src_exists p = Ok true →
      src_name p ∈ copied' ∨ dest_exists (src_name p) = Ok true.
Proof.
  intros H. split.
  - apply photo_copies_Ok in H as ->. by rewrite length_map.
  - by apply photo_copies_there in H as [_ ?].
Qed.

Lemma photo_copies_none paths copied :
  (∀ p, p ∈ paths → src_exists p = Ok false) →
  photo_copies src_exists src_name dest_exists copy2 paths copied
  = Ok ([], copied).
Proof.
  induction paths as [|p paths IH]; intros H; [done|].
  cbn [photo_copies]. unfold copy_photo at 1.
  rewrite (H p) by left. simpl. rewrite IH; [done|].
  intros q Hq. apply H. by right.
Qed.

(** X19: when none of the photo files of a post exists, the post has no photos
    block and its item is the one of the same post without photos. *)
Theorem missing_photos_are_left_out (post : FacebookPost) copied :
  (∀ p, p ∈ photo_paths post → src_exists p = Ok false) →
  photo_html src_exists src_name dest_exists copy2 post copied
  = Ok ([], copied)
  ∧ html_item src_exists src_name dest_exists copy2 post copied
    = html_item src_exists src_name dest_exists copy2 (without_photos post)
        copied.
Proof.
  intros H.
  assert (Hph : photo_html src_exists src_name dest_exists copy2 post copied
                = Ok ([], copied)).
  { unfold photo_html. destruct (is_empty (photo_paths post)); [done|].
    by rewrite photo_copies_none. }
  split; [done|]. unfold html_item. rewrite Hph. done.
Qed.

Lemma py_join_Ok sep l :
  Forall (λ t, is_str t = true) l → ∃ j, py_join sep l = Ok j.
Proof.
  induction 1 as [|t l Ht _ IH]; [by eexists|].
  destruct t as [| | |s| |]; try done. simpl.
  destruct IH as (j & ->). destruct l; by eexists.
Qed.

(** What can be written *)

Lemma scalar_html_entity c :
  is_scalar c = true → forallb is_scalar (html_entity c) = true.
Proof.
  intros H. unfold html_entity.
  repeat (case_bool_decide; [vm_compute; reflexivity|]).
  simpl. by rewrite H.
Qed.

Lemma scalar_html_escape s :
  forallb is_scalar s = true → forallb is_scalar (html_escape s) = true.
Proof.
  rewrite html_escape_table. induction s as [|c s IH]; [done|].
  simpl. intros [Hc Hs]%andb_true_iff.
  rewrite forallb_app, (scalar_html_entity _ Hc). by apply IH.
Qed.

Lemma scalar_py_str_nat n : forallb is_scalar (py_str_nat n) = true.
Proof.
  unfold py_str_nat.
  induction (Nat.to_uint n) as [|d IH|d IH|d IH|d IH|d IH|d IH|d IH|d IH|d IH|d IH];
    simpl; done.
Qed.

Lemma scalar_py_join sep l : ∀ j,
  forallb is_scalar sep = true → forallb encodable l = true →
  py_join sep l = Ok j → forallb is_scalar j = true.
Proof.
  induction l as [|t l IH]; intros j Hsep Hl H.
  { by injection H as <-. }
  apply andb_true_iff in Hl as [Ht Hl].
  destruct t as [| | |s| |]; try discriminate H.
  destruct l as [|t' l]; [by injection H as <-|].
  change (py_join sep (PStr s :: t' :: l))
    with (r ← py_join sep (t' :: l); Ok (s ++ sep ++ r)) in H.
  inv_bind H as r Hr. injection H as <-.
  rewrite !forallb_app, Hsep. simpl in Ht. rewrite Ht. simpl.
  by apply IH.
Qed.

Lemma scalar_concat (l : list pystr) :
  Forall (λ s, forallb is_scalar s = true) l →
  forallb is_scalar (concat l) = true.
Proof.
  induction 1 as [|s l Hs _ IH]; [done|]. simpl.
  by rewrite forallb_app, Hs.
Qed.

(** A field guarded by its truth value and escaped. *)
Lemma guarded_escape_returns v (tpl1 tpl2 : pystr) :
  str_or_falsy v → encodable v = true →
  forallb is_scalar tpl1 = true → forallb is_scalar tpl2 = true →
  ∃ t, (if py_truthy v
        then e ← py_html_escape v; Ok (tpl1 ++ e ++ tpl2)
        else Ok []) = Ok t
       ∧ forallb is_scalar t = true.
Proof.
  intros Hv Henc H1 H2.
  destruct (py_truthy v) eqn:Ht; [|by eexists].
  destruct Hv as [Hs|Hf]; [|congruence].
  destruct v; try done. simpl. eexists. split; [done|].
  rewrite !forallb_app, H1, H2. simpl. rewrite andb_true_r.
  by apply scalar_html_escape.
Qed.

Section Returns.

(** A host on which no call of the file system raises. *)
Hypothesis dirs_made : make_output_dirs = Ok tt.
Hypothesis src_answers : ∀ p, ∃ b, src_exists p = Ok b.
Hypothesis dest_answers : ∀ n, ∃ b, dest_exists n = Ok b.
Hypothesis copies_made : ∀ p, copy2 p = Ok tt.
Hypothesis index_opened : open_index = Ok tt.
Hypothesis index_saved : save_index = Ok tt.

Lemma copy_photo_returns p copied :
  ∃ copied',
    copy_photo src_exists src_name dest_exists copy2 p copied
    = Ok (if photo_found src_exists p then lit "photos/" ++ src_name p
          else [], copied').
Proof.
  unfold copy_photo, photo_found.
  destruct (src_answers p) as [[|] ->]; simpl; [|by eexists].
  destruct (bool_decide (src_name p ∈ copied)); simpl; [by eexists|].
  destruct (dest_answers (src_name p)) as [[|] ->]; simpl; [by eexists|].
  rewrite copies_made. simpl. by eexists.
Qed.

Lemma photo_copies_returns paths : ∀ copied,
  Forall (λ p, forallb is_scalar (src_name p) = true) paths →
  ∃ copies copied',
    photo_copies src_exists src_name dest_exists copy2 paths copied
    = Ok (copies, copied')
    ∧ Forall (λ s, forallb is_scalar s = true) copies.
Proof.
  induction paths as [|p paths IH]; intros copied Hall.
  { by exists [], copied. }
  apply Forall_cons in Hall as [Hp Hall]. cbn [photo_copies].
  destruct (copy_photo_returns p copied) as (c1 & ->). simpl.
  destruct (IH c1 Hall) as (rest & c2 & -> & Hrest). simpl.
  destruct (photo_found src_exists p).
  - rewrite photos_prefix_not_empty. eexists _, _. split; [done|].
    constructor; [|done].
    rewrite !forallb_app. rewrite scalar_html_escape.
    + vm_compute. reflexivity.
    + rewrite forallb_app, Hp. vm_compute. reflexivity.
  - simpl. by eexists _, _.
Qed.

Lemma html_item_returns p copied :
  str_or_falsy (post_text p) → str_or_falsy (title p) →
  Forall (λ t, is_str t = true) (tags p) → str_or_falsy (external_url p) →
  encodable_post src_name p = true →
  ∃ item copied',
    html_item src_exists src_name dest_exists copy2 p copied
    = Ok (item, copied')
    ∧ forallb is_scalar item = true.
Proof.
  intros Htext Htitle Htags Hurl Henc. unfold encodable_post in Henc.
  repeat apply andb_true_iff in Henc as [Henc ?].
  assert (∃ photo copied',
            photo_html src_exists src_name dest_exists copy2 p copied
            = Ok (photo, copied') ∧ forallb is_scalar photo = true)
    as (photo & copied' & Hphoto & ?).
  { unfold photo_html. destruct (is_empty (photo_paths p)); [by eexists _, _|].
    destruct (photo_copies_returns (photo_paths p) copied)
      as (copies & c1 & -> & Hcopies).
    { apply Forall_forall. intros path Hpath%list_elem_of_In.
      match goal with
      | Hf : forallb _ (photo_paths p) = true |- _ =>
          exact (proj1 (forallb_forall _ _) Hf path Hpath)
      end. }
    simpl. destruct copies as [|copy copies']; cbn [is_empty]; eexists _, _;
      (split; [reflexivity|]); [done|].
    rewrite !forallb_app, (scalar_concat _ Hcopies).
    vm_compute. reflexivity. }
  assert (∃ t, text_html p = Ok t ∧ forallb is_scalar t = true)
    as (text & Ht & ?)
    by (apply guarded_escape_returns; try done; vm_compute; reflexivity).
  assert (∃ t, title_html p = Ok t ∧ forallb is_scalar t = true)
    as (ti & Hti & ?)
    by (apply guarded_escape_returns; try done; vm_compute; reflexivity).
  assert (∃ t, tags_html p = Ok t ∧ forallb is_scalar t = true)
    as (tg & Htg & ?).
  { unfold tags_html. destruct (is_empty (tags p)); [by eexists|].
    destruct (py_join_Ok (lit ", ") (tags p) Htags) as (j & Hj).
    rewrite Hj. simpl. eexists. split; [done|].
    rewrite !forallb_app, scalar_html_escape.
    - vm_compute. reflexivity.
    - eapply scalar_py_join; [|eassumption|exact Hj]. vm_compute. reflexivity. }
  assert (∃ t, external_html p = Ok t ∧ forallb is_scalar t = true)
    as (ex & Hex & ?)
    by (apply guarded_escape_returns; try done; vm_compute; reflexivity).
  assert (forallb is_scalar (date_html p) = true).
  { unfold date_html. destruct (is_empty (date_string p)); [done|].
    rewrite !forallb_app, scalar_html_escape by done.
    vm_compute. reflexivity. }
  unfold html_item. rewrite Hphoto. simpl. rewrite Ht, Hti, Htg, Hex. simpl.
  eexists _, _. split; [done|].
  rewrite !forallb_app.
  repeat match goal with
         | H : forallb is_scalar _ = true |- _ => rewrite H; clear H
         end.
  vm_compute. reflexivity.
Qed.

Lemma generate_html_returns posts :
  Forall (λ p, str_or_falsy (post_text p) ∧ str_or_falsy (title p)
               ∧ Forall (λ t, is_str t = true) (tags p)
               ∧ str_or_falsy (external_url p)
               ∧ encodable_post src_name p = true) posts →
  ∃ doc copied,
    generate_html make_output_dirs src_exists src_name dest_exists copy2
      open_index save_index posts = Ok (doc, copied).
Proof.
  intros H.
  assert (∀ copied, ∃ items copied',
            html_items src_exists src_name dest_exists copy2 posts copied
            = Ok (items, copied')
            ∧ Forall (λ s, forallb is_scalar s = true) items) as Hitems.
  { induction H as [|p posts (? & ? & ? & ? & ?) _ IH]; intros copied.
    { by exists [], copied. }
    cbn [html_items].
    destruct (html_item_returns p copied) as (item & c1 & -> & ?); try done.
    simpl. destruct (IH c1) as (rest & c2 & -> & ?). simpl.
    eexists _, _. split; [done|]. by constructor. }
  destruct (Hitems []) as (items & copied & Hi & Hscalar).
  unfold generate_html. rewrite dirs_made, Hi, index_opened. simpl.
  unfold file_write.
  rewrite !forallb_app, scalar_py_str_nat, (scalar_concat _ Hscalar).
  replace (forallb is_scalar page_head) with true by (vm_compute; reflexivity).
  replace (forallb is_scalar page_mid) with true by (vm_compute; reflexivity).
  replace (forallb is_scalar page_tail) with true by (vm_compute; reflexivity).
  simpl. rewrite index_saved. simpl. by eexists _, _.
Qed.

End Returns.

End RenderMore.

#[local] Transparent tpl lit.

(** ** From the files to the page *)

Section PipelineFacts.

Variable str_lower : pystr → pystr.
Variable path_name : pystr → pystr.
Variable local_date_string : Z → result pystr.
Variable json_load : pystr → result pyval.

Lemma file_posts_extracted f batch p :
  file_posts str_lower path_name local_date_string json_load f = Ok batch →
  p ∈ batch →
  ∃ data,
    json_load f = Ok data
    ∧ extract_posts_from_json str_lower path_name local_date_string data
      = Ok batch.
Proof.
  unfold file_posts. destruct (json_load f ≫= _) as [posts|e] eqn:E.
  - intros [= <-] _. inv_bind E as data Hdata. by exists data.
  - destruct e; try discriminate. intros [= <-]. by intros ?%elem_of_nil.
Qed.

(** X17: every Post of the collection returned was extracted from the parsed
    document of one of the files. *)
Theorem returned_posts_were_extracted files posts p :
  snd (load_and_merge_posts str_lower path_name local_date_string json_load
         files) = Ok posts →
  p ∈ posts →
  ∃ f data batch,
    f ∈ files ∧ json_load f = Ok data
    ∧ extract_posts_from_json str_lower path_name local_date_string data
      = Ok batch
    ∧ p ∈ batch.
Proof.
  intros (batches & Hb & ->)%load_and_merge_posts_Ok Hp.
  rewrite sort_desc_perm in Hp.
  apply elem_of_first_occurrences in Hp as [Hp _].
  apply elem_of_concat in Hp as (batch & Hp & Hbatch).
  apply mapM_result_Forall2 in Hb.
  apply list_elem_of_lookup in Hbatch as [i Hi].
  destruct (Forall2_lookup_r _ _ _ _ _ Hb Hi) as (f & Hf & Hfb).
  destruct (file_posts_extracted _ _ _ Hfb Hp) as (data & Hdata & Hex).
  exists f, data, batch. split; [by eapply list_elem_of_lookup_2 | done].
Qed.

Variable make_output_dirs : result unit.
Variable src_exists : pystr → result bool.
Variable src_name : pystr → pystr.
Variable dest_exists : pystr → result bool.
Variable copy2 : pystr → result unit.
Variable open_index : result unit.
Variable save_index : result unit.

(** X20: on a host where no call of the file system raises, [generate_html]
    returns for the collection [load_and_merge_posts] returns, provided
    every tag is a string, every external link is a string or falsy, and no
    string of a post, the names of its photos included, holds a surrogate:
    the text and the title of loaded posts never make it raise otherwise. *)
Theorem loaded_posts_render files posts :
  snd (load_and_merge_posts str_lower path_name local_date_string json_load
         files) = Ok posts →
  Forall (λ p, Forall (λ t, is_str t = true) (tags p)
               ∧ str_or_falsy (external_url p)
               ∧ encodable_post src_name p = true) posts →
  make_output_dirs = Ok tt →
  (∀ p, ∃ b, src_exists p = Ok b) →
  (∀ n, ∃ b, dest_exists n = Ok b) →
  (∀ p, copy2 p = Ok tt) →
  open_index = Ok tt →
  save_index = Ok tt →
  ∃ doc copied,
    generate_html make_output_dirs src_exists src_name dest_exists copy2
      open_index save_index posts = Ok (doc, copied).
Proof.
  intros Hok Hposts Hdirs Hsrc Hdest Hcopy Hopen Hsave.
  apply generate_html_returns; try done.
  rewrite Forall_forall in Hposts |- *. intros p Hp.
  destruct (Hposts p Hp) as (Htags & Hurl & Henc).
  apply load_and_merge_posts_Ok in Hok as (batches & Hb & ->).
  rewrite sort_desc_perm in Hp.
  apply elem_of_first_occurrences in Hp as [Hp _].
  apply elem_of_concat in Hp as (batch & Hp & Hbatch).
  apply mapM_result_Forall2 in Hb.
  apply list_elem_of_lookup in Hbatch as [i Hi].
  destruct (Forall2_lookup_r _ _ _ _ _ Hb Hi) as (f & Hf & Hfb).
  destruct (file_posts_extracted _ _ _ Hfb Hp) as (data & Hdata & Hex).
  assert (Htypes : Forall (λ p, is_str (post_text p) = true
                                ∧ str_or_falsy (title p)) batch).
  { revert Hex. apply extract_posts_Forall.
    intros item t text ti tg ph url post _ Htext Hti _ _ H.
    apply new_FacebookPost_fields in H as (_ & -> & _ & -> & _).
    split; [by apply record_text_str in Htext|].
    inv_bind Hti as v Hv. by apply fix_encoding_Ok_str_or_falsy in Hti. }
  rewrite Forall_forall in Htypes. destruct (Htypes p Hp) as [Ht Hti].
  repeat split; [by left | done | done | done | done].
Qed.

End PipelineFacts.

(** ** [posts_to_csv]: the file read back *)

Lemma csv_special_false c :
  csv_special c = false → c ≠ 44%N ∧ c ≠ 34%N ∧ c ≠ 13%N ∧ c ≠ 10%N.
Proof.
  unfold csv_special. rewrite !orb_false_iff, !bool_decide_eq_false.
  tauto.
Qed.

Ltac decide_chars :=
  repeat match goal with
         | |- context [bool_decide (?a = ?b)] =>
             first [ rewrite (bool_decide_eq_true_2 (a = b)) by done
                   | rewrite (bool_decide_eq_false_2 (a = b)) by done ]
         end.

Lemma csv_parse_plain f : ∀ acc row s,
  existsb csv_special f = false →
  csv_parse InPlain acc row (f ++ s) = csv_parse InPlain (acc ++ f) row s.
Proof.
  induction f as [|c f IH]; intros acc row s Hf; simpl.
  { by rewrite app_nil_r. }
  simpl in Hf. apply orb_false_iff in Hf as [Hc Hf].
  apply csv_special_false in Hc as (? & ? & ? & ?).
  decide_chars. simpl.
  rewrite IH by done. by rewrite <- app_assoc.
Qed.

Lemma csv_parse_quoted f : ∀ acc row s,
  csv_parse InQuoted acc row (replace_char 34 [34%N; 34%N] f ++ 34%N :: s)
  = csv_parse QuoteInQuoted (acc ++ f) row s.
Proof.
  induction f as [|c f IH]; intros acc row s.
  { simpl. by rewrite app_nil_r. }
  unfold replace_char. cbn [flat_map]. fold (replace_char 34 [34%N; 34%N] f).
  case_bool_decide as Hc.
  - subst c. cbn [app csv_parse]. decide_chars.
    rewrite IH. by rewrite <- app_assoc.
  - cbn [app csv_parse]. decide_chars.
    rewrite IH. by rewrite <- app_assoc.
Qed.

(** A field and the comma after it *)
Lemma csv_parse_field_comma f row s :
  csv_parse FieldStart [] row (csv_field f ++ 44%N :: s)
  = csv_parse FieldStart [] (row ++ [f]) s.
Proof.
  unfold csv_field. destruct (existsb csv_special f) eqn:Hf.
  - rewrite <- !app_assoc. cbn [app csv_parse]. decide_chars.
    rewrite csv_parse_quoted. cbn [csv_parse app]. by decide_chars.
  - destruct f as [|c f]; [cbn [app csv_parse]; by decide_chars|].
    simpl in Hf. apply orb_false_iff in Hf as [Hc Hf].
    apply csv_special_false in Hc as (? & ? & ? & ?).
    cbn [app csv_parse]. decide_chars.
    rewrite csv_parse_plain by done. cbn [csv_parse app]. by decide_chars.
Qed.

(** A field and the end of its row *)
Lemma csv_parse_field_end f row s :
  ¬ (row = [] ∧ f = []) →
  csv_parse FieldStart [] row (csv_field f ++ 13%N :: 10%N :: s)
  = cons (row ++ [f]) <$> csv_parse FieldStart [] [] s.
Proof.
  intros Hne. unfold csv_field. destruct (existsb csv_special f) eqn:Hf.
  - rewrite <- !app_assoc. cbn [app csv_parse]. decide_chars.
    rewrite csv_parse_quoted. cbn [csv_parse app]. by decide_chars.
  - destruct f as [|c f].
    + cbn [app csv_parse]. decide_chars.
      destruct row; [by destruct Hne | done].
    + simpl in Hf. apply orb_false_iff in Hf as [Hc Hf].
      apply csv_special_false in Hc as (? & ? & ? & ?).
      cbn [app csv_parse]. decide_chars.
      rewrite csv_parse_plain by done. cbn [csv_parse app]. by decide_chars.
Qed.

Lemma csv_parse_fields fields : ∀ row s,
  fields ≠ [] → ¬ (row = [] ∧ fields = [[]]) →
  csv_parse FieldStart [] row
    (str_join [44%N] (map csv_field fields) ++ 13%N :: 10%N :: s)
  = cons (row ++ fields) <$> csv_parse FieldStart [] [] s.
Proof.
  induction fields as [|f fields IH]; intros row s Hne Hrow; [done|].
  destruct fields as [|g fields].
  - simpl. apply csv_parse_field_end. intros [-> ->]. by apply Hrow.
  - change (str_join [44%N] (map csv_field (f :: g :: fields)))
      with (csv_field f ++ [44%N] ++ str_join [44%N] (map csv_field (g :: fields))).
    rewrite <- !app_assoc. cbn [app]. rewrite csv_parse_field_comma.
    rewrite IH; [|done|].
    + by rewrite <- app_assoc.
    + intros [Hr _]. by destruct row.
Qed.

Lemma csv_parse_writerow fields s :
  csv_parse FieldStart [] [] (csv_writerow fields ++ s)
  = cons fields <$> csv_parse FieldStart [] [] s.
Proof.
  unfold csv_writerow.
  destruct fields as [|f fields]; [done|].
  destruct f as [|c f]; [destruct fields as [|g fields]; [done|]|];
    cbv iota; rewrite <- app_assoc; cbn [app];
    (apply (csv_parse_fields _ []); [done | by intros [_ ?]]).
Qed.

Lemma csv_parse_rows rows :
  csv_parse FieldStart [] [] (concat (map csv_writerow rows)) = Some rows.
Proof.
  induction rows as [|r rows IH]; [done|].
  simpl. by rewrite csv_parse_writerow, IH.
Qed.

Section CsvFacts.

Variable py_repr : pyval → pystr.

Lemma file_write_Ok line written written' :
  file_write line written = (written', Ok tt) → written' = written ++ line.
Proof.
  unfold file_write. destruct (forallb is_scalar line); by intros [= <-].
Qed.

Lemma write_rows_Ok posts : ∀ written written',
  write_rows py_repr posts written = (written', Ok tt) →
  ∃ rows, mapM (csv_row py_repr) posts = Ok rows
          ∧ written' = written ++ concat (map csv_writerow rows).
Proof.
  induction posts as [|p posts IH]; intros written written' H.
  { injection H as <-. exists []. by rewrite app_nil_r. }
  cbn [write_rows] in H.
  destruct (csv_row py_repr p) as [fields|e] eqn:Hrow; [|done].
  destruct (file_write _ written) as [w [[]|e]] eqn:Hw; [|done].
  apply file_write_Ok in Hw as ->.
  apply IH in H as (rows & Hrows & ->).
  exists (fields :: rows). split.
  - simpl. by rewrite Hrow, Hrows.
  - cbn [map concat]. by rewrite app_assoc.
Qed.

(** X21: when [posts_to_csv] returns, the file reads back, by the strict reading
    of the format, as the header followed by one row of eight fields per
    post, each field as it was handed to the writer: commas, quotes and line
    breaks in a text break neither rows nor columns. *)
Theorem posts_to_csv_reads_back posts content :
  posts_to_csv py_repr posts = (content, Ok tt) →
  ∃ rows,
    mapM (csv_row py_repr) posts = Ok rows
    ∧ csv_parse FieldStart [] [] content = Some (csv_header :: rows)
    ∧ Forall (λ r, length r = 8%nat) rows.
Proof.
  unfold posts_to_csv.
  destruct (file_write _ []) as [w [[]|e]] eqn:Hw; [|done].
  apply file_write_Ok in Hw as ->. intros H.
  apply write_rows_Ok in H as (rows & Hrows & ->).
  exists rows. split; [done|]. split.
  - rewrite <- app_assoc. cbn [app].
    by rewrite csv_parse_writerow, csv_parse_rows.
  - apply mapM_result_Forall2 in Hrows. clear -Hrows.
    induction Hrows as [|p r ? ? Hr _ IH]; constructor; [|done].
    unfold csv_row in Hr. inv_bind Hr as j Hj. by injection Hr as <-.
Qed.

End CsvFacts.

Lemma py_join_Err sep l e :
  py_join sep l = Err e →
  e = TypeError ∧ Exists (λ t, is_str t = false) l.
Proof.
  induction l as [|t l IH]; [done|].
  destruct t as [| | |s| |]; simpl;
    try (intros [= <-]; split; [done | by left]).
  destruct l as [|t' l]; [done|].
  destruct (py_join sep (t' :: l)) as [r|e'] eqn:Hj; [done|].
  simpl. intros [= <-]. destruct (IH eq_refl) as [-> ?]. split; [done|].
  by right.
Qed.

Section CsvFailure.

Variable py_repr : pyval → pystr.

Lemma write_rows_app posts1 posts2 : ∀ written,
  write_rows py_repr (posts1 ++ posts2) written
  = match write_rows py_repr posts1 written with
    | (written', Ok _) => write_rows py_repr posts2 written'
    | (written', Err e) => (written', Err e)
    end.
Proof.
  induction posts1 as [|p posts1 IH]; intros written; [done|].
  cbn [app write_rows]. destruct (csv_row py_repr p); [|done].
  destruct (file_write _ written) as [w [[]|e]]; [apply IH | done].
Qed.

Lemma py_join_not_str sep l :
  Exists (λ t, is_str t = false) l → py_join sep l = Err TypeError.
Proof.
  induction l as [|t l IH]; intros H; [by apply Exists_nil in H|].
  destruct t as [| | |s| |]; try reflexivity.
  apply Exists_cons in H as [H|H]; [discriminate H|].
  destruct l as [|t' l]; [by apply Exists_nil in H|].
  change (py_join sep (PStr s :: t' :: l))
    with (r ← py_join sep (t' :: l); Ok (s ++ sep ++ r)).
  by rewrite (IH H).
Qed.

(** X22: a post with a tag that is no string makes [posts_to_csv] raise
    [TypeError] when the posts before it were written, and the file then
    holds the header and the rows of the posts before it. *)
Theorem posts_to_csv_stops_at_a_bad_tag before post after :
  snd (posts_to_csv py_repr before) = Ok tt →
  Exists (λ t, is_str t = false) (tags post) →
  posts_to_csv py_repr (before ++ post :: after)
  = (fst (posts_to_csv py_repr before), Err TypeError).
Proof.
  intros Hbefore Htag.
  assert (Hrow : csv_row py_repr post = Err TypeError).
  { unfold csv_row. by rewrite (py_join_not_str _ _ Htag). }
  unfold posts_to_csv in *.
  destruct (file_write _ []) as [w [[]|e]]; [|done].
  rewrite write_rows_app.
  destruct (write_rows py_repr before w) as [w' [[]|e]]; [|done].
  cbn [write_rows fst]. by rewrite Hrow.
Qed.

(** X23: a pipe inside a tag is not told apart from two tags: two
    collections that differ only in that give the same file. *)
Theorem pipe_in_a_tag_reads_as_two_tags before after t text ti ph fn d url
    (a b : pystr) :
  posts_to_csv py_repr
    (before
     ++ {| timestamp := t; post_text := text; title := ti; photo_paths := ph;
           photo_filenames := fn; date_string := d;
           tags := [PStr (a ++ lit "|" ++ b)]; external_url := url |}
     :: after)
  = posts_to_csv py_repr
      (before
       ++ {| timestamp := t; post_text := text; title := ti;
             photo_paths := ph; photo_filenames := fn; date_string := d;
             tags := [PStr a; PStr b]; external_url := url |}
       :: after).
Proof.
  unfold posts_to_csv. destruct (file_write _ []) as [w [[]|e]]; [|done].
  rewrite !write_rows_app.
  destruct (write_rows py_repr before w) as [w' [[]|e]]; done.
Qed.

End CsvFailure.

(** ** [extract_all_zips] *)

Lemma str_leb_refl a : str_leb a a = true.
Proof.
  induction a as [|x a IH]; [done|]. simpl.
  by rewrite N.eqb_refl, IH, orb_true_r.
Qed.

Lemma str_leb_total a : ∀ b, str_leb a b = true ∨ str_leb b a = true.
Proof.
  induction a as [|x a IH]; intros [|y b]; simpl; auto.
  destruct (N.ltb_spec x y), (N.ltb_spec y x); simpl; auto.
  assert (x = y) as -> by lia. rewrite N.eqb_refl. simpl. apply IH.
Qed.

Lemma str_leb_antisym a : ∀ b,
  str_leb a b = true → str_leb b a = true → a = b.
Proof.
  induction a as [|x a IH]; intros [|y b]; simpl; try done.
  destruct (N.ltb_spec x y), (N.ltb_spec y x); simpl; try lia.
  - destruct (N.eqb_spec y x); [lia | done].
  - destruct (N.eqb_spec x y); [lia | done].
  - assert (x = y) as -> by lia. rewrite N.eqb_refl. simpl.
    intros. f_equal. by apply IH.
Qed.

Lemma str_leb_trans a : ∀ b c,
  str_leb a b = true → str_leb b c = true → str_leb a c = true.
Proof.
  induction a as [|x a IH]; intros [|y b] [|z c]; simpl; try done.
  destruct (N.ltb_spec x y), (N.ltb_spec y z), (N.ltb_spec x z); simpl;
    try done; try lia;
    destruct (N.eqb_spec x y), (N.eqb_spec y z), (N.eqb_spec x z); simpl;
    try done; try lia.
  apply IH.
Qed.

Section SortBy.

Context {A : Type} (leb : A → A → bool).
Hypothesis leb_total : ∀ a b, leb a b = true ∨ leb b a = true.
Hypothesis leb_antisym : ∀ a b, leb a b = true → leb b a = true → a = b.
Hypothesis leb_trans : ∀ a b c, leb a b = true → leb b c = true → leb a c = true.

Lemma insert_by_perm x l : insert_by leb x l ≡ₚ x :: l.
Proof.
  induction l as [|y l IH]; simpl; [done|].
  destruct (leb x y); [done|]. rewrite IH. apply perm_swap.
Qed.

Lemma sort_by_perm l : sort_by leb l ≡ₚ l.
Proof.
  induction l as [|x l IH]; simpl; [done|]. by rewrite insert_by_perm, IH.
Qed.

Lemma insert_by_sorted x l :
  StronglySorted (λ a b, leb a b = true) l →
  StronglySorted (λ a b, leb a b = true) (insert_by leb x l).
Proof.
  induction 1 as [|y l Hs IH Hy]; simpl.
  { repeat constructor. }
  destruct (leb x y) eqn:Hxy.
  - constructor; [by constructor|]. constructor; [done|].
    eapply Forall_impl; [exact Hy|]. simpl. eauto.
  - constructor; [done|]. rewrite insert_by_perm. constructor; [|done].
    by destruct (leb_total x y) as [Hc|Hc]; [rewrite Hc in Hxy|].
Qed.

Lemma sort_by_sorted l :
  StronglySorted (λ a b, leb a b = true) (sort_by leb l).
Proof. induction l; simpl; [constructor | by apply insert_by_sorted]. Qed.

Lemma sorted_perm_unique (l1 : list A) : ∀ l2,
  StronglySorted (λ a b, leb a b = true) l1 →
  StronglySorted (λ a b, leb a b = true) l2 →
  l1 ≡ₚ l2 → l1 = l2.
Proof.
  induction l1 as [|a1 l1 IH]; intros l2 H1 H2 Hp.
  { by apply Permutation_nil in Hp. }
  destruct l2 as [|a2 l2].
  { symmetry in Hp. by apply Permutation_nil in Hp. }
  apply StronglySorted_inv in H1 as [H1 Ha1].
  apply StronglySorted_inv in H2 as [H2 Ha2].
  rewrite Forall_forall in Ha1, Ha2.
  assert (a1 = a2) as <-.
  { assert (a1 ∈ a2 :: l2) as [?|Hin1]%elem_of_cons by (rewrite <- Hp; left);
      [done|].
    assert (a2 ∈ a1 :: l1) as [?|Hin2]%elem_of_cons by (rewrite Hp; left);
      [done|].
    apply leb_antisym; auto. }
  f_equal. apply IH; [done | done |]. by apply Permutation_cons_inv in Hp.
Qed.

Lemma sort_by_perm_eq l l' : l ≡ₚ l' → sort_by leb l = sort_by leb l'.
Proof.
  intros Hp. apply sorted_perm_unique; [apply sort_by_sorted ..|].
  by rewrite !sort_by_perm.
Qed.

End SortBy.

Lemma contains_your_posts name :
  contains (lit "your_posts") name = true → contains (lit "posts") name = true.
Proof.
  rewrite !contains_occurs. intros (before & after & ->).
  exists (before ++ lit "your_"), after. by rewrite <- app_assoc.
Qed.

(** X24: the test for "posts" in line 95 is implied by the test for "your_posts":
    a name is taken as a posts file exactly when it ends in ".json" and holds
    "your_posts". *)
Theorem posts_test_is_implied (name : pystr) :
  is_posts_json name
  = ends_with (lit ".json") name && contains (lit "your_posts") name.
Proof.
  unfold is_posts_json.
  destruct (contains (lit "your_posts") name) eqn:H.
  - by rewrite (contains_your_posts _ H), !andb_true_r.
  - by rewrite !andb_false_r.
Qed.

Section ZipFacts.

Variable make_extract_dir : result unit.
Variable zip_namelist : pystr → result (list pystr).
Variable zip_extract : pystr → pystr → result unit.
Variable extracted_path : pystr → pystr.

Lemma extract_zip_files names zip_name : ∀ json_files log st',
  for_each (extract_member zip_extract extracted_path zip_name) names
    (json_files, log) = Ok st' →
  st'
  = (json_files ++ map extracted_path (List.filter is_posts_json names),
     log ++ map (Extracted zip_name)
              (List.filter (λ name, is_posts_json name || is_media name)
                 names)).
Proof.
  induction names as [|name names IH]; intros json_files log st' H.
  { injection H as <-. by rewrite !app_nil_r. }
  cbn [for_each] in H. inv_bind H as st Hst. destruct st as [files1 log1].
  apply IH in H as ->. unfold extract_member in Hst. cbn [List.filter].
  destruct (is_posts_json name); cbn [orb].
  - inv_bind Hst as u Hu. injection Hst as <- <-.
    by rewrite <- !app_assoc.
  - destruct (is_media name); [inv_bind Hst as u Hu|];
      injection Hst as <- <-; by rewrite <- ?app_assoc.
Qed.

Lemma for_each_extract_zip zips : ∀ json_files log st',
  for_each (extract_zip zip_namelist zip_extract extracted_path) zips
    (json_files, log) = Ok st' →
  ∃ lists,
    mapM zip_namelist zips = Ok lists
    ∧ st'
      = (json_files
         ++ map extracted_path (List.filter is_posts_json (concat lists)),
         log ++ concat (zip_with archive_log zips lists)).
Proof.
  induction zips as [|z zips IH]; intros json_files log st' H.
  { injection H as <-. exists []. by rewrite !app_nil_r. }
  cbn [for_each] in H. inv_bind H as st Hst.
  unfold extract_zip in Hst. cbv zeta in Hst. inv_bind Hst as names Hnames.
  apply extract_zip_files in Hst as ->.
  apply IH in H as (lists & Hlists & ->).
  exists (names :: lists). rewrite mapM_result_cons, Hnames, Hlists.
  split; [done|]. cbn [zip_with concat]. unfold archive_log at 2.
  rewrite List.filter_app, map_app. f_equal; by rewrite <- !app_assoc.
Qed.

(** X25: when [extract_all_zips] returns, it returns the paths of the posts
    files alone, archive after archive in the sorted order of the archive
    names and within an archive in the order of its name list, a name present
    in two archives twice; and what it has extracted is, for each archive in
    that order, the posts files and the members under "/posts/media/" of its
    name list, in the order of the list, and nothing else. *)
Theorem extract_all_zips_returns_the_posts_files zip_names json_files log :
  extract_all_zips make_extract_dir zip_namelist zip_extract extracted_path
    zip_names = Ok (json_files, log) →
  ∃ lists,
    mapM zip_namelist (sort_by str_leb zip_names) = Ok lists
    ∧ json_files
      = map extracted_path (List.filter is_posts_json (concat lists))
    ∧ log
      = concat (zip_with
                  (λ zip_name names,
                     Extracting zip_name
                     :: map (Extracted zip_name)
                          (List.filter
                             (λ name, is_posts_json name || is_media name)
                             names))
                  (sort_by str_leb zip_names) lists).
Proof.
  unfold extract_all_zips. intros H. inv_bind H as u Hu.
  apply for_each_extract_zip in H as (lists & ? & [= -> ->]).
  by exists lists.
Qed.

(** X26: the order in which [glob] yields the archives has no effect on what
    [extract_all_zips] does. *)
Theorem glob_order_does_not_matter zip_names zip_names' :
  zip_names ≡ₚ zip_names' →
  extract_all_zips make_extract_dir zip_namelist zip_extract extracted_path
    zip_names
  = extract_all_zips make_extract_dir zip_namelist zip_extract extracted_path
      zip_names'.
Proof.
  intros Hp. unfold extract_all_zips.
  rewrite (sort_by_perm_eq str_leb str_leb_total str_leb_antisym
             str_leb_trans zip_names zip_names' Hp).
  done.
Qed.

End ZipFacts.

(** ** The properties beyond the claims, on the samples *)

Lemma extracted_filenames_follow_paths_witness :
  ∃ posts,
    extract_posts_from_json ascii_lower posix_name utc_date_string
      sample_document = Ok posts
    ∧ Forall (λ p, photo_filenames p = map posix_name (photo_paths p)
                   ∧ length (photo_filenames p) = length (photo_paths p))
             posts.
Proof.
  destruct (extract_posts_from_json ascii_lower posix_name utc_date_string
              sample_document) as [posts|e] eqn:E;
    [|vm_compute in E; discriminate].
  exists posts. split; [reflexivity|].
  exact (extracted_filenames_follow_paths ascii_lower posix_name
           utc_date_string sample_document posts E).
Defined.

Lemma extracted_photo_paths_are_no_stickers_witness :
  ∃ posts,
    extract_posts_from_json ascii_lower posix_name utc_date_string
      sample_document = Ok posts
    ∧ Forall (λ p, Forall (λ u, u ≠ []
                     ∧ contains (lit "sticker") (ascii_lower u) = false)
                    (photo_paths p)) posts.
Proof.
  destruct (extract_posts_from_json ascii_lower posix_name utc_date_string
              sample_document) as [posts|e] eqn:E;
    [|vm_compute in E; discriminate].
  exists posts. split; [reflexivity|].
  exact (extracted_photo_paths_are_no_stickers ascii_lower posix_name
           utc_date_string sample_document posts E).
Defined.

Lemma extracted_fields_are_strings_witness :
  ∃ posts,
    extract_posts_from_json ascii_lower posix_name utc_date_string
      sample_document = Ok posts
    ∧ Forall (λ p, is_str (post_text p) = true
                   ∧ (is_str (title p) = true ∨ py_truthy (title p) = false)
                   ∧ Forall (λ t, is_str t = true ∨ py_truthy t = false)
                       (tags p)) posts.
Proof.
  destruct (extract_posts_from_json ascii_lower posix_name utc_date_string
              sample_document) as [posts|e] eqn:E;
    [|vm_compute in E; discriminate].
  exists posts. split; [reflexivity|].
  exact (extracted_fields_are_strings ascii_lower posix_name
           utc_date_string sample_document posts E).
Defined.

Lemma extracted_date_string_witness :
  ∃ posts,
    extract_posts_from_json ascii_lower posix_name utc_date_string
      (PList [text_record 1700000000 "a"; untimed_record "b"]) = Ok posts
    ∧ map (λ p, (timestamp p, date_string p)) posts
      = [(1700000000, lit "2023-11-14 22:13:20"); (0, [])]
    ∧ Forall (λ p, if timestamp p =? 0 then date_string p = []
                   else utc_date_string (timestamp p) = Ok (date_string p))
             posts.
Proof.
  destruct (extract_posts_from_json ascii_lower posix_name utc_date_string
              (PList [text_record 1700000000 "a"; untimed_record "b"]))
    as [posts|e] eqn:E; [|vm_compute in E; discriminate].
  exists posts. split; [reflexivity|]. split.
  { vm_compute in E. injection E as <-. vm_compute. reflexivity. }
  refine (extracted_date_string ascii_lower posix_name utc_date_string
            _ posts _ E).
  repeat constructor; eexists; vm_compute; reflexivity.
Defined.

Lemma extracted_posts_keep_record_order_witness :
  ∃ posts ts,
    extract_posts_from_json ascii_lower posix_name utc_date_string
      sample_document = Ok posts
    ∧ mapM record_timestamp
        [text_record 20 "a"; bare_record 5; photo_record;
         text_record 10 "b"; text_record 20 "c"] = Ok ts
    ∧ sublist (map timestamp posts) ts.
Proof.
  destruct (extract_posts_from_json ascii_lower posix_name utc_date_string
              sample_document) as [posts|e] eqn:E;
    [|vm_compute in E; discriminate].
  destruct (extracted_posts_keep_record_order ascii_lower posix_name
              utc_date_string _ posts E) as (ts & Hts & Hsub).
  by exists posts, ts.
Defined.

(** The entry after the text is no object and would raise if it were
    looked at. *)
Lemma first_post_entry_wins_witness :
  scan_post_text
    ([PDict [(lit "post", PStr [])]; PDict []]
     ++ PDict [(lit "post", PStr (lit "hi"))] :: [PInt 3])
  = fix_encoding (PStr (lit "hi")).
Proof.
  apply first_post_entry_wins.
  - repeat constructor; eexists; split; reflexivity.
  - reflexivity.
  - reflexivity.
Defined.

(** A document that wraps its records in an object. *)
Lemma document_of_wrong_shape_raises_witness :
  extract_posts_from_json ascii_lower posix_name utc_date_string
    (PDict [(lit "posts", PList [text_record 10 "hi"])])
  = Err AttributeError.
Proof.
  by apply (proj1 (document_of_wrong_shape_raises ascii_lower posix_name
                     utc_date_string)).
Defined.

Lemma load_and_merge_posts_timestamps_witness :
  ∃ posts,
    snd (run_load [lit "A.json"; lit "B.json"]) = Ok posts
    ∧ (20 ∈ map timestamp posts
       ↔ ∃ f batch,
           f ∈ [lit "A.json"; lit "B.json"]
           ∧ file_posts ascii_lower posix_name utc_date_string sample_files f
             = Ok batch
           ∧ 20 ∈ map timestamp batch).
Proof.
  destruct (snd (run_load [lit "A.json"; lit "B.json"])) as [posts|e] eqn:E;
    [|vm_compute in E; discriminate].
  exists posts. split; [reflexivity|].
  exact (load_and_merge_posts_timestamps ascii_lower posix_name
           utc_date_string sample_files _ posts E 20).
Defined.

(** The scenario of the specification: the Post of A stands for 10. *)
Lemma first_file_wins_witness :
  ∃ posts q,
    snd (run_load ([] ++ lit "A.json" :: [lit "B.json"])) = Ok posts
    ∧ file_posts ascii_lower posix_name utc_date_string sample_files
        (lit "A.json") = Ok [q]
    ∧ q ∈ posts.
Proof.
  destruct (snd (run_load ([] ++ lit "A.json" :: [lit "B.json"])))
    as [posts|e] eqn:E; [|vm_compute in E; discriminate].
  destruct (file_posts ascii_lower posix_name utc_date_string sample_files
              (lit "A.json")) as [[|q [|q' batch]]|e] eqn:Hf;
    try (vm_compute in Hf; discriminate).
  exists posts, q. split; [reflexivity|]. split; [reflexivity|].
  apply (first_file_wins ascii_lower posix_name utc_date_string sample_files
           [] (lit "A.json") [lit "B.json"] [q] q posts E Hf).
  - by left.
  - intros g b Hg. by apply elem_of_nil in Hg.
Defined.

Lemma files_listed_again_change_nothing_witness :
  snd (run_load ([lit "A.json"; lit "B.json"] ++ [lit "A.json"]))
  = snd (run_load [lit "A.json"; lit "B.json"]).
Proof.
  apply files_listed_again_change_nothing.
  intros g Hg. apply list_elem_of_singleton in Hg as ->. by left.
Defined.

Lemma file_order_keeps_the_timestamps_witness :
  ∃ posts posts',
    snd (run_load [lit "A.json"; lit "B.json"]) = Ok posts
    ∧ snd (run_load [lit "B.json"; lit "A.json"]) = Ok posts'
    ∧ map timestamp posts' = map timestamp posts.
Proof.
  destruct (snd (run_load [lit "A.json"; lit "B.json"])) as [posts|e] eqn:E;
    [|vm_compute in E; discriminate].
  destruct (file_order_keeps_the_timestamps ascii_lower posix_name
              utc_date_string sample_files _ [lit "B.json"; lit "A.json"]
              posts E) as (posts' & E' & Hts).
  { apply perm_swap. }
  by exists posts, posts'.
Defined.

(** A file that does not exist, between the two files of the scenario. *)
Lemma other_failure_aborts_the_run_witness :
  snd (run_load ([lit "A.json"] ++ lit "gone.json" :: [lit "B.json"]))
    = Err OSError
  ∧ fst (run_load ([lit "A.json"] ++ lit "gone.json" :: [lit "B.json"]))
    = fst (run_load [lit "A.json"]) ++ [Processing (lit "gone.json")].
Proof.
  apply other_failure_aborts_the_run.
  - vm_compute. reflexivity.
  - vm_compute. reflexivity.
  - intros msg. discriminate.
Defined.

Lemma returned_posts_were_extracted_witness :
  ∃ posts p,
    snd (run_load [lit "A.json"; lit "B.json"]) = Ok posts
    ∧ p ∈ posts
    ∧ ∃ f data batch,
        f ∈ [lit "A.json"; lit "B.json"] ∧ sample_files f = Ok data
        ∧ extract_posts_from_json ascii_lower posix_name utc_date_string data
          = Ok batch
        ∧ p ∈ batch.
Proof.
  destruct (snd (run_load [lit "A.json"; lit "B.json"]))
    as [[|p posts]|e] eqn:E; try (vm_compute in E; discriminate).
  exists (p :: posts), p. split; [reflexivity|]. split; [by left|].
  apply (returned_posts_were_extracted ascii_lower posix_name utc_date_string
           sample_files _ (p :: posts) p E). by left.
Defined.

(** The loop over the photos of the sample post: one image for the one
    photo that is found, and its file copied. *)
Lemma one_image_per_existing_photo_witness :
  ∃ copies,
    photo_copies sample_exists posix_name (λ _, Ok false) (λ _, Ok tt)
      (photo_paths script_post) [] = Ok (copies, [lit "a<b>.jpg"])
    ∧ length copies = 1%nat.
Proof.
  destruct (photo_copies sample_exists posix_name (λ _, Ok false) (λ _, Ok tt)
              (photo_paths script_post) []) as [[copies copied]|e] eqn:E;
    [|vm_compute in E; discriminate].
  destruct (one_image_per_existing_photo _ _ _ _ _ _ _ _ E) as [Hlen _].
  exists copies. split; [|exact Hlen].
  vm_compute in E. injection E as <- <-. vm_compute. reflexivity.
Defined.

(** Neither photo of the post exists. *)
Lemma missing_photos_are_left_out_witness :
  photo_html (λ _, Ok false) posix_name (λ _, Ok false) (λ _, Ok tt)
    script_post [] = Ok ([], [])
  ∧ html_item (λ _, Ok false) posix_name (λ _, Ok false) (λ _, Ok tt)
      script_post []
    = html_item (λ _, Ok false) posix_name (λ _, Ok false) (λ _, Ok tt)
        (without_photos script_post) [].
Proof. by apply missing_photos_are_left_out. Defined.

Lemma loaded_posts_render_witness :
  ∃ posts doc copied,
    snd (run_load [lit "A.json"; lit "B.json"]) = Ok posts
    ∧ run_html posts = Ok (doc, copied).
Proof.
  destruct (snd (run_load [lit "A.json"; lit "B.json"])) as [posts|e] eqn:E;
    [|vm_compute in E; discriminate].
  destruct (loaded_posts_render ascii_lower posix_name utc_date_string
              sample_files (Ok tt) sample_exists posix_name (λ _, Ok false)
              (λ _, Ok tt) (Ok tt) (Ok tt) _ posts E)
    as (doc & copied & Hdoc); try (by eexists); try done.
  { vm_compute in E. injection E as <-.
    repeat constructor. }
  by exists posts, doc, copied.
Defined.

(** A text with a lone surrogate cannot be written: nothing is returned. *)
Example surrogate_text_is_not_written :
  run_html [{| timestamp := 1; post_text := PStr [55296%N]; title := PStr [];
               photo_paths := []; photo_filenames := []; date_string := [];
               tags := []; external_url := PStr [] |}]
  = Err UnicodeEncodeError.
Proof. vm_compute. reflexivity. Qed.

Lemma posts_to_csv_reads_back_witness :
  ∃ content rows,
    posts_to_csv sample_repr [comma_post; script_post] = (content, Ok tt)
    ∧ mapM (csv_row sample_repr) [comma_post; script_post] = Ok rows
    ∧ csv_parse FieldStart [] [] content = Some (csv_header :: rows)
    ∧ Forall (λ r, length r = 8%nat) rows.
Proof.
  destruct (posts_to_csv sample_repr [comma_post; script_post])
    as [content [[]|e]] eqn:E; [|vm_compute in E; discriminate].
  destruct (posts_to_csv_reads_back sample_repr _ content E)
    as (rows & Hrows & Hparse & Hlen).
  by exists content, rows.
Defined.

Lemma posts_to_csv_stops_at_a_bad_tag_witness :
  posts_to_csv sample_repr ([comma_post] ++ null_tag_post :: [script_post])
  = (fst (posts_to_csv sample_repr [comma_post]), Err TypeError).
Proof.
  apply (posts_to_csv_stops_at_a_bad_tag sample_repr [comma_post]
           null_tag_post [script_post]).
  - vm_compute. reflexivity.
  - apply Exists_cons_hd. reflexivity.
Defined.

Lemma extract_all_zips_returns_the_posts_files_witness :
  ∃ json_files log,
    run_zips [lit "facebook-2.zip"; lit "facebook-1.zip"]
    = Ok (json_files, log)
    ∧ json_files
      = [lit "extracted_data/your_facebook_activity/posts/your_posts__check_ins__photos_and_videos_1.json";
         lit "extracted_data/your_facebook_activity/posts/your_posts__check_ins__photos_and_videos_2.json"]
    ∧ log
      = [Extracting (lit "facebook-1.zip");
         Extracted (lit "facebook-1.zip")
           (lit "your_facebook_activity/posts/your_posts__check_ins__photos_and_videos_1.json");
         Extracted (lit "facebook-1.zip")
           (lit "your_facebook_activity/posts/media/your_posts/pic.jpg");
         Extracting (lit "facebook-2.zip");
         Extracted (lit "facebook-2.zip")
           (lit "your_facebook_activity/posts/your_posts__check_ins__photos_and_videos_2.json")].
Proof.
  destruct (run_zips [lit "facebook-2.zip"; lit "facebook-1.zip"])
    as [[json_files log]|e] eqn:E; [|vm_compute in E; discriminate].
  destruct (extract_all_zips_returns_the_posts_files _ _ _ _ _ json_files log E)
    as (lists & Hlists & -> & ->).
  vm_compute in Hlists. injection Hlists as <-.
  eexists _, _. split; [reflexivity|]. split; vm_compute; reflexivity.
Defined.

Lemma glob_order_does_not_matter_witness :
  run_zips [lit "facebook-2.zip"; lit "facebook-1.zip"]
  = run_zips [lit "facebook-1.zip"; lit "facebook-2.zip"].
Proof. apply glob_order_does_not_matter, perm_swap. Defined.

Example run_zips_sample :
  fst <$> run_zips [lit "facebook-2.zip"; lit "facebook-1.zip"]
  = Ok [lit "extracted_data/your_facebook_activity/posts/your_posts__check_ins__photos_and_videos_1.json";
        lit "extracted_data/your_facebook_activity/posts/your_posts__check_ins__photos_and_videos_2.json"].
Proof. vm_compute. reflexivity. Qed.

Example comma_post_row :
  csv_writerow <$> csv_row sample_repr comma_post
  = Ok (tpl "40,1970-01-01 00:00:40,`say ``hi``, then
bye`,,a.jpg|b.jpg,a.jpg|b.jpg,x|y," ++ [13%N; 10%N]).
Proof. vm_compute. reflexivity. Qed.
